(** * aleo-prover-monitor: a shallow embedding of [main.go]

    The monitor polls a JSON HTTP API for prover statistics and republishes
    them as Prometheus gauges through a Pushgateway.  This development
    embeds the program of [main.go] (package-level flags, [main],
    [fetchDataAndPush], the four fetch functions, [fetchData],
    [parseFloat]) and states its behaviour as theorems.  Further down come
    the second revision that [main.go] holds, with its gauge vectors
    ([Vec]), and the push helpers of [prometh/prometh.go] ([Prometh]).

    Modelling choices.
    - [float64] is IEEE binary64, Rocq's primitive [float].
    - The Go runtime and the libraries the program calls but does not
      define ([strconv.ParseFloat], [json.Unmarshal] into each anonymous
      result struct, [url.Parse], the HTTP transport, the Pushgateway, the
      iteration order of a Go map) are the fields of the class [GoRuntime].
      The outside world is a state [Ext] stepped by every interaction.
    - The Prometheus default registry is program state: [Register] follows
      [Registry.Register] of client_golang for collectors with one descriptor
      (it refuses a descriptor that [NewDesc] made with an error, one that
      is inconsistent with those of its name, and one that is registered),
      and [MustRegister] panics when it returns an error.
    - A computation is a function from the state to an outcome, the new
      state and the events it emitted, in order.  A panic or [os.Exit]
      stops the computation. *)

From Stdlib Require Import ZArith Floats.PrimFloat Numbers.Cyclic.Int63.Uint63.
From Stdlib Require Import Strings.Ascii Strings.String DecimalString.
From Stdlib Require Import DecimalFacts DecimalPos.
From stdpp Require Import base option strings list gmap sorting.

Local Open Scope string_scope.
Local Open Scope Z_scope.
Local Open Scope list_scope.

(** ** Go values *)

Definition float64 : Type := PrimFloat.float.

(** A Go [error]: one made by a library, or [fmt.Errorf("<prefix>: %w", cause)]. *)
Inductive error : Type :=
| Err (msg : string)
| Wrapf (prefix : string) (cause : error).

(** [(T, error)] results; [Ok] is a nil error. *)
Inductive result (A : Type) : Type :=
| Ok (a : A)
| Fail (e : error).
Arguments Ok {A} a.
Arguments Fail {A} e.

(** The double quote character, and a string between double quotes. *)
Definition dquote : string := String (ascii_of_nat 34) EmptyString.
Definition quoted (s : string) : string := dquote +:+ s +:+ dquote.

(** [%d] of [fmt.Sprintf] on an [int]. *)
Definition fmt_d (z : Z) : string := NilZero.string_of_int (Z.to_int z).

(** [float64(n)] for an [int] (64 bits): the nearest binary64. *)
Definition float64_of_int (n : Z) : float64 :=
  let m := Z.abs n in
  let f := if m <? 2 ^ 63 then PrimFloat.of_uint63 (Uint63.of_Z m)
           else 9223372036854775808%float in
  if n <? 0 then PrimFloat.opp f else f.

(** ** HTTP *)

Record Request : Type := mkRequest {
  Method : string;
  URL : string;
  Header : list (string * string);
  Body : string
}.

(** A response the transport delivered: its status code, and what
    [ioutil.ReadAll] makes of its body. *)
Record Response : Type := mkResponse {
  StatusCode : Z;
  RespBody : result string
}.

(** [httpguts.IsTokenRune] on a byte. *)
Definition isTokenRune (c : ascii) : bool :=
  let n := nat_of_ascii c in
  ((48 <=? n) && (n <=? 57))%nat || ((65 <=? n) && (n <=? 90))%nat
  || ((97 <=? n) && (n <=? 122))%nat
  || bool_decide (c ∈ list_ascii_of_string "!#$%&'*+-.^_`|~").

(** [validMethod] of net/http. *)
Definition validMethod (method : string) : bool :=
  negb (bool_decide (method = "")) && forallb isTokenRune (list_ascii_of_string method).

(** [req.Header.Set(key, value)], the key being in canonical form already. *)
Definition Header_Set (req : Request) (key value : string) : Request :=
  mkRequest (Method req) (URL req)
    ((key, value) :: filter (λ kv, kv.1 ≠ key) (Header req)) (Body req).

(** ** UTF-8

    Bytes are compared by their value. *)

Definition byte_is (n : nat) (c : ascii) : bool := (nat_of_ascii c =? n)%nat.
Definition byte_in (lo hi : nat) (c : ascii) : bool :=
  ((lo <=? nat_of_ascii c) && (nat_of_ascii c <=? hi))%nat.

(** The length of the UTF-8 encoding that starts with the byte [c] and
    goes on in [rest], if there is a valid one. *)
Definition utf8_size (c : ascii) (rest : string) : option nat :=
  let cont (lo hi i : nat) :=
    match String.get i rest with Some b => byte_in lo hi b | None => false end in
  (if byte_in 194 223 c then
     if cont 128 191 0 then Some 2 else None
   else if byte_is 224 c then
     if cont 160 191 0 && cont 128 191 1 then Some 3 else None
   else if byte_is 237 c then
     if cont 128 159 0 && cont 128 191 1 then Some 3 else None
   else if byte_in 225 239 c then
     if cont 128 191 0 && cont 128 191 1 then Some 3 else None
   else if byte_is 240 c then
     if cont 144 191 0 && cont 128 191 1 && cont 128 191 2 then Some 4 else None
   else if byte_in 241 243 c then
     if cont 128 191 0 && cont 128 191 1 && cont 128 191 2 then Some 4 else None
   else if byte_is 244 c then
     if cont 128 143 0 && cont 128 191 1 && cont 128 191 2 then Some 4 else None
   else None)%nat.

(** [utf8.ValidString]: [skip] bytes of a rune under way are passed
    over. *)
Fixpoint validFrom (skip : nat) (s : string) : bool :=
  match s with
  | EmptyString => true
  | String c rest =>
      match skip with
      | S n => validFrom n rest
      | O =>
          if byte_in 0 127 c then validFrom O rest
          else
            match utf8_size c rest with
            | Some n => validFrom (n - 1) rest
            | None => false
            end
      end
  end.

Definition utf8_ValidString (s : string) : bool := validFrom 0 s.

(** ** Prometheus descriptors, gauges and registries *)

(** [prometheus.GaugeOpts] with its constant labels, sorted by label name
    as [NewDesc] sorts them. *)
Record Desc : Type := mkDesc {
  fqName : string;
  help : string;
  constLabels : list (string * string)
}.

(** The identity of a descriptor: name and constant label values. *)
Definition DescID : Type := string * list string.
Definition descID (d : Desc) : DescID := (fqName d, (constLabels d).*2).

(** What descriptors of one name must share: label names and help. *)
Definition DimHash : Type := list string * string.
Definition dimHash (d : Desc) : DimHash := ((constLabels d).*1, help d).

Record Registry : Type := mkRegistry {
  descIDs : gset DescID;
  dimHashesByName : gmap string DimHash
}.

Definition NewRegistry : Registry := mkRegistry ∅ ∅.

Definition errInconsistent : error :=
  Err "a previously registered descriptor with the same fully-qualified name has different label names or a different help string".
Definition errAlreadyRegistered : error :=
  Err "duplicate metrics collector registration attempted".

Definition errInvalidDesc : error :=
  Err "descriptor is invalid: label value is not valid UTF-8".

(** Whether [NewDesc] made the descriptor without an error.  The metric
    names and the label names of the program are constants that it
    accepts; the values of the constant labels must be valid UTF-8. *)
Definition descValid (d : Desc) : bool := forallb utf8_ValidString (constLabels d).*2.

(** [Registry.Register] for a collector with the single descriptor [d]:
    the descriptor must be valid, consistent with those of its name, and
    not registered yet. *)
Definition Register (d : Desc) (r : Registry) : result Registry :=
  if descValid d then
    match dimHashesByName r !! fqName d with
    | Some h =>
        if decide (h = dimHash d) then
          if decide (descID d ∈ descIDs r) then Fail errAlreadyRegistered
          else Ok (mkRegistry ({[ descID d ]} ∪ descIDs r) (dimHashesByName r))
        else Fail errInconsistent
    | None =>
        if decide (descID d ∈ descIDs r) then Fail errAlreadyRegistered
        else Ok (mkRegistry ({[ descID d ]} ∪ descIDs r)
                   (<[ fqName d := dimHash d ]> (dimHashesByName r)))
    end
  else Fail errInvalidDesc.

(** A gauge: its descriptor and current value. *)
Record Gauge : Type := mkGauge {
  desc : Desc;
  value : float64
}.

Definition NewGauge (name hlp : string) (labels : list (string * string)) : Gauge :=
  mkGauge (mkDesc name hlp labels) 0%float.

Definition Gauge_Set (g : Gauge) (v : float64) : Gauge := mkGauge (desc g) v.

(** What one push sends to the Pushgateway. *)
Record PushRequest : Type := mkPushRequest {
  gateway : string;
  job : string;
  metrics : list Gauge
}.

(** [push.Pusher]: it registers its collectors in a registry of its own
    and keeps the first error. *)
Record Pusher : Type := mkPusher {
  p_url : string;
  p_job : string;
  p_registry : Registry;
  p_collectors : list Gauge;
  p_error : option error
}.

Definition push_New (url jobName : string) : Pusher :=
  mkPusher url jobName NewRegistry []
    (if decide (jobName = "") then Some (Err "job name is empty") else None).

Definition Collector (g : Gauge) (p : Pusher) : Pusher :=
  match p_error p with
  | Some _ => p
  | None =>
      match Register (desc g) (p_registry p) with
      | Ok r => mkPusher (p_url p) (p_job p) r (p_collectors p ++ [g]) None
      | Fail e => mkPusher (p_url p) (p_job p) (p_registry p) (p_collectors p) (Some e)
      end
  end.

(** ** The decoded response schemas *)

Record SpeedItem : Type := mkSpeedItem { si_Address : string; si_Speed : string }.
Record SpeedResult : Type := mkSpeedResult { sp_List : list SpeedItem; sp_Total : string }.
Record RewardItem : Type := mkRewardItem { ri_Address : string; ri_TotalReward : string }.
Record RewardResult : Type := mkRewardResult { rw_List : list RewardItem; rw_Total : string }.
Record HeightItem : Type := mkHeightItem { hi_Address : string; hi_Height : Z }.
Record BlockResult : Type := mkBlockResult {
  bl_Height : Z;
  bl_ProofTarget : string;
  bl_CoinbaseReward : string
}.

(** ** Events *)

Inductive Arg : Type :=
| AStr (s : string)
| AInt (n : Z)
| AFloat (f : float64)
| AErr (e : error).

Inductive Event : Type :=
| LogPrintln (s : string)
| LogPrintf (format : string) (args : list Arg)
| LogFatal (s : string)
| HttpDo (req : Request)
| GaugeSet (d : Desc) (v : float64)
| GatewayPush (req : PushRequest).

(** ** The runtime *)

Class GoRuntime : Type := {
  (** [strconv.ParseFloat(s, bitSize)] *)
  strconv_ParseFloat : string → Z → result float64;
  (** [json.Unmarshal(data, &result)] for each anonymous result struct *)
  json_Unmarshal_speed : string → result SpeedResult;
  json_Unmarshal_reward : string → result RewardResult;
  json_Unmarshal_height : string → result (list HeightItem);
  json_Unmarshal_block : string → result BlockResult;
  (** [url.Parse]: its error, if any *)
  url_Parse : string → option error;
  (** the outside world *)
  Ext : Type;
  (** [(&http.Client{}).Do(req)] *)
  client_Do : Request → Ext → result Response * Ext;
  (** the HTTP exchange of [Pusher.Push] *)
  gateway_Do : PushRequest → Ext → option error * Ext;
  (** the order in which [range] visits a map *)
  map_range : list (string * Z) → Ext → list (string * Z) * Ext;
  map_range_perm : ∀ m e, (map_range m e).1 ≡ₚ m
}.

(** How a computation ends. *)
Inductive Outcome (A : Type) : Type :=
| Ret (a : A)
| Panic (e : error)
| Exit (code : Z).
Arguments Ret {A} a.
Arguments Panic {A} e.
Arguments Exit {A} code.

(** ** Computations *)

Section Computations.
Context `{rt : GoRuntime}.

(** The state a computation threads: the default registry of the
    process and the outside world. *)
Record State : Type := mkState {
  DefaultRegisterer : Registry;
  world : Ext
}.

Definition M (A : Type) : Type := State → Outcome A * State * list Event.

Definition ret {A} (a : A) : M A := λ s, (Ret a, s, []).

Definition bind {A B} (m : M A) (k : A → M B) : M B := λ s,
  match m s with
  | (Ret a, s1, t1) => let '(o, s2, t2) := k a s1 in (o, s2, t1 ++ t2)
  | (Panic e, s1, t1) => (Panic e, s1, t1)
  | (Exit c, s1, t1) => (Exit c, s1, t1)
  end.

Definition emit (e : Event) : M unit := λ s, (Ret tt, s, [e]).

Definition panic {A} (e : error) : M A := λ s, (Panic e, s, []).

Definition os_Exit {A} (code : Z) : M A := λ s, (Exit code, s, []).

Definition with_world {A} (f : Ext → A * Ext) : M A := λ s,
  let '(a, e) := f (world s) in (Ret a, mkState (DefaultRegisterer s) e, []).
End Computations.

#[global] Instance M_ret `{rt : GoRuntime} : MRet M := @ret rt.
#[global] Instance M_bind `{rt : GoRuntime} : MBind M := λ A B k m, bind m k.

Section Program.
Context `{rt : GoRuntime}.

(** *** The log package *)

Definition log_Println (s : string) : M unit := emit (LogPrintln s).
Definition log_Printf (format : string) (args : list Arg) : M unit :=
  emit (LogPrintf format args).
Definition log_Fatal {A} (s : string) : M A := emit (LogFatal s) ;; os_Exit 1.

(** *** net/http *)

Definition http_NewRequest (method url body : string) : result Request :=
  let method := if decide (method = "") then "GET" else method in
  if validMethod method then
    match url_Parse url with
    | Some e => Fail e
    | None => Ok (mkRequest method url [] body)
    end
  else Fail (Err ("net/http: invalid method " +:+ method)).

Definition Client_Do (req : Request) : M (result Response) :=
  emit (HttpDo req) ;; with_world (client_Do req).

Definition ioutil_ReadAll (resp : Response) : result string := RespBody resp.

(** *** prometheus *)

Definition MustRegister (g : Gauge) : M unit := λ s,
  match Register (desc g) (DefaultRegisterer s) with
  | Ok r => (Ret tt, mkState r (world s), [])
  | Fail e => (Panic e, s, [])
  end.

Definition Set_ (g : Gauge) (v : float64) : M Gauge :=
  emit (GaugeSet (desc g) v) ;; ret (Gauge_Set g v).

Definition Push (p : Pusher) : M (option error) :=
  match p_error p with
  | Some e => ret (Some e)
  | None =>
      let req := mkPushRequest (p_url p) (p_job p) (p_collectors p) in
      emit (GatewayPush req) ;; with_world (gateway_Do req)
  end.

(** *** main.go *)

(** The package-level variables the flags fill in. *)
Variables (pushgatewayURL apiBaseURL : string) (addresses : list string).

Definition parseFloat (s : string) : result float64 := strconv_ParseFloat s 64.

Definition fetchData (url body : string) : M (result string) :=
  match http_NewRequest "POST" url body with
  | Fail err => ret (Fail (Wrapf "could not create request" err))
  | Ok req =>
      let req := Header_Set req "Content-Type" "application/json" in
      r ← Client_Do req;
      match r with
      | Fail err => ret (Fail (Wrapf "could not fetch data" err))
      | Ok resp =>
          match ioutil_ReadAll resp with
          | Fail err => ret (Fail (Wrapf "could not read response" err))
          | Ok data =>
              log_Printf "Response from %s: %s" [AStr url; AStr data] ;;
              ret (Ok data)
          end
      end
  end.

(** The loop of [fetchProverSpeed] over [result.Data.List]. *)
Fixpoint speedLoop (durationName : string) (proverSpeed : Gauge)
    (items : list SpeedItem) : M Gauge :=
  match items with
  | [] => ret proverSpeed
  | item :: rest =>
      match parseFloat (si_Speed item) with
      | Fail _ =>
          log_Printf "Invalid speed value: %v" [AStr (si_Speed item)] ;;
          speedLoop durationName proverSpeed rest
      | Ok speed =>
          g ← Set_ proverSpeed speed;
          log_Printf "Set prover speed: address=%s, duration=%s, speed=%f"
            [AStr (si_Address item); AStr durationName; AFloat speed] ;;
          speedLoop durationName g rest
      end
  end.

Definition speedBody (address : string) (duration : Z) : string :=
  "{" +:+ quoted "address" +:+ ":[" +:+ quoted address +:+ "],"
  +:+ quoted "duration" +:+ ":" +:+ fmt_d duration +:+ "}".

Definition fetchProverSpeed (address : string) (duration : Z)
    (durationName : string) : M (option error) :=
  let url := apiBaseURL +:+ "/api/v1/provers/prover_speed_list" in
  let body := speedBody address duration in
  r ← fetchData url body;
  match r with
  | Fail err => ret (Some err)
  | Ok data =>
      match json_Unmarshal_speed data with
      | Fail err => ret (Some (Wrapf "could not unmarshal prover speed response" err))
      | Ok result =>
          let proverSpeed := NewGauge "prover_speed" "Speed of the prover"
                               [("address", address); ("duration", durationName)] in
          MustRegister proverSpeed ;;
          proverSpeed ← speedLoop durationName proverSpeed (sp_List result);
          let totalSpeed := NewGauge "total_speed" "Total speed"
                              [("duration", durationName)] in
          MustRegister totalSpeed ;;
          match parseFloat (sp_Total result) with
          | Fail _ =>
              log_Printf "Invalid total speed value: %v" [AStr (sp_Total result)] ;;
              ret None
          | Ok totalSpeedValue =>
              totalSpeed ← Set_ totalSpeed totalSpeedValue;
              log_Printf "Set total speed: duration=%s, total_speed=%f"
                [AStr durationName; AFloat totalSpeedValue] ;;
              Push (Collector totalSpeed
                      (Collector proverSpeed (push_New pushgatewayURL "prover_metrics")))
          end
      end
  end.

(** The loop of [fetchProverReward] over [result.Data.List]. *)
Fixpoint rewardLoop (totalReward : Gauge) (items : list RewardItem) : M Gauge :=
  match items with
  | [] => ret totalReward
  | item :: rest =>
      match parseFloat (ri_TotalReward item) with
      | Fail _ =>
          log_Printf "Invalid total reward value: %v" [AStr (ri_TotalReward item)];;
          rewardLoop totalReward rest
      | Ok totalRewardValue =>
          g ← Set_ totalReward totalRewardValue;
          log_Printf "Set total reward: address=%s, total_reward=%f"
            [AStr (ri_Address item); AFloat totalRewardValue];;
          rewardLoop g rest
      end
  end.

Definition addressBody (address : string) : string :=
  "{" +:+ quoted "address" +:+ ":[" +:+ quoted address +:+ "]}".

Definition fetchProverReward (address : string) : M (option error) :=
  let url := apiBaseURL +:+ "/api/v1/provers/prover_reward_list" in
  let body := addressBody address in
  r ← fetchData url body;
  match r with
  | Fail err => ret (Some err)
  | Ok data =>
      match json_Unmarshal_reward data with
      | Fail err => ret (Some (Wrapf "could not unmarshal prover reward response" err))
      | Ok result =>
          let totalReward := NewGauge "total_reward" "Total reward of the prover"
                               [("address", address)] in
          MustRegister totalReward;;
          totalReward ← rewardLoop totalReward (rw_List result);
          Push (Collector totalReward (push_New pushgatewayURL "prover_metrics"))
      end
  end.

(** The loop of [fetchProverLatestHeight] over [result.Data]. *)
Fixpoint heightLoop (proverHeight : Gauge) (items : list HeightItem) : M Gauge :=
  match items with
  | [] => ret proverHeight
  | item :: rest =>
      g ← Set_ proverHeight (float64_of_int (hi_Height item));
      log_Printf "Set prover height: address=%s, height=%d"
        [AStr (hi_Address item); AInt (hi_Height item)];;
      heightLoop g rest
  end.

Definition fetchProverLatestHeight (address : string) : M (option error) :=
  let url := apiBaseURL +:+ "/api/v1/provers/prover_latest_height" in
  let body := addressBody address in
  r ← fetchData url body;
  match r with
  | Fail err => ret (Some err)
  | Ok data =>
      match json_Unmarshal_height data with
      | Fail err =>
          ret (Some (Wrapf "could not unmarshal prover latest height response" err))
      | Ok result =>
          let proverHeight := NewGauge "prover_height" "Height of the prover"
                                [("address", address)] in
          MustRegister proverHeight;;
          proverHeight ← heightLoop proverHeight result;
          Push (Collector proverHeight (push_New pushgatewayURL "prover_metrics"))
      end
  end.

Definition fetchLatestBlock : M (option error) :=
  let url := apiBaseURL +:+ "/api/v1/chain/latest_block" in
  r ← fetchData url "";
  match r with
  | Fail err => ret (Some err)
  | Ok data =>
      log_Printf "Raw response from latest block: %s" [AStr data];;
      match json_Unmarshal_block data with
      | Fail err => ret (Some (Wrapf "could not unmarshal latest block response" err))
      | Ok result =>
          let latestBlockHeight :=
            NewGauge "latest_block_height" "Height of the latest block" [] in
          MustRegister latestBlockHeight;;
          latestBlockHeight ← Set_ latestBlockHeight (float64_of_int (bl_Height result));
          log_Printf "Set latest block height: height=%d" [AInt (bl_Height result)];;
          let proofTarget :=
            NewGauge "proof_target" "Proof target of the latest block" [] in
          MustRegister proofTarget;;
          match parseFloat (bl_ProofTarget result) with
          | Fail _ =>
              log_Printf "Invalid proof target value: %v" [AStr (bl_ProofTarget result)];;
              ret None
          | Ok proofTargetValue =>
              proofTarget ← Set_ proofTarget proofTargetValue;
              log_Printf "Set proof target: proof_target=%f" [AFloat proofTargetValue];;
              let coinbaseReward :=
                NewGauge "coinbase_reward" "Coinbase reward of the latest block" [] in
              MustRegister coinbaseReward;;
              match parseFloat (bl_CoinbaseReward result) with
              | Fail _ =>
                  log_Printf "Invalid coinbase reward value: %v"
                    [AStr (bl_CoinbaseReward result)];;
                  ret None
              | Ok coinbaseRewardValue =>
                  coinbaseReward ← Set_ coinbaseReward coinbaseRewardValue;
                  log_Printf "Set coinbase reward: coinbase_reward=%f"
                    [AFloat coinbaseRewardValue];;
                  Push (Collector coinbaseReward
                          (Collector proofTarget
                             (Collector latestBlockHeight
                                (push_New pushgatewayURL "latest_block_metrics"))))
              end
          end
      end
  end.

(** The map literal of [fetchDataAndPush]. *)
Definition durations : list (string * Z) :=
  [("15m", 900); ("1h", 3600); ("12h", 43200); ("24h", 86400)].

(** The inner loop of [fetchDataAndPush] for one address, over the
    durations in the order [range] yields them. *)
Fixpoint durationLoop (address : string) (ds : list (string * Z)) : M unit :=
  match ds with
  | [] => ret tt
  | (durationName, duration) :: rest =>
      log_Printf "Fetching prover speed for address %s and duration %s"
        [AStr address; AStr durationName];;
      err ← fetchProverSpeed address duration durationName;
      match err with
      | Some err =>
          log_Printf "Error fetching prover speed for address %s and duration %s: %v"
            [AStr address; AStr durationName; AErr err]
      | None => ret tt
      end;;
      durationLoop address rest
  end.

(** The outer loop of [fetchDataAndPush]. *)
Fixpoint addressLoop (addrs : list string) : M unit :=
  match addrs with
  | [] => ret tt
  | address :: rest =>
      ds ← with_world (map_range durations);
      durationLoop address ds;;
      log_Printf "Fetching prover reward for address %s" [AStr address];;
      err ← fetchProverReward address;
      match err with
      | Some err =>
          log_Printf "Error fetching prover reward for address %s: %v"
            [AStr address; AErr err]
      | None => ret tt
      end;;
      log_Printf "Fetching prover latest height for address %s" [AStr address];;
      err ← fetchProverLatestHeight address;
      match err with
      | Some err =>
          log_Printf "Error fetching prover latest height for address %s: %v"
            [AStr address; AErr err]
      | None => ret tt
      end;;
      addressLoop rest
  end.

Definition fetchDataAndPush : M unit :=
  log_Println "Fetching data and pushing to Pushgateway";;
  addressLoop addresses;;
  log_Println "Fetching latest block";;
  err ← fetchLatestBlock;
  match err with
  | Some err => log_Printf "Error fetching latest block: %v" [AErr err]
  | None => ret tt
  end.

(** The ticker loop of [main], for the first [ticks] ticks. *)
Fixpoint tickerLoop (ticks : nat) : M unit :=
  match ticks with
  | O => ret tt
  | S n => fetchDataAndPush;; tickerLoop n
  end.

(** [main] after the flags are parsed, observed until the cycle of
    tick number [ticks] has ended. *)
Definition main (ticks : nat) : M unit :=
  if decide (length addresses = 0%nat) then log_Fatal "No addresses provided"
  else
    log_Println "Starting prover monitor";;
    fetchDataAndPush;;
    tickerLoop ticks.
End Program.

(** The state of a process that has just started. *)
Definition initial `{rt : GoRuntime} (w : Ext) : State := mkState NewRegistry w.

(** ** A runtime to run the program on

    [Demo] is an instance of [GoRuntime] in which the API server answers
    every request to an endpoint with the response configured for that
    endpoint, the Pushgateway accepts and records every push, and [range]
    visits a map in the order it is written.  Bodies are the JSON
    documents [speedDoc], [rewardDoc], [heightDoc] and [blockDoc] render. *)
Module Demo.

(** The defaults of the [--pushgateway] and [--api] flags. *)
Definition pushgatewayURL : string := "http://pushgateway:9091".
Definition apiBaseURL : string := "http://localhost:8088".

(** Decimal literals [-ddd.ddd] of at most 15 digits: the quotient of
    two integers that binary64 holds exactly is the nearest binary64.
    Other literals are refused. *)
Definition digit (c : ascii) : option Z :=
  let n := Z.of_nat (nat_of_ascii c) in
  if (48 <=? n) && (n <=? 57) then Some (n - 48) else None.

Fixpoint digits (acc : Z) (n : nat) (s : string) : Z * nat * string :=
  match s with
  | String c rest =>
      match digit c with
      | Some d => digits (10 * acc + d) (S n) rest
      | None => (acc, n, s)
      end
  | EmptyString => (acc, n, s)
  end.

Definition syntaxError (s : string) : error :=
  Wrapf ("strconv.ParseFloat: parsing " +:+ quoted s) (Err "invalid syntax").

Definition unsigned (orig s : string) : result float64 :=
  let '(i, ni, rest) := digits 0 0 s in
  let '(m, nf, rest) :=
    match rest with
    | String "." rest' => digits i 0 rest'
    | _ => (i, 0%nat, rest)
    end in
  if bool_decide (rest = "") && (0 <? ni + nf)%nat && (ni + nf <=? 15)%nat then
    Ok (PrimFloat.div (PrimFloat.of_uint63 (Uint63.of_Z m))
          (PrimFloat.of_uint63 (Uint63.of_Z (10 ^ Z.of_nat nf))))
  else Fail (syntaxError orig).

Definition ParseFloat (s : string) (bitSize : Z) : result float64 :=
  match s with
  | String "-" rest =>
      match unsigned s rest with Ok f => Ok (PrimFloat.opp f) | Fail e => Fail e end
  | String "+" rest => unsigned s rest
  | _ => unsigned s s
  end.

(** JSON documents of the four response schemas. *)
Definition member (key val : string) : string := quoted key +:+ ":" +:+ val.
Definition object (members : list string) : string :=
  "{" +:+ String.concat "," members +:+ "}".
Definition array (elements : list string) : string :=
  "[" +:+ String.concat "," elements +:+ "]".

Definition speedDoc (r : SpeedResult) : string :=
  object [member "data" (object
    [member "list" (array (map (λ i, object
       [member "address" (quoted (si_Address i));
        member "speed" (quoted (si_Speed i))]) (sp_List r)));
     member "total" (quoted (sp_Total r))])].

Definition rewardDoc (r : RewardResult) : string :=
  object [member "data" (object
    [member "list" (array (map (λ i, object
       [member "address" (quoted (ri_Address i));
        member "total_reward" (quoted (ri_TotalReward i))]) (rw_List r)));
     member "total" (quoted (rw_Total r))])].

Definition heightDoc (r : list HeightItem) : string :=
  object [member "data" (array (map (λ i, object
    [member "address" (quoted (hi_Address i));
     member "height" (fmt_d (hi_Height i))]) r))].

Definition blockDoc (r : BlockResult) : string :=
  object [member "data" (object
    [member "height" (fmt_d (bl_Height r));
     member "proof_target" (quoted (bl_ProofTarget r));
     member "coinbase_reward" (quoted (bl_CoinbaseReward r))])].

(** The structs whose documents the decoders of [Demo] know. *)
Definition speeds : list SpeedResult :=
  [ mkSpeedResult [mkSpeedItem "aleo1" "12.5"] "40";
    mkSpeedResult [mkSpeedItem "aleo1" "12.5"; mkSpeedItem "aleo1" "7"] "40";
    mkSpeedResult [mkSpeedItem "aleo1" "fast"; mkSpeedItem "aleo1" "7"] "40";
    mkSpeedResult [mkSpeedItem "aleo1" "12.5"] "n/a" ].
Definition rewards : list RewardResult :=
  [ mkRewardResult [mkRewardItem "aleo1" "300"] "300";
    mkRewardResult [mkRewardItem "aleo1" "300"; mkRewardItem "aleo1" "25"] "325";
    mkRewardResult [mkRewardItem "aleo1" "none"; mkRewardItem "aleo1" "25"] "25" ].
Definition heights : list (list HeightItem) :=
  [ [mkHeightItem "aleo1" 1200]; [] ].
Definition blocks : list BlockResult :=
  [ mkBlockResult 1201 "5000" "150.5";
    mkBlockResult 1201 "unknown" "150.5";
    mkBlockResult 1201 "5000" "unknown" ].

Definition syntaxErr : error := Err "invalid character looking for beginning of value".

(** [json.Unmarshal] on the documents of the known structs: the struct
    a document was rendered from. *)
Definition Unmarshal {A} (doc : A → string) (known : list A) (data : string) : result A :=
  match find (λ r, bool_decide (doc r = data)) known with
  | Some r => Ok r
  | None => Fail syntaxErr
  end.

(** What the server answers on each endpoint. *)
Record Server : Type := mkServer {
  on_speed : result Response;
  on_reward : result Response;
  on_height : result Response;
  on_block : result Response
}.

Record World : Type := mkWorld {
  server : Server;
  pushed : list PushRequest
}.

Definition notFound : result Response := Ok (mkResponse 404 (Ok "404 page not found")).

Definition Do (req : Request) (w : World) : result Response * World :=
  let on (path : string) := bool_decide (URL req = apiBaseURL +:+ path) in
  if on "/api/v1/provers/prover_speed_list" then (on_speed (server w), w)
  else if on "/api/v1/provers/prover_reward_list" then (on_reward (server w), w)
  else if on "/api/v1/provers/prover_latest_height" then (on_height (server w), w)
  else if on "/api/v1/chain/latest_block" then (on_block (server w), w)
  else (notFound, w).

Definition PushDo (req : PushRequest) (w : World) : option error * World :=
  (None, mkWorld (server w) (pushed w ++ [req])).

Definition range (m : list (string * Z)) (w : World) : list (string * Z) * World :=
  (m, w).

#[export] Instance runtime : GoRuntime := {|
  strconv_ParseFloat := ParseFloat;
  json_Unmarshal_speed := Unmarshal speedDoc speeds;
  json_Unmarshal_reward := Unmarshal rewardDoc rewards;
  json_Unmarshal_height := Unmarshal heightDoc heights;
  json_Unmarshal_block := Unmarshal blockDoc blocks;
  url_Parse := λ _, None;
  Ext := World;
  client_Do := Do;
  gateway_Do := PushDo;
  map_range := range;
  map_range_perm := λ m _, Permutation_refl m
|}.

(** A response with status [code] and the given body. *)
Definition answer (code : Z) (body : string) : result Response :=
  Ok (mkResponse code (Ok body)).

(** A server in good health, reporting on the prover [aleo1]. *)
Definition healthy : Server := mkServer
  (answer 200 (speedDoc (mkSpeedResult [mkSpeedItem "aleo1" "12.5"] "40")))
  (answer 200 (rewardDoc (mkRewardResult [mkRewardItem "aleo1" "300"] "300")))
  (answer 200 (heightDoc [mkHeightItem "aleo1" 1200]))
  (answer 200 (blockDoc (mkBlockResult 1201 "5000" "150.5"))).

(** A process that has just started, facing the server [srv]. *)
Definition start (srv : Server) : State := initial (mkWorld srv []).
End Demo.

(** ** Reading a trace *)

(** The requests sent to the API, in order. *)
Definition requests_of (t : list Event) : list Request :=
  omap (λ e, match e with HttpDo req => Some req | _ => None end) t.

(** The pushes sent to the Pushgateway, in order. *)
Definition pushes_of (t : list Event) : list PushRequest :=
  omap (λ e, match e with GatewayPush req => Some req | _ => None end) t.

(** The values gauges were set to, in order. *)
Definition sets_of (t : list Event) : list (Desc * float64) :=
  omap (λ e, match e with GaugeSet d v => Some (d, v) | _ => None end) t.

(** The trace, the outcome and the final state of a run. *)
Definition trace_of {A S} (r : Outcome A * S * list Event) : list Event := r.2.
Definition outcome_of {A S} (r : Outcome A * S * list Event) : Outcome A := r.1.1.
Definition state_of {A S} (r : Outcome A * S * list Event) : S := r.1.2.

(** * The vocabulary of the statements *)

(** ** Requests and gauges *)

(** The request [fetchData url body] sends. *)
Definition apiRequest (url body : string) : Request :=
  mkRequest "POST" url [("Content-Type", "application/json")] body.

(** The gauges of the program, by descriptor. *)
Definition proverSpeedDesc (address durationName : string) : Desc :=
  mkDesc "prover_speed" "Speed of the prover"
    [("address", address); ("duration", durationName)].
Definition totalSpeedDesc (durationName : string) : Desc :=
  mkDesc "total_speed" "Total speed" [("duration", durationName)].
Definition totalRewardDesc (address : string) : Desc :=
  mkDesc "total_reward" "Total reward of the prover" [("address", address)].
Definition proverHeightDesc (address : string) : Desc :=
  mkDesc "prover_height" "Height of the prover" [("address", address)].
Definition latestBlockHeightDesc : Desc :=
  mkDesc "latest_block_height" "Height of the latest block" [].
Definition proofTargetDesc : Desc :=
  mkDesc "proof_target" "Proof target of the latest block" [].
Definition coinbaseRewardDesc : Desc :=
  mkDesc "coinbase_reward" "Coinbase reward of the latest block" [].

(** ** Runs *)

Section Vocabulary.
Context `{rt : GoRuntime}.

(** [wp m s Q]: the run of [m] from [s] satisfies [Q]. *)
Definition wp {A} (m : M A) (s : State)
    (Q : Outcome A → State → list Event → Prop) : Prop :=
  Q (outcome_of (m s)) (state_of (m s)) (trace_of (m s)).

(** The value a string field parses to, if it parses. *)
Definition parsed (s : string) : option float64 :=
  match parseFloat s with Ok v => Some v | Fail _ => None end.

(** What the loop of [fetchProverSpeed] does with one item. *)
Definition speedItemEvents (durationName : string) (d : Desc) (item : SpeedItem)
    : list Event :=
  match parseFloat (si_Speed item) with
  | Fail _ => [LogPrintf "Invalid speed value: %v" [AStr (si_Speed item)]]
  | Ok speed =>
      [GaugeSet d speed;
       LogPrintf "Set prover speed: address=%s, duration=%s, speed=%f"
         [AStr (si_Address item); AStr durationName; AFloat speed]]
  end.

(** What the loop of [fetchProverReward] does with one item. *)
Definition rewardItemEvents (d : Desc) (item : RewardItem) : list Event :=
  match parseFloat (ri_TotalReward item) with
  | Fail _ => [LogPrintf "Invalid total reward value: %v" [AStr (ri_TotalReward item)]]
  | Ok v =>
      [GaugeSet d v;
       LogPrintf "Set total reward: address=%s, total_reward=%f"
         [AStr (ri_Address item); AFloat v]]
  end.

(** What the loop of [fetchProverLatestHeight] does with one item. *)
Definition heightItemEvents (d : Desc) (item : HeightItem) : list Event :=
  [GaugeSet d (float64_of_int (hi_Height item));
   LogPrintf "Set prover height: address=%s, height=%d"
     [AStr (hi_Address item); AInt (hi_Height item)]].

(** The value of a gauge after it was set to each of [vs] in turn. *)
Definition lastSet (g : Gauge) (vs : list float64) : Gauge :=
  mkGauge (desc g) (default (value g) (last vs)).

(** The request [Push] sends for the collectors [gs]. *)
Definition pushRequest (url jobName : string) (gs : list Gauge) : PushRequest :=
  mkPushRequest url jobName gs.

(** The run of a push that reached the Pushgateway. *)
Definition pushed (req : PushRequest) (s : State)
    : Outcome (option error) * State * list Event :=
  (Ret (gateway_Do req (world s)).1,
   mkState (DefaultRegisterer s) (gateway_Do req (world s)).2,
   [GatewayPush req]).

Variables (pushgatewayURL apiBaseURL : string).

Definition speedURL : string := apiBaseURL +:+ "/api/v1/provers/prover_speed_list".
Definition rewardURL : string := apiBaseURL +:+ "/api/v1/provers/prover_reward_list".
Definition heightURL : string := apiBaseURL +:+ "/api/v1/provers/prover_latest_height".
Definition blockURL : string := apiBaseURL +:+ "/api/v1/chain/latest_block".

(** What [fetchProverSpeed] does once the response [r] is decoded, from
    the state [s1] in which [fetchData] returned. *)
Definition speedDecoded (address durationName : string) (r : SpeedResult) (s1 : State)
    : Outcome (option error) * State * list Event :=
  let ps := NewGauge "prover_speed" "Speed of the prover"
              [("address", address); ("duration", durationName)] in
  let ts := NewGauge "total_speed" "Total speed" [("duration", durationName)] in
  let loop := flat_map (speedItemEvents durationName (desc ps)) (sp_List r) in
  match Register (desc ps) (DefaultRegisterer s1) with
  | Fail e => (Panic e, s1, [])
  | Ok r1 =>
      match Register (desc ts) r1 with
      | Fail e => (Panic e, mkState r1 (world s1), loop)
      | Ok r2 =>
          let s2 := mkState r2 (world s1) in
          match parseFloat (sp_Total r) with
          | Fail _ =>
              (Ret None, s2,
               loop ++ [LogPrintf "Invalid total speed value: %v" [AStr (sp_Total r)]])
          | Ok v =>
              let req := pushRequest pushgatewayURL "prover_metrics"
                [lastSet ps (omap (λ i, parsed (si_Speed i)) (sp_List r));
                 Gauge_Set ts v] in
              (Ret (gateway_Do req (world s1)).1,
               mkState r2 (gateway_Do req (world s1)).2,
               loop ++ [GaugeSet (desc ts) v;
                        LogPrintf "Set total speed: duration=%s, total_speed=%f"
                          [AStr durationName; AFloat v];
                        GatewayPush req])
          end
      end
  end.

(** What [fetchProverReward] does once the response [r] is decoded. *)
Definition rewardDecoded (address : string) (r : RewardResult) (s1 : State)
    : Outcome (option error) * State * list Event :=
  let tr := NewGauge "total_reward" "Total reward of the prover"
              [("address", address)] in
  match Register (desc tr) (DefaultRegisterer s1) with
  | Fail e => (Panic e, s1, [])
  | Ok r1 =>
      let req := pushRequest pushgatewayURL "prover_metrics"
        [lastSet tr (omap (λ i, parsed (ri_TotalReward i)) (rw_List r))] in
      (Ret (gateway_Do req (world s1)).1,
       mkState r1 (gateway_Do req (world s1)).2,
       flat_map (rewardItemEvents (desc tr)) (rw_List r) ++ [GatewayPush req])
  end.

(** What [fetchProverLatestHeight] does once the response [r] is decoded. *)
Definition heightDecoded (address : string) (r : list HeightItem) (s1 : State)
    : Outcome (option error) * State * list Event :=
  let ph := NewGauge "prover_height" "Height of the prover" [("address", address)] in
  match Register (desc ph) (DefaultRegisterer s1) with
  | Fail e => (Panic e, s1, [])
  | Ok r1 =>
      let req := pushRequest pushgatewayURL "prover_metrics"
        [lastSet ph (map (λ i, float64_of_int (hi_Height i)) r)] in
      (Ret (gateway_Do req (world s1)).1,
       mkState r1 (gateway_Do req (world s1)).2,
       flat_map (heightItemEvents (desc ph)) r ++ [GatewayPush req])
  end.

(** What [fetchLatestBlock] does once the response [r] is decoded. *)
Definition blockDecoded (r : BlockResult) (s1 : State)
    : Outcome (option error) * State * list Event :=
  let lbh := NewGauge "latest_block_height" "Height of the latest block" [] in
  let pt := NewGauge "proof_target" "Proof target of the latest block" [] in
  let cr := NewGauge "coinbase_reward" "Coinbase reward of the latest block" [] in
  let h := float64_of_int (bl_Height r) in
  let t_h := [GaugeSet (desc lbh) h;
              LogPrintf "Set latest block height: height=%d" [AInt (bl_Height r)]] in
  match Register (desc lbh) (DefaultRegisterer s1) with
  | Fail e => (Panic e, s1, [])
  | Ok r1 =>
      match Register (desc pt) r1 with
      | Fail e => (Panic e, mkState r1 (world s1), t_h)
      | Ok r2 =>
          match parseFloat (bl_ProofTarget r) with
          | Fail _ =>
              (Ret None, mkState r2 (world s1),
               t_h ++ [LogPrintf "Invalid proof target value: %v"
                         [AStr (bl_ProofTarget r)]])
          | Ok v =>
              let t_p := [GaugeSet (desc pt) v;
                          LogPrintf "Set proof target: proof_target=%f" [AFloat v]] in
              match Register (desc cr) r2 with
              | Fail e => (Panic e, mkState r2 (world s1), t_h ++ t_p)
              | Ok r3 =>
                  match parseFloat (bl_CoinbaseReward r) with
                  | Fail _ =>
                      (Ret None, mkState r3 (world s1),
                       t_h ++ t_p ++ [LogPrintf "Invalid coinbase reward value: %v"
                                        [AStr (bl_CoinbaseReward r)]])
                  | Ok v' =>
                      let req := pushRequest pushgatewayURL "latest_block_metrics"
                        [Gauge_Set lbh h; Gauge_Set pt v; Gauge_Set cr v'] in
                      (Ret (gateway_Do req (world s1)).1,
                       mkState r3 (gateway_Do req (world s1)).2,
                       t_h ++ t_p
                       ++ [GaugeSet (desc cr) v';
                           LogPrintf "Set coinbase reward: coinbase_reward=%f" [AFloat v'];
                           GatewayPush req])
                  end
              end
          end
      end
  end.

(** A descriptor the default registry of the process holds. *)
Definition registered (d : Desc) (s : State) : Prop :=
  descID d ∈ descIDs (DefaultRegisterer s).

Variable alive : Ext → Prop.

(** What [alive] asks of the world. *)
Record Serving : Prop := {
  serving_url : url_Parse speedURL = None;
  serving_speed : ∀ w address duration,
    alive w →
    ∃ code data r,
      (client_Do (apiRequest speedURL (speedBody address duration)) w).1
        = Ok (mkResponse code (Ok data))
      ∧ json_Unmarshal_speed data = Ok r;
  serving_do : ∀ w req, alive w → alive (client_Do req w).2;
  serving_push : ∀ w req, alive w → alive (gateway_Do req w).2;
  serving_range : ∀ w m, alive w → alive (map_range m w).2
}.

(** What every computation of the program keeps: the world stays alive,
    the registry only grows, and nothing but [main] exits. *)
Definition kept {A} (s : State) (o : Outcome A) (s' : State) (t : list Event) : Prop :=
  alive (world s')
  ∧ descIDs (DefaultRegisterer s) ⊆ descIDs (DefaultRegisterer s')
  ∧ ∀ c, o ≠ Exit c.

(** What the loop over the durations leaves: whatever [kept] says, the
    total_speed gauge of every duration of the loop registered if the loop
    returns, and a panic if the gauge of the first duration was registered
    before. *)
Definition after_durations (ds : list (string * Z)) (s : State)
    (o : Outcome unit) (s' : State) (t : list Event) : Prop :=
  kept s o s' t
  ∧ ((∃ x, o = Ret x) → ∀ dn d, (dn, d) ∈ ds → registered (totalSpeedDesc dn) s')
  ∧ (∀ dn d rest, ds = (dn, d) :: rest →
     registered (totalSpeedDesc dn) s → ∃ e, o = Panic e).

(** The total_speed gauges of all the durations of the program. *)
Definition totals_registered (s : State) : Prop :=
  ∀ dn d, (dn, d) ∈ durations → registered (totalSpeedDesc dn) s.

(** What the loop over one address or more, and a cycle, leave: whatever
    [kept] says, the total_speed gauges registered if it returns, and a
    panic if they were registered before. *)
Definition after_cycle (s : State)
    (o : Outcome unit) (s' : State) (t : list Event) : Prop :=
  kept s o s' t
  ∧ ((∃ x, o = Ret x) → totals_registered s')
  ∧ (totals_registered s → ∃ e, o = Panic e).
End Vocabulary.

Arguments serving_url {rt apiBaseURL alive} _.
Arguments serving_speed {rt apiBaseURL alive} _.
Arguments serving_do {rt apiBaseURL alive} _.
Arguments serving_push {rt apiBaseURL alive} _.
Arguments serving_range {rt apiBaseURL alive} _.

(** ** A healthy server *)

Section HealthyScenario.
Import Demo.

(** The request of [fetchProverSpeed] on [Demo]. *)
Definition speedRequest (address : string) (duration : Z) : Request :=
  apiRequest (apiBaseURL +:+ "/api/v1/provers/prover_speed_list")
    (speedBody address duration).
Definition rewardRequest (address : string) : Request :=
  apiRequest (apiBaseURL +:+ "/api/v1/provers/prover_reward_list") (addressBody address).
Definition heightRequest (address : string) : Request :=
  apiRequest (apiBaseURL +:+ "/api/v1/provers/prover_latest_height")
    (addressBody address).
Definition blockRequest : Request :=
  apiRequest (apiBaseURL +:+ "/api/v1/chain/latest_block") "".

(** The requests of one whole cycle over the addresses [addrs]. *)
Definition cycleRequests (addrs : list string) : list Request :=
  flat_map (λ a, map (λ d, speedRequest a d.2) durations
                 ++ [rewardRequest a; heightRequest a]) addrs
  ++ [blockRequest].

(** The first cycle on a healthy server, for the single address aleo1. *)
Definition firstCycle : Outcome unit * State * list Event :=
  fetchDataAndPush pushgatewayURL apiBaseURL ["aleo1"] (start healthy).

(** The cycle that follows the first one. *)
Definition secondCycle : Outcome unit * State * list Event :=
  fetchDataAndPush pushgatewayURL apiBaseURL ["aleo1"] (state_of firstCycle).
End HealthyScenario.

(** ** JSON text

    [json_Valid] follows the grammar of RFC 8259 over bytes, as the
    scanner of encoding/json accepts it ([json.Valid]).  [toJSON] follows
    [json.Marshal] on the request payloads: a struct with the fields
    address (a list of strings) and, for the speed endpoint, duration. *)

Definition isSpace (c : ascii) : bool :=
  byte_is 32 c || byte_is 9 c || byte_is 13 c || byte_is 10 c.
Definition isDigit (c : ascii) : bool := byte_in 48 57 c.
Definition isHex (c : ascii) : bool :=
  byte_in 48 57 c || byte_in 97 102 c || byte_in 65 70 c.
(** The bytes that may follow a backslash, u apart: quote, backslash,
    slash, b, f, n, r, t. *)
Definition isEscape (c : ascii) : bool :=
  byte_is 34 c || byte_is 92 c || byte_is 47 c || byte_is 98 c || byte_is 102 c
  || byte_is 110 c || byte_is 114 c || byte_is 116 c.

Fixpoint skip_space (s : string) : string :=
  match s with
  | String c rest => if isSpace c then skip_space rest else s
  | EmptyString => s
  end.

(** The rest of the text after a string literal whose opening quote has
    been read. *)
Fixpoint scan_string (s : string) : option string :=
  match s with
  | EmptyString => None
  | String c rest =>
      if byte_is 34 c then Some rest
      else if byte_is 92 c then
        match rest with
        | String e rest' =>
            if isEscape e then scan_string rest'
            else if byte_is 117 e then
              match rest' with
              | String h1 (String h2 (String h3 (String h4 rest''))) =>
                  if isHex h1 && isHex h2 && isHex h3 && isHex h4
                  then scan_string rest'' else None
              | _ => None
              end
            else None
        | EmptyString => None
        end
      else if byte_in 0 31 c then None
      else scan_string rest
  end.

Fixpoint skip_digits (s : string) : string :=
  match s with
  | String c rest => if isDigit c then skip_digits rest else s
  | EmptyString => s
  end.

(** One digit or more. *)
Definition scan_digits (s : string) : option string :=
  match s with
  | String c rest => if isDigit c then Some (skip_digits rest) else None
  | EmptyString => None
  end.

Definition scan_exponent (s : string) : option string :=
  match s with
  | String c rest =>
      if byte_is 101 c || byte_is 69 c then
        match rest with
        | String sign rest' =>
            if byte_is 43 sign || byte_is 45 sign then scan_digits rest'
            else scan_digits rest
        | EmptyString => None
        end
      else Some s
  | EmptyString => Some s
  end.

Definition scan_fraction (s : string) : option string :=
  match s with
  | String c rest => if byte_is 46 c then scan_digits rest else Some s
  | EmptyString => Some s
  end.

(** The rest of the text after a number. *)
Definition scan_number (s : string) : option string :=
  let s := match s with
           | String c rest => if byte_is 45 c then rest else s
           | EmptyString => s
           end in
  match s with
  | String c rest =>
      if byte_is 48 c then scan_fraction rest ≫= scan_exponent
      else if byte_in 49 57 c then scan_fraction (skip_digits rest) ≫= scan_exponent
      else None
  | EmptyString => None
  end.

(** The rest of [s] after the word [w], if [s] starts with it. *)
Fixpoint scan_word (w s : string) : option string :=
  match w with
  | EmptyString => Some s
  | String c w' =>
      match s with
      | String c' s' => if Ascii.eqb c c' then scan_word w' s' else None
      | EmptyString => None
      end
  end.

(** The rest of the text after one value; [scan_members] reads the
    members of an object from the first key on, [scan_elements] the
    elements of an array from the first one on.  The fuel bounds the
    number of nested calls; each call reads a byte at least, so the length
    of the text is enough. *)
Fixpoint scan_value (fuel : nat) (s : string) : option string :=
  match fuel with
  | O => None
  | S fuel =>
      match skip_space s with
      | EmptyString => None
      | String c rest =>
          if byte_is 123 c then
            match skip_space rest with
            | EmptyString => None
            | String c' rest' =>
                if byte_is 125 c' then Some rest'
                else scan_members fuel (String c' rest')
            end
          else if byte_is 91 c then
            match skip_space rest with
            | EmptyString => None
            | String c' rest' =>
                if byte_is 93 c' then Some rest'
                else scan_elements fuel (String c' rest')
            end
          else if byte_is 34 c then scan_string rest
          else if byte_is 116 c then scan_word "rue" rest
          else if byte_is 102 c then scan_word "alse" rest
          else if byte_is 110 c then scan_word "ull" rest
          else scan_number (String c rest)
      end
  end
with scan_members (fuel : nat) (s : string) : option string :=
  match fuel with
  | O => None
  | S fuel =>
      match s with
      | EmptyString => None
      | String c rest =>
          if byte_is 34 c then
            match scan_string rest with
            | None => None
            | Some r1 =>
                match skip_space r1 with
                | EmptyString => None
                | String colon r2 =>
                    if byte_is 58 colon then
                      match scan_value fuel r2 with
                      | None => None
                      | Some r3 =>
                          match skip_space r3 with
                          | EmptyString => None
                          | String sep r4 =>
                              if byte_is 44 sep then scan_members fuel (skip_space r4)
                              else if byte_is 125 sep then Some r4
                              else None
                          end
                      end
                    else None
                end
            end
          else None
      end
  end
with scan_elements (fuel : nat) (s : string) : option string :=
  match fuel with
  | O => None
  | S fuel =>
      match scan_value fuel s with
      | None => None
      | Some r1 =>
          match skip_space r1 with
          | EmptyString => None
          | String sep r2 =>
              if byte_is 44 sep then scan_elements fuel r2
              else if byte_is 93 sep then Some r2
              else None
          end
      end
  end.

(** [json.Valid]: one value, with white space around it at most. *)
Definition json_Valid (s : string) : bool :=
  match scan_value (S (String.length s)) s with
  | Some rest => bool_decide (skip_space rest = "")
  | None => false
  end.

(** Go values that [toJSON] is given: strings, ints, slices and structs
    with their JSON field names. *)
Inductive GoValue : Type :=
| VString (s : string)
| VInt (n : Z)
| VSlice (elements : list GoValue)
| VStruct (fields : list (string * GoValue)).

(** The bytes [json.Marshal] copies as they are: printable ASCII except
    the quote, the backslash and the three that HTML escaping rewrites. *)
Definition htmlSafe (c : ascii) : bool :=
  byte_in 32 127 c
  && negb (byte_is 34 c || byte_is 92 c || byte_is 60 c || byte_is 62 c || byte_is 38 c).

Definition hexDigit (n : nat) : ascii :=
  match String.get n "0123456789abcdef" with Some c => c | None => "0"%char end.

(** A backslash escape: the backslash and [code]. *)
Definition backslash (code : string) : string := String (ascii_of_nat 92) code.

(** The escape of an ASCII byte that is not [htmlSafe]. *)
Definition escapeByte (c : ascii) : string :=
  let n := nat_of_ascii c in
  if byte_is 34 c || byte_is 92 c then backslash (String c "")
  else if byte_is 8 c then backslash "b"
  else if byte_is 12 c then backslash "f"
  else if byte_is 10 c then backslash "n"
  else if byte_is 13 c then backslash "r"
  else if byte_is 9 c then backslash "t"
  else backslash ("u00" +:+ String (hexDigit (n / 16)) (String (hexDigit (n mod 16)) "")).

(** The escapes of the line and paragraph separators, whose encodings are
    E2 80 A8 and E2 80 A9. *)
Definition lineSeparator (c : ascii) (rest : string) : option string :=
  if byte_is 226 c then
    match rest with
    | String b1 (String b2 _) =>
        if byte_is 128 b1 && byte_is 168 b2 then Some (backslash "u2028")
        else if byte_is 128 b1 && byte_is 169 b2 then Some (backslash "u2029")
        else None
    | _ => None
    end
  else None.

(** The inside of a string literal as [json.Marshal] writes it, HTML
    escaping on.  [copy] bytes of a rune under way are copied, [drop]
    bytes of a rune that was escaped are dropped; a byte that starts no
    valid encoding becomes the escape of the replacement character. *)
Fixpoint appendString (copy drop : nat) (s : string) : string :=
  match s with
  | EmptyString => EmptyString
  | String c rest =>
      match copy, drop with
      | S n, _ => String c (appendString n drop rest)
      | O, S n => appendString O n rest
      | O, O =>
          if byte_in 0 127 c then
            if htmlSafe c then String c (appendString O O rest)
            else escapeByte c +:+ appendString O O rest
          else
            match lineSeparator c rest with
            | Some esc => esc +:+ appendString O 2 rest
            | None =>
                match utf8_size c rest with
                | Some n => String c (appendString (n - 1) O rest)
                | None => backslash "ufffd" +:+ appendString O O rest
                end
            end
      end
  end.

(** [toJSON(v)]: [json.Marshal] cannot fail on these values, so the
    [log.Fatalf] of [toJSON] is never reached.  A slice is not nil. *)
Fixpoint toJSON (v : GoValue) : string :=
  match v with
  | VString s => quoted (appendString 0 0 s)
  | VInt n => fmt_d n
  | VSlice elements => "[" +:+ String.concat "," (map toJSON elements) +:+ "]"
  | VStruct fields =>
      "{" +:+ String.concat ","
                (map (λ f, quoted (appendString 0 0 f.1) +:+ ":" +:+ toJSON f.2) fields)
      +:+ "}"
  end.

(** The payloads of the per-address endpoints. *)
Definition speedPayload (address : string) (duration : Z) : GoValue :=
  VStruct [("address", VSlice [VString address]); ("duration", VInt duration)].
Definition addressPayload (address : string) : GoValue :=
  VStruct [("address", VSlice [VString address])].

(** The bytes a JSON string literal may hold as they are. *)
Definition jsonPlain (c : ascii) : bool :=
  negb (byte_in 0 31 c || byte_is 34 c || byte_is 92 c).

Definition all_bytes (p : ascii → bool) (s : string) : bool :=
  forallb p (list_ascii_of_string s).

(** The array with the address, followed by [rest]. *)
Definition addressArray (address rest : string) : string :=
  "[" +:+ dquote +:+ (address +:+ String (ascii_of_nat 34) ("]" +:+ rest)).

(** * Theorems *)

(** ** Running computations *)

Section Running.
Context `{rt : GoRuntime}.

Lemma run_bind {A B} (m : M A) (k : A → M B) (s : State) :
  (m ≫= k) s =
  match m s with
  | (Ret a, s1, t1) => let '(o, s2, t2) := k a s1 in (o, s2, t1 ++ t2)
  | (Panic e, s1, t1) => (Panic e, s1, t1)
  | (Exit c, s1, t1) => (Exit c, s1, t1)
  end.
Proof. reflexivity. Qed.

(** Big-step composition. *)
Lemma run_bind_Ret {A B} (m : M A) (k : A → M B) s a s1 t1 o s2 t2 :
  m s = (Ret a, s1, t1) → k a s1 = (o, s2, t2) → (m ≫= k) s = (o, s2, t1 ++ t2).
Proof. intros Hm Hk. by rewrite run_bind, Hm, Hk. Qed.

Lemma run_bind_Panic {A B} (m : M A) (k : A → M B) s e s1 t1 :
  m s = (Panic e, s1, t1) → (m ≫= k) s = (Panic e, s1, t1).
Proof. intros Hm. by rewrite run_bind, Hm. Qed.

Lemma run_bind_Exit {A B} (m : M A) (k : A → M B) s c s1 t1 :
  m s = (Exit c, s1, t1) → (m ≫= k) s = (Exit c, s1, t1).
Proof. intros Hm. by rewrite run_bind, Hm. Qed.

Lemma wp_eq {A} (m : M A) s Q o s' t : m s = (o, s', t) → Q o s' t → wp m s Q.
Proof. unfold wp. by intros ->. Qed.

Lemma wp_run {A} (m : M A) s Q o s' t : wp m s Q → m s = (o, s', t) → Q o s' t.
Proof. unfold wp. intros H E. by rewrite E in H. Qed.

Lemma wp_mono {A} (m : M A) s (Q Q' : Outcome A → State → list Event → Prop) :
  wp m s Q → (∀ o s' t, Q o s' t → Q' o s' t) → wp m s Q'.
Proof. unfold wp. auto. Qed.

Lemma wp_any {A} (m : M A) s (Q : Outcome A → State → list Event → Prop) :
  (∀ o s' t, Q o s' t) → wp m s Q.
Proof. unfold wp. auto. Qed.

Lemma wp_ret {A} (a : A) s (Q : Outcome A → State → list Event → Prop) :
  Q (Ret a) s [] → wp (mret a) s Q.
Proof. done. Qed.

Lemma wp_bind {A B} (m : M A) (k : A → M B) s
    (Q : Outcome B → State → list Event → Prop) :
  wp m s (λ o s1 t1,
    match o with
    | Ret a => wp (k a) s1 (λ o2 s2 t2, Q o2 s2 (t1 ++ t2))
    | Panic e => Q (Panic e) s1 t1
    | Exit c => Q (Exit c) s1 t1
    end) →
  wp (m ≫= k) s Q.
Proof.
  unfold wp, outcome_of, state_of, trace_of. rewrite run_bind.
  destruct (m s) as [[[a|e|c] s1] t1]; simpl; try done.
  by destruct (k a s1) as [[o s2] t2].
Qed.

Lemma wp_emit {B} (e : Event) (k : M B) s
    (Q : Outcome B → State → list Event → Prop) :
  wp k s (λ o s' t, Q o s' (e :: t)) → wp (emit e;; k) s Q.
Proof. intros H. by apply wp_bind. Qed.

Lemma wp_log_Printf {B} format args (k : M B) s
    (Q : Outcome B → State → list Event → Prop) :
  wp k s (λ o s' t, Q o s' (LogPrintf format args :: t)) →
  wp (log_Printf format args;; k) s Q.
Proof. apply wp_emit. Qed.

Lemma wp_log_Println {B} str (k : M B) s
    (Q : Outcome B → State → list Event → Prop) :
  wp k s (λ o s' t, Q o s' (LogPrintln str :: t)) → wp (log_Println str;; k) s Q.
Proof. apply wp_emit. Qed.

Lemma run_outcome {A} (m : M A) s o :
  outcome_of (m s) = o → m s = (o, state_of (m s), trace_of (m s)).
Proof. intros <-. by destruct (m s) as [[??]?]. Qed.

Lemma wp_to_eq {A} (m : M A) s r : wp m s (λ o s' t, (o, s', t) = r) → m s = r.
Proof. unfold wp, outcome_of, state_of, trace_of. by destruct (m s) as [[??]?]. Qed.

Lemma wp_bind_eq {A B} (m : M A) (k : A → M B) s a s1 t1
    (Q : Outcome B → State → list Event → Prop) :
  m s = (Ret a, s1, t1) →
  wp (k a) s1 (λ o2 s2 t2, Q o2 s2 (t1 ++ t2)) →
  wp (m ≫= k) s Q.
Proof. intros Hm Hk. apply wp_bind. by eapply wp_eq. Qed.

Lemma wp_Set {B} (g : Gauge) (v : float64) (k : Gauge → M B) s
    (Q : Outcome B → State → list Event → Prop) :
  wp (k (Gauge_Set g v)) s (λ o s' t, Q o s' (GaugeSet (desc g) v :: t)) →
  wp (Set_ g v ≫= k) s Q.
Proof. intros H. by eapply (wp_bind_eq _ _ s (Gauge_Set g v) s [_]). Qed.

Lemma run_emit {B} (e : Event) (k : M B) s o s' t :
  k s = (o, s', t) → (emit e;; k) s = (o, s', e :: t).
Proof. intros Hk. by apply (run_bind_Ret (emit e) _ s tt s [e]). Qed.

Lemma requests_of_app t1 t2 : requests_of (t1 ++ t2) = requests_of t1 ++ requests_of t2.
Proof. apply omap_app. Qed.

Lemma pushes_of_app t1 t2 : pushes_of (t1 ++ t2) = pushes_of t1 ++ pushes_of t2.
Proof. apply omap_app. Qed.

Lemma sets_of_app t1 t2 : sets_of (t1 ++ t2) = sets_of t1 ++ sets_of t2.
Proof. apply omap_app. Qed.
End Running.

(** ** Start-up *)

Section Startup.
Context `{rt : GoRuntime}.
Variables (pushgatewayURL apiBaseURL : string).

Lemma main_with_addresses (address : string) (rest : list string) (ticks : nat) :
  main pushgatewayURL apiBaseURL (address :: rest) ticks
  = (log_Println "Starting prover monitor";;
     fetchDataAndPush pushgatewayURL apiBaseURL (address :: rest);;
     tickerLoop pushgatewayURL apiBaseURL (address :: rest) ticks).
Proof. reflexivity. Qed.

(** C8. Started with no address, [main] logs "No addresses provided" and
    exits with status 1: its whole trace is that log line, so no request
    and no push is sent.  Started with at least one address, [main] logs
    its start and goes on with the first fetch-and-push cycle. *)
Theorem main_checks_addresses (ticks : nat) (s : State) :
  main pushgatewayURL apiBaseURL [] ticks s
    = (Exit 1, s, [LogFatal "No addresses provided"])
  ∧ requests_of (trace_of (main pushgatewayURL apiBaseURL [] ticks s)) = []
  ∧ pushes_of (trace_of (main pushgatewayURL apiBaseURL [] ticks s)) = []
  ∧ ∀ address rest,
      main pushgatewayURL apiBaseURL (address :: rest) ticks s
      = (log_Println "Starting prover monitor";;
         fetchDataAndPush pushgatewayURL apiBaseURL (address :: rest);;
         tickerLoop pushgatewayURL apiBaseURL (address :: rest) ticks) s
      ∧ ∃ t, trace_of (main pushgatewayURL apiBaseURL (address :: rest) ticks s)
             = LogPrintln "Starting prover monitor"
               :: LogPrintln "Fetching data and pushing to Pushgateway" :: t.
Proof.
  assert (main pushgatewayURL apiBaseURL [] ticks s
          = (Exit 1, s, [LogFatal "No addresses provided"])) as E by reflexivity.
  rewrite E. split_and!; try done.
  intros address rest. split; first done.
  rewrite main_with_addresses.
  change (wp (log_Println "Starting prover monitor";;
              fetchDataAndPush pushgatewayURL apiBaseURL (address :: rest);;
              tickerLoop pushgatewayURL apiBaseURL (address :: rest) ticks) s
            (λ _ _ tr, ∃ t, tr = LogPrintln "Starting prover monitor"
               :: LogPrintln "Fetching data and pushing to Pushgateway" :: t)).
  apply wp_log_Println, wp_bind. unfold fetchDataAndPush.
  apply wp_log_Println, wp_any. intros [] ? t; simpl; eauto.
  apply wp_any. eauto.
Qed.
End Startup.

(** ** [fetchData] *)

Section FetchData.
Context `{rt : GoRuntime}.

Lemma http_NewRequest_POST (url body : string) :
  http_NewRequest "POST" url body =
  match url_Parse url with
  | Some e => Fail e
  | None => Ok (mkRequest "POST" url [] body)
  end.
Proof. reflexivity. Qed.

Lemma Header_Set_fresh (url body : string) :
  Header_Set (mkRequest "POST" url [] body) "Content-Type" "application/json"
  = apiRequest url body.
Proof. reflexivity. Qed.

(** What a call of [fetchData] does, by cases on the URL, the transport
    and the reading of the body. *)
Lemma fetchData_run (url body : string) (s : State) :
  fetchData url body s =
  match url_Parse url with
  | Some e => (Ret (Fail (Wrapf "could not create request" e)), s, [])
  | None =>
      let s' := mkState (DefaultRegisterer s)
                  (client_Do (apiRequest url body) (world s)).2 in
      match (client_Do (apiRequest url body) (world s)).1 with
      | Fail e =>
          (Ret (Fail (Wrapf "could not fetch data" e)), s',
           [HttpDo (apiRequest url body)])
      | Ok resp =>
          match RespBody resp with
          | Fail e =>
              (Ret (Fail (Wrapf "could not read response" e)), s',
               [HttpDo (apiRequest url body)])
          | Ok data =>
              (Ret (Ok data), s',
               [HttpDo (apiRequest url body);
                LogPrintf "Response from %s: %s" [AStr url; AStr data]])
          end
      end
  end.
Proof.
  unfold fetchData. rewrite http_NewRequest_POST.
  destruct (url_Parse url) as [e|]; first done.
  rewrite Header_Set_fresh, run_bind.
  unfold Client_Do. rewrite run_bind. unfold emit, with_world.
  destruct (client_Do (apiRequest url body) (world s)) as [[resp|e] w]; simpl; last done.
  unfold ioutil_ReadAll. by destruct (RespBody resp).
Qed.

(** [fetchData] returns: it neither panics nor exits, and it leaves the
    registry alone. *)
Lemma fetchData_returns (url body : string) (s : State) :
  ∃ r w t, fetchData url body s = (Ret r, mkState (DefaultRegisterer s) w, t).
Proof.
  rewrite fetchData_run.
  destruct (url_Parse url); first by (destruct s; eauto).
  simpl. destruct (client_Do _ _).1 as [resp|]; last by eauto.
  destruct (RespBody resp); eauto.
Qed.

(** C9. [fetchData] checks no status code.  Whatever the status of a
    response the transport delivers and whose body reads as [data],
    [fetchData] returns [data] and a nil error, after the same events.
    It returns a non-nil error only when the request cannot be created,
    the round trip fails, or the body cannot be read; and it always
    returns. *)
Theorem fetchData_ignores_status (url body : string) (s : State) :
  (∀ req code data w,
     http_NewRequest "POST" url body = Ok req →
     client_Do (Header_Set req "Content-Type" "application/json") (world s)
       = (Ok (mkResponse code (Ok data)), w) →
     fetchData url body s
     = (Ret (Ok data), mkState (DefaultRegisterer s) w,
        [HttpDo (Header_Set req "Content-Type" "application/json");
         LogPrintf "Response from %s: %s" [AStr url; AStr data]]))
  ∧ (∀ e s' t,
       fetchData url body s = (Ret (Fail e), s', t) →
       (∃ e0, http_NewRequest "POST" url body = Fail e0
              ∧ e = Wrapf "could not create request" e0)
       ∨ (∃ req e0 w,
            http_NewRequest "POST" url body = Ok req
            ∧ client_Do (Header_Set req "Content-Type" "application/json") (world s)
              = (Fail e0, w)
            ∧ e = Wrapf "could not fetch data" e0)
       ∨ (∃ req code e0 w,
            http_NewRequest "POST" url body = Ok req
            ∧ client_Do (Header_Set req "Content-Type" "application/json") (world s)
              = (Ok (mkResponse code (Fail e0)), w)
            ∧ e = Wrapf "could not read response" e0))
  ∧ (∃ r s' t, fetchData url body s = (Ret r, s', t)).
Proof.
  split_and!.
  - intros req code data w Hreq Hdo. rewrite fetchData_run.
    rewrite http_NewRequest_POST in Hreq.
    destruct (url_Parse url); first done.
    injection Hreq as <-. rewrite Header_Set_fresh in *. by rewrite Hdo.
  - intros e s' t. rewrite fetchData_run, http_NewRequest_POST.
    destruct (url_Parse url) as [e0|].
    { intros [= <- <- <-]. left. eauto. }
    simpl. destruct (client_Do _ _) as [[[code [data|e0]]|e0] w] eqn:Hdo; simpl.
    + done.
    + intros [= <- <- <-]. right; right.
      exists (mkRequest "POST" url [] body), code, e0, w.
      by rewrite Header_Set_fresh.
    + intros [= <- <- <-]. right; left.
      exists (mkRequest "POST" url [] body), e0, w.
      by rewrite Header_Set_fresh.
  - destruct (fetchData_returns url body s) as (r & w & t & ->). eauto.
Qed.
End FetchData.

(** C9 on [Demo]: a server that answers the reward endpoint with status
    500 and an error page; [fetchData] returns the page and a nil error. *)
Lemma fetchData_ignores_status_witness :
  let url := Demo.apiBaseURL +:+ "/api/v1/provers/prover_reward_list" in
  let srv := Demo.mkServer Demo.notFound (Demo.answer 500 "Internal Server Error")
               Demo.notFound Demo.notFound in
  fetchData url (addressBody "aleo1") (Demo.start srv)
  = (Ret (Ok "Internal Server Error"), Demo.start srv,
     [HttpDo (apiRequest url (addressBody "aleo1"));
      LogPrintf "Response from %s: %s" [AStr url; AStr "Internal Server Error"]]).
Proof.
  intros url srv.
  exact (proj1 (fetchData_ignores_status url (addressBody "aleo1") (Demo.start srv))
           (mkRequest "POST" url [] (addressBody "aleo1")) 500 "Internal Server Error"
           (Demo.mkWorld srv []) eq_refl eq_refl).
Defined.

(** ** The loops over response items *)

Section Loops.
Context `{rt : GoRuntime}.

Lemma lastSet_nil g : lastSet g [] = g.
Proof. by destruct g. Qed.

Lemma lastSet_cons g v vs : lastSet g (v :: vs) = lastSet (Gauge_Set g v) vs.
Proof. unfold lastSet. rewrite last_cons. simpl. by destruct (last vs). Qed.

Lemma speedLoop_run durationName g items s :
  speedLoop durationName g items s
  = (Ret (lastSet g (omap (λ i, parsed (si_Speed i)) items)), s,
     flat_map (speedItemEvents durationName (desc g)) items).
Proof.
  revert g. induction items as [|item rest IH]; intros g.
  - simpl. by rewrite lastSet_nil.
  - simpl. unfold speedItemEvents at 1, parsed at 1.
    destruct (parseFloat (si_Speed item)) as [speed|err].
    + rewrite lastSet_cons.
      eapply (run_bind_Ret _ _ s _ s [GaugeSet (desc g) speed]); first done.
      apply run_emit. by rewrite IH.
    + by apply run_emit, IH.
Qed.

Lemma rewardLoop_run g items s :
  rewardLoop g items s
  = (Ret (lastSet g (omap (λ i, parsed (ri_TotalReward i)) items)), s,
     flat_map (rewardItemEvents (desc g)) items).
Proof.
  revert g. induction items as [|item rest IH]; intros g.
  - simpl. by rewrite lastSet_nil.
  - simpl. unfold rewardItemEvents at 1, parsed at 1.
    destruct (parseFloat (ri_TotalReward item)) as [v|err].
    + rewrite lastSet_cons.
      eapply (run_bind_Ret _ _ s _ s [GaugeSet (desc g) v]); first done.
      apply run_emit. by rewrite IH.
    + by apply run_emit, IH.
Qed.

Lemma heightLoop_run g items s :
  heightLoop g items s
  = (Ret (lastSet g (map (λ i, float64_of_int (hi_Height i)) items)), s,
     flat_map (heightItemEvents (desc g)) items).
Proof.
  revert g. induction items as [|item rest IH]; intros g.
  - simpl. by rewrite lastSet_nil.
  - simpl. rewrite lastSet_cons.
    eapply (run_bind_Ret _ _ s _ s [GaugeSet (desc g) _]); first done.
    apply run_emit. by rewrite IH.
Qed.
End Loops.

(** ** Registries and pushers *)

Section Pushing.
Context `{rt : GoRuntime}.

(** A valid descriptor whose name the registry has not seen registers. *)
Lemma Register_new_name (d : Desc) (r : Registry) :
  descValid d = true →
  dimHashesByName r !! fqName d = None →
  descID d ∉ descIDs r →
  Register d r = Ok (mkRegistry ({[ descID d ]} ∪ descIDs r)
                       (<[ fqName d := dimHash d ]> (dimHashesByName r))).
Proof. intros Hv Hn Hi. unfold Register. rewrite Hv, Hn. by rewrite decide_False. Qed.

(** A descriptor that is registered already does not register again. *)
Lemma Register_again (d : Desc) (r : Registry) :
  descID d ∈ descIDs r → ∃ e, Register d r = Fail e.
Proof.
  intros Hi. unfold Register. destruct (descValid d); last by eauto.
  destruct (dimHashesByName r !! fqName d) as [h|].
  - destruct (decide (h = dimHash d)); last by eauto.
    rewrite decide_True by done. eauto.
  - rewrite decide_True by done. eauto.
Qed.

(** Registering adds the descriptor and keeps the others. *)
Lemma Register_Ok_descIDs (d : Desc) (r r' : Registry) :
  Register d r = Ok r' → descIDs r' = {[ descID d ]} ∪ descIDs r.
Proof.
  unfold Register. intros H. destruct (descValid d); last done.
  destruct (dimHashesByName r !! fqName d) as [h|];
    repeat case_decide; by simplify_eq/=.
Qed.

(** Only a valid descriptor registers. *)
Lemma Register_Ok_valid (d : Desc) (r r' : Registry) :
  Register d r = Ok r' → descValid d = true.
Proof. unfold Register. by destruct (descValid d). Qed.

Lemma Push_run (p : Pusher) (s : State) :
  p_error p = None →
  Push p s = pushed (pushRequest (p_url p) (p_job p) (p_collectors p)) s.
Proof.
  intros Hp. unfold Push. rewrite Hp.
  eapply (run_bind_Ret _ _ s tt s [_]); first done.
  unfold with_world, pushRequest. by destruct (gateway_Do _ _).
Qed.

Lemma Register_second (d1 d2 : Desc) :
  descValid d2 = true →
  fqName d1 ≠ fqName d2 →
  ∃ r, Register d2 (mkRegistry ({[ descID d1 ]} ∪ ∅) (<[ fqName d1 := dimHash d1 ]> ∅))
       = Ok r.
Proof.
  intros Hv Hn. rewrite Register_new_name; first by eauto.
  - done.
  - simpl. by rewrite lookup_insert_ne.
  - simpl. destruct d1, d2. unfold descID. simpl in *. set_solver.
Qed.

Lemma Register_third (d1 d2 d3 : Desc) :
  descValid d3 = true →
  fqName d1 ≠ fqName d3 → fqName d2 ≠ fqName d3 →
  ∃ r, Register d3
         (mkRegistry ({[ descID d2 ]} ∪ ({[ descID d1 ]} ∪ ∅))
            (<[ fqName d2 := dimHash d2 ]> (<[ fqName d1 := dimHash d1 ]> ∅)))
       = Ok r.
Proof.
  intros Hv Hn1 Hn2. rewrite Register_new_name; first by eauto.
  - done.
  - simpl. by rewrite !lookup_insert_ne.
  - simpl. destruct d1, d2, d3. unfold descID. simpl in *. set_solver.
Qed.

(** A pusher with one collector sends it. *)
Lemma Push_one (url jobName : string) (g : Gauge) (s : State) :
  jobName ≠ "" →
  descValid (desc g) = true →
  Push (Collector g (push_New url jobName)) s = pushed (pushRequest url jobName [g]) s.
Proof.
  intros Hj Hv. unfold Collector, push_New. simpl.
  rewrite decide_False by done.
  rewrite Register_new_name by (done || (simpl; set_solver)).
  by apply Push_run.
Qed.

(** A pusher with collectors of two names sends both, in order. *)
Lemma Push_two (url jobName : string) (g1 g2 : Gauge) (s : State) :
  jobName ≠ "" → fqName (desc g1) ≠ fqName (desc g2) →
  descValid (desc g1) = true → descValid (desc g2) = true →
  Push (Collector g2 (Collector g1 (push_New url jobName))) s
  = pushed (pushRequest url jobName [g1; g2]) s.
Proof.
  intros Hj Hn Hv1 Hv2. unfold Collector at 2, push_New. simpl.
  rewrite decide_False by done.
  rewrite Register_new_name by (done || (simpl; set_solver)).
  unfold Collector. simpl.
  destruct (Register_second (desc g1) (desc g2) Hv2 Hn) as [r ->].
  by apply Push_run.
Qed.

(** A pusher with collectors of three names sends the three, in order. *)
Lemma Push_three (url jobName : string) (g1 g2 g3 : Gauge) (s : State) :
  jobName ≠ "" →
  fqName (desc g1) ≠ fqName (desc g2) →
  fqName (desc g1) ≠ fqName (desc g3) →
  fqName (desc g2) ≠ fqName (desc g3) →
  descValid (desc g1) = true → descValid (desc g2) = true →
  descValid (desc g3) = true →
  Push (Collector g3 (Collector g2 (Collector g1 (push_New url jobName)))) s
  = pushed (pushRequest url jobName [g1; g2; g3]) s.
Proof.
  intros Hj H12 H13 H23 Hv1 Hv2 Hv3. unfold Collector at 3, push_New. simpl.
  rewrite decide_False by done.
  rewrite Register_new_name by (done || (simpl; set_solver)).
  unfold Collector at 2. simpl.
  rewrite Register_new_name; first last.
  { simpl. destruct g1 as [[]], g2 as [[]]. unfold descID. simpl in *. set_solver. }
  { simpl. by rewrite lookup_insert_ne. }
  { done. }
  unfold Collector. simpl.
  destruct (Register_third (desc g1) (desc g2) (desc g3) Hv3 H13 H23) as [r ->].
  by apply Push_run.
Qed.
End Pushing.

(** ** The fetch functions, by cases *)

Section Fetching.
Context `{rt : GoRuntime}.
Variables (pushgatewayURL apiBaseURL : string).

Abbreviation fetchProverSpeed := (fetchProverSpeed pushgatewayURL apiBaseURL).
Abbreviation fetchProverReward := (fetchProverReward pushgatewayURL apiBaseURL).
Abbreviation fetchProverLatestHeight := (fetchProverLatestHeight pushgatewayURL apiBaseURL).
Abbreviation fetchLatestBlock := (fetchLatestBlock pushgatewayURL apiBaseURL).

Lemma MustRegister_run (g : Gauge) (s : State) :
  MustRegister g s =
  match Register (desc g) (DefaultRegisterer s) with
  | Ok r => (Ret tt, mkState r (world s), [])
  | Fail e => (Panic e, s, [])
  end.
Proof. reflexivity. Qed.

Lemma MustRegister_Ok (g : Gauge) (s : State) (r : Registry) :
  Register (desc g) (DefaultRegisterer s) = Ok r →
  MustRegister g s = (Ret tt, mkState r (world s), []).
Proof. intros H. by rewrite MustRegister_run, H. Qed.

Lemma MustRegister_Fail {B} (g : Gauge) (k : unit → M B) (s : State) (e : error) :
  Register (desc g) (DefaultRegisterer s) = Fail e →
  (MustRegister g ≫= k) s = (Panic e, s, []).
Proof. intros H. by rewrite run_bind, MustRegister_run, H. Qed.

Lemma fetchProverSpeed_run address duration durationName s :
  fetchProverSpeed address duration durationName s =
  match fetchData (speedURL apiBaseURL) (speedBody address duration) s with
  | (Ret (Ok data), s1, t1) =>
      match json_Unmarshal_speed data with
      | Fail err =>
          (Ret (Some (Wrapf "could not unmarshal prover speed response" err)), s1, t1)
      | Ok r =>
          let '(o, s2, t2) := speedDecoded pushgatewayURL address durationName r s1 in (o, s2, t1 ++ t2)
      end
  | (Ret (Fail err), s1, t1) => (Ret (Some err), s1, t1)
  | (Panic e, s1, t1) => (Panic e, s1, t1)
  | (Exit c, s1, t1) => (Exit c, s1, t1)
  end.
Proof.
  unfold fetchProverSpeed. rewrite run_bind. fold (speedURL apiBaseURL).
  destruct (fetchData _ _ s) as [[[[data|err]|e|c] s1] t1]; try done.
  2: { simpl. by rewrite app_nil_r. }
  destruct (json_Unmarshal_speed data) as [r|err].
  2: { simpl. by rewrite app_nil_r. }
  apply (f_equal (λ x, let '(o, s2, t2) := x in (o, s2, t1 ++ t2))).
  unfold speedDecoded. cbv zeta. apply wp_to_eq.
  destruct (Register _ (DefaultRegisterer s1)) as [r1|e] eqn:H1.
  2: { eapply wp_eq; last done. by apply MustRegister_Fail. }
  eapply wp_bind_eq; first by apply MustRegister_Ok.
  eapply wp_bind_eq; first by apply speedLoop_run.
  destruct (Register _ r1) as [r2|e] eqn:H2.
  2: { eapply wp_eq; first by apply MustRegister_Fail.
       simpl. by rewrite app_nil_r. }
  eapply wp_bind_eq; first by apply MustRegister_Ok.
  destruct (parseFloat (sp_Total r)) as [v|err].
  - apply wp_Set, wp_log_Printf.
    eapply wp_eq;
      first (apply Push_two;
               [done | done | exact (Register_Ok_valid _ _ _ H1)
               | exact (Register_Ok_valid _ _ _ H2)]).
    done.
  - by apply wp_log_Printf, wp_ret.
Qed.

Lemma fetchProverReward_run address s :
  fetchProverReward address s =
  match fetchData (rewardURL apiBaseURL) (addressBody address) s with
  | (Ret (Ok data), s1, t1) =>
      match json_Unmarshal_reward data with
      | Fail err =>
          (Ret (Some (Wrapf "could not unmarshal prover reward response" err)), s1, t1)
      | Ok r =>
          let '(o, s2, t2) := rewardDecoded pushgatewayURL address r s1 in (o, s2, t1 ++ t2)
      end
  | (Ret (Fail err), s1, t1) => (Ret (Some err), s1, t1)
  | (Panic e, s1, t1) => (Panic e, s1, t1)
  | (Exit c, s1, t1) => (Exit c, s1, t1)
  end.
Proof.
  unfold fetchProverReward. rewrite run_bind. fold (rewardURL apiBaseURL).
  destruct (fetchData _ _ s) as [[[[data|err]|e|c] s1] t1]; try done.
  2: { simpl. by rewrite app_nil_r. }
  destruct (json_Unmarshal_reward data) as [r|err].
  2: { simpl. by rewrite app_nil_r. }
  apply (f_equal (λ x, let '(o, s2, t2) := x in (o, s2, t1 ++ t2))).
  unfold rewardDecoded. cbv zeta. apply wp_to_eq.
  destruct (Register _ (DefaultRegisterer s1)) as [r1|e] eqn:H1.
  2: { eapply wp_eq; last done. by apply MustRegister_Fail. }
  eapply wp_bind_eq; first by apply MustRegister_Ok.
  eapply wp_bind_eq; first by apply rewardLoop_run.
  eapply wp_eq;
    first (apply Push_one; [done | exact (Register_Ok_valid _ _ _ H1)]).
  done.
Qed.

Lemma fetchProverLatestHeight_run address s :
  fetchProverLatestHeight address s =
  match fetchData (heightURL apiBaseURL) (addressBody address) s with
  | (Ret (Ok data), s1, t1) =>
      match json_Unmarshal_height data with
      | Fail err =>
          (Ret (Some (Wrapf "could not unmarshal prover latest height response" err)),
           s1, t1)
      | Ok r =>
          let '(o, s2, t2) := heightDecoded pushgatewayURL address r s1 in (o, s2, t1 ++ t2)
      end
  | (Ret (Fail err), s1, t1) => (Ret (Some err), s1, t1)
  | (Panic e, s1, t1) => (Panic e, s1, t1)
  | (Exit c, s1, t1) => (Exit c, s1, t1)
  end.
Proof.
  unfold fetchProverLatestHeight. rewrite run_bind. fold (heightURL apiBaseURL).
  destruct (fetchData _ _ s) as [[[[data|err]|e|c] s1] t1]; try done.
  2: { simpl. by rewrite app_nil_r. }
  destruct (json_Unmarshal_height data) as [r|err].
  2: { simpl. by rewrite app_nil_r. }
  apply (f_equal (λ x, let '(o, s2, t2) := x in (o, s2, t1 ++ t2))).
  unfold heightDecoded. cbv zeta. apply wp_to_eq.
  destruct (Register _ (DefaultRegisterer s1)) as [r1|e] eqn:H1.
  2: { eapply wp_eq; last done. by apply MustRegister_Fail. }
  eapply wp_bind_eq; first by apply MustRegister_Ok.
  eapply wp_bind_eq; first by apply heightLoop_run.
  eapply wp_eq;
    first (apply Push_one; [done | exact (Register_Ok_valid _ _ _ H1)]).
  done.
Qed.

Lemma fetchLatestBlock_run s :
  fetchLatestBlock s =
  match fetchData (blockURL apiBaseURL) "" s with
  | (Ret (Ok data), s1, t1) =>
      let t1 := t1 ++ [LogPrintf "Raw response from latest block: %s" [AStr data]] in
      match json_Unmarshal_block data with
      | Fail err =>
          (Ret (Some (Wrapf "could not unmarshal latest block response" err)), s1, t1)
      | Ok r =>
          let '(o, s2, t2) := blockDecoded pushgatewayURL r s1 in (o, s2, t1 ++ t2)
      end
  | (Ret (Fail err), s1, t1) => (Ret (Some err), s1, t1)
  | (Panic e, s1, t1) => (Panic e, s1, t1)
  | (Exit c, s1, t1) => (Exit c, s1, t1)
  end.
Proof.
  unfold fetchLatestBlock. rewrite run_bind. fold (blockURL apiBaseURL).
  destruct (fetchData _ _ s) as [[[[data|err]|e|c] s1] t1]; try done.
  2: { simpl. by rewrite app_nil_r. }
  cbv zeta.
  destruct (json_Unmarshal_block data) as [r|err].
  2: { done. }
  assert (∀ x y : Outcome (option error) * State * list Event,
            x = (let '(o, s2, t2) := y in
                 (o, s2, LogPrintf "Raw response from latest block: %s" [AStr data] :: t2)) →
            (let '(o, s2, t2) := x in (o, s2, t1 ++ t2))
            = (let '(o, s2, t2) := y in
               (o, s2, (t1 ++ [LogPrintf "Raw response from latest block: %s" [AStr data]])
                       ++ t2))) as Hc.
  { intros x [[o s2] t2] ->. by rewrite <- app_assoc. }
  apply Hc. clear Hc. apply wp_to_eq, wp_log_Printf.
  unfold blockDecoded. cbv zeta.
  destruct (Register _ (DefaultRegisterer s1)) as [r1|e] eqn:H1.
  2: { eapply wp_eq; last done. by apply MustRegister_Fail. }
  eapply wp_bind_eq; first by apply MustRegister_Ok.
  apply wp_Set, wp_log_Printf.
  destruct (Register _ r1) as [r2|e] eqn:H2.
  2: { eapply wp_eq; first by apply MustRegister_Fail. done. }
  eapply wp_bind_eq; first by apply MustRegister_Ok.
  destruct (parseFloat (bl_ProofTarget r)) as [v|err].
  2: { by apply wp_log_Printf, wp_ret. }
  apply wp_Set, wp_log_Printf.
  destruct (Register _ r2) as [r3|e] eqn:H3.
  2: { eapply wp_eq; first by apply MustRegister_Fail. done. }
  eapply wp_bind_eq; first by apply MustRegister_Ok.
  destruct (parseFloat (bl_CoinbaseReward r)) as [v'|err].
  2: { by apply wp_log_Printf, wp_ret. }
  apply wp_Set, wp_log_Printf.
  eapply wp_eq;
    first (apply Push_three;
             [done | done | done | done | exact (Register_Ok_valid _ _ _ H1)
             | exact (Register_Ok_valid _ _ _ H2) | exact (Register_Ok_valid _ _ _ H3)]).
  done.
Qed.
End Fetching.

(** ** Requests *)

Section Requests.
Context `{rt : GoRuntime}.
Variables (pushgatewayURL apiBaseURL : string).

Lemma requests_of_speedItems durationName d items :
  requests_of (flat_map (speedItemEvents durationName d) items) = [].
Proof.
  induction items as [|i items IH]; first done.
  simpl. rewrite requests_of_app, IH. unfold speedItemEvents.
  by destruct (parseFloat _).
Qed.

Lemma requests_of_rewardItems d items :
  requests_of (flat_map (rewardItemEvents d) items) = [].
Proof.
  induction items as [|i items IH]; first done.
  simpl. rewrite requests_of_app, IH. unfold rewardItemEvents.
  by destruct (parseFloat _).
Qed.

Lemma requests_of_heightItems d items :
  requests_of (flat_map (heightItemEvents d) items) = [].
Proof. induction items as [|i items IH]; done. Qed.

Lemma requests_of_fetchData url body s :
  requests_of (trace_of (fetchData url body s))
  = match url_Parse url with None => [apiRequest url body] | Some _ => [] end.
Proof.
  rewrite fetchData_run. destruct (url_Parse url); first done.
  simpl. destruct (client_Do _ _).1 as [resp|]; last done.
  by destruct (RespBody resp).
Qed.

Lemma requests_of_speedDecoded address durationName r s1 :
  requests_of (trace_of (speedDecoded pushgatewayURL address durationName r s1)) = [].
Proof.
  unfold speedDecoded. cbv zeta.
  repeat case_match; unfold trace_of; simpl;
    rewrite ?requests_of_app, ?requests_of_speedItems; done.
Qed.

Lemma requests_of_rewardDecoded address r s1 :
  requests_of (trace_of (rewardDecoded pushgatewayURL address r s1)) = [].
Proof.
  unfold rewardDecoded. cbv zeta.
  repeat case_match; unfold trace_of; simpl;
    rewrite ?requests_of_app, ?requests_of_rewardItems; done.
Qed.

Lemma requests_of_heightDecoded address r s1 :
  requests_of (trace_of (heightDecoded pushgatewayURL address r s1)) = [].
Proof.
  unfold heightDecoded. cbv zeta.
  repeat case_match; unfold trace_of; simpl;
    rewrite ?requests_of_app, ?requests_of_heightItems; done.
Qed.

Lemma requests_of_blockDecoded r s1 :
  requests_of (trace_of (blockDecoded pushgatewayURL r s1)) = [].
Proof.
  unfold blockDecoded. cbv zeta.
  repeat case_match; unfold trace_of; simpl; done.
Qed.

(** The requests of a fetch function are those of its [fetchData]. *)
Lemma requests_of_fetchProverSpeed address duration durationName s :
  requests_of (trace_of
    (fetchProverSpeed pushgatewayURL apiBaseURL address duration durationName s))
  = requests_of (trace_of
      (fetchData (speedURL apiBaseURL) (speedBody address duration) s)).
Proof.
  rewrite fetchProverSpeed_run.
  destruct (fetchData _ _ s) as [[[[data|err]|e|c] s1] t1]; try done.
  destruct (json_Unmarshal_speed data) as [r|err]; last done.
  pose proof (requests_of_speedDecoded address durationName r s1) as H.
  destruct (speedDecoded _ _ _ _ _) as [[o s2] t2]. unfold trace_of in *. simpl in *.
  by rewrite requests_of_app, H, app_nil_r.
Qed.

Lemma requests_of_fetchProverReward address s :
  requests_of (trace_of (fetchProverReward pushgatewayURL apiBaseURL address s))
  = requests_of (trace_of (fetchData (rewardURL apiBaseURL) (addressBody address) s)).
Proof.
  rewrite fetchProverReward_run.
  destruct (fetchData _ _ s) as [[[[data|err]|e|c] s1] t1]; try done.
  destruct (json_Unmarshal_reward data) as [r|err]; last done.
  pose proof (requests_of_rewardDecoded address r s1) as H.
  destruct (rewardDecoded _ _ _ _) as [[o s2] t2]. unfold trace_of in *. simpl in *.
  by rewrite requests_of_app, H, app_nil_r.
Qed.

Lemma requests_of_fetchProverLatestHeight address s :
  requests_of (trace_of (fetchProverLatestHeight pushgatewayURL apiBaseURL address s))
  = requests_of (trace_of (fetchData (heightURL apiBaseURL) (addressBody address) s)).
Proof.
  rewrite fetchProverLatestHeight_run.
  destruct (fetchData _ _ s) as [[[[data|err]|e|c] s1] t1]; try done.
  destruct (json_Unmarshal_height data) as [r|err]; last done.
  pose proof (requests_of_heightDecoded address r s1) as H.
  destruct (heightDecoded _ _ _ _) as [[o s2] t2]. unfold trace_of in *. simpl in *.
  by rewrite requests_of_app, H, app_nil_r.
Qed.

Lemma requests_of_fetchLatestBlock s :
  requests_of (trace_of (fetchLatestBlock pushgatewayURL apiBaseURL s))
  = requests_of (trace_of (fetchData (blockURL apiBaseURL) "" s)).
Proof.
  rewrite fetchLatestBlock_run.
  destruct (fetchData _ _ s) as [[[[data|err]|e|c] s1] t1]; try done.
  cbv zeta.
  destruct (json_Unmarshal_block data) as [r|err].
  2: { unfold trace_of. simpl. by rewrite requests_of_app, app_nil_r. }
  pose proof (requests_of_blockDecoded r s1) as H.
  destruct (blockDecoded _ _ _) as [[o s2] t2]. unfold trace_of in *. simpl in *.
  by rewrite !requests_of_app, H, !app_nil_r.
Qed.

End Requests.

(** ** Cycles on a healthy server

    The gauges of every call are registered in the default registry of the
    process and never unregistered.  A second call for the same address and
    duration, or a call for a second address with a duration seen before,
    registers a descriptor that is registered already: [MustRegister]
    panics and the process dies. *)

Section HealthyServer.
Import Demo.

Lemma firstCycle_returns :
  firstCycle = (Ret tt, state_of firstCycle, trace_of firstCycle).
Proof. apply run_outcome. vm_compute. reflexivity. Qed.

Lemma secondCycle_panics :
  secondCycle = (Panic errAlreadyRegistered, state_of secondCycle, trace_of secondCycle).
Proof. apply run_outcome. vm_compute. reflexivity. Qed.

Lemma secondCycle_trace :
  trace_of secondCycle
  = [LogPrintln "Fetching data and pushing to Pushgateway";
     LogPrintf "Fetching prover speed for address %s and duration %s"
       [AStr "aleo1"; AStr "15m"];
     HttpDo (speedRequest "aleo1" 900);
     LogPrintf "Response from %s: %s"
       [AStr (apiBaseURL +:+ "/api/v1/provers/prover_speed_list");
        AStr (speedDoc (mkSpeedResult [mkSpeedItem "aleo1" "12.5"] "40"))]].
Proof. vm_compute. reflexivity. Qed.

(** C1, on the code.  One address, a healthy server: the cycle at start-up
    runs to its end, with its seven requests and seven pushes; the cycle of
    the first tick sends its first speed request and panics on registering
    prover_speed again.  Whatever the number of ticks waited for, the
    process has died in the first one. *)
Theorem main_dies_on_first_tick (ticks : nat) :
  main pushgatewayURL apiBaseURL ["aleo1"] (S ticks) (start healthy)
  = (Panic errAlreadyRegistered, state_of secondCycle,
     LogPrintln "Starting prover monitor" :: trace_of firstCycle ++ trace_of secondCycle)
  ∧ outcome_of firstCycle = Ret tt
  ∧ requests_of (trace_of firstCycle) = cycleRequests ["aleo1"]
  ∧ length (pushes_of (trace_of firstCycle)) = 7%nat
  ∧ requests_of (trace_of secondCycle) = [speedRequest "aleo1" 900]
  ∧ pushes_of (trace_of secondCycle) = [].
Proof.
  split.
  { rewrite main_with_addresses. apply run_emit.
    eapply run_bind_Ret; first by apply firstCycle_returns.
    apply run_bind_Panic, secondCycle_panics. }
  split_and!; vm_compute; reflexivity.
Qed.

(** C2, on the code.  Two addresses, a healthy server: the first cycle
    panics when the speed call for the second address registers
    total_speed for a duration the first address registered.  Seven
    requests were sent; the reward and height queries of the second
    address and the latest-block query never are. *)
Theorem second_address_aborts_cycle :
  let run := fetchDataAndPush pushgatewayURL apiBaseURL ["aleo1"; "aleo2"]
               (start healthy) in
  outcome_of run = Panic errAlreadyRegistered
  ∧ requests_of (trace_of run)
    = [speedRequest "aleo1" 900; speedRequest "aleo1" 3600;
       speedRequest "aleo1" 43200; speedRequest "aleo1" 86400;
       rewardRequest "aleo1"; heightRequest "aleo1";
       speedRequest "aleo2" 900]
  ∧ length (cycleRequests ["aleo1"; "aleo2"]) = 13%nat.
Proof. intros run. split_and!; vm_compute; reflexivity. Qed.

(** C6, on the code.  The second cycle starts from the state the first
    one left, faces the same server and so receives the same responses,
    and yet pushes nothing where the first pushed seven times: the
    registry of the process carried state from one cycle to the next. *)
Theorem registry_outlives_cycle :
  server (world (state_of firstCycle)) = healthy
  ∧ outcome_of firstCycle = Ret tt
  ∧ length (pushes_of (trace_of firstCycle)) = 7%nat
  ∧ outcome_of secondCycle = Panic errAlreadyRegistered
  ∧ pushes_of (trace_of secondCycle) = []
  ∧ bool_decide (descID (proverSpeedDesc "aleo1" "15m")
                  ∈ descIDs (DefaultRegisterer (state_of firstCycle))) = true
  ∧ bool_decide (descID (proverSpeedDesc "aleo1" "15m")
                  ∈ descIDs (DefaultRegisterer (start healthy))) = false.
Proof. split_and!; vm_compute; reflexivity. Qed.
End HealthyServer.

(** ** Gauge values and pushes *)

Section Values.
Context `{rt : GoRuntime}.
Variables (pushgatewayURL apiBaseURL : string).

Lemma fetchData_Ok url body s data s1 t1 :
  fetchData url body s = (Ret (Ok data), s1, t1) →
  t1 = [HttpDo (apiRequest url body);
        LogPrintf "Response from %s: %s" [AStr url; AStr data]]
  ∧ DefaultRegisterer s1 = DefaultRegisterer s.
Proof.
  rewrite fetchData_run. destruct (url_Parse url); first done.
  simpl. destruct (client_Do _ _).1 as [resp|]; last done.
  destruct (RespBody resp); last done. by intros [= <- <- <-].
Qed.




Lemma pushes_of_speedItems durationName d items :
  pushes_of (flat_map (speedItemEvents durationName d) items) = [].
Proof.
  induction items as [|i items IH]; first done.
  simpl. rewrite pushes_of_app, IH. unfold speedItemEvents.
  by destruct (parseFloat _).
Qed.

Lemma pushes_of_rewardItems d items :
  pushes_of (flat_map (rewardItemEvents d) items) = [].
Proof.
  induction items as [|i items IH]; first done.
  simpl. rewrite pushes_of_app, IH. unfold rewardItemEvents.
  by destruct (parseFloat _).
Qed.

Lemma pushes_of_heightItems d items :
  pushes_of (flat_map (heightItemEvents d) items) = [].
Proof. induction items as [|i items IH]; done. Qed.

(** A run that starts with a successful [fetchData] and a successful
    decoding, and ends by returning. *)
Lemma speed_decoded_returns address duration durationName s data s1 t1 r o s2 t :
  fetchData (speedURL apiBaseURL) (speedBody address duration) s = (Ret (Ok data), s1, t1) →
  json_Unmarshal_speed data = Ok r →
  fetchProverSpeed pushgatewayURL apiBaseURL address duration durationName s
    = (Ret o, s2, t) →
  ∃ t2, speedDecoded pushgatewayURL address durationName r s1 = (Ret o, s2, t2)
        ∧ t = t1 ++ t2.
Proof.
  intros H1 H2. rewrite fetchProverSpeed_run, H1, H2.
  destruct (speedDecoded _ _ _ _ _) as [[o' s2'] t2]. intros [= -> -> <-]. eauto.
Qed.

Lemma reward_decoded_returns address s data s1 t1 r o s2 t :
  fetchData (rewardURL apiBaseURL) (addressBody address) s = (Ret (Ok data), s1, t1) →
  json_Unmarshal_reward data = Ok r →
  fetchProverReward pushgatewayURL apiBaseURL address s = (Ret o, s2, t) →
  ∃ t2, rewardDecoded pushgatewayURL address r s1 = (Ret o, s2, t2) ∧ t = t1 ++ t2.
Proof.
  intros H1 H2. rewrite fetchProverReward_run, H1, H2.
  destruct (rewardDecoded _ _ _ _) as [[o' s2'] t2]. intros [= -> -> <-]. eauto.
Qed.

Lemma height_decoded_returns address s data s1 t1 r o s2 t :
  fetchData (heightURL apiBaseURL) (addressBody address) s = (Ret (Ok data), s1, t1) →
  json_Unmarshal_height data = Ok r →
  fetchProverLatestHeight pushgatewayURL apiBaseURL address s = (Ret o, s2, t) →
  ∃ t2, heightDecoded pushgatewayURL address r s1 = (Ret o, s2, t2) ∧ t = t1 ++ t2.
Proof.
  intros H1 H2. rewrite fetchProverLatestHeight_run, H1, H2.
  destruct (heightDecoded _ _ _ _) as [[o' s2'] t2]. intros [= -> -> <-]. eauto.
Qed.

Lemma block_decoded_returns s data s1 t1 r o s2 t :
  fetchData (blockURL apiBaseURL) "" s = (Ret (Ok data), s1, t1) →
  json_Unmarshal_block data = Ok r →
  fetchLatestBlock pushgatewayURL apiBaseURL s = (Ret o, s2, t) →
  ∃ t2, blockDecoded pushgatewayURL r s1 = (Ret o, s2, t2)
        ∧ t = (t1 ++ [LogPrintf "Raw response from latest block: %s" [AStr data]]) ++ t2.
Proof.
  intros H1 H2. rewrite fetchLatestBlock_run, H1. cbv zeta. rewrite H2.
  destruct (blockDecoded _ _ _) as [[o' s2'] t2]. intros [= -> -> <-]. eauto.
Qed.





End Values.


(** ** An address that is not UTF-8 *)

Section InvalidAddress.
Context `{rt : GoRuntime}.
Variables (pushgatewayURL apiBaseURL : string).

(** X13.  An address that is not valid UTF-8 makes the first speed call
    whose response decodes panic: the descriptor of prover_speed, which
    has the address as a label value, is invalid, and [MustRegister]
    refuses it before any gauge is set. *)
Theorem invalid_address_panics (address durationName : string) (duration : Z)
    (s s1 : State) (data : string) (t1 : list Event) (r : SpeedResult) :
  utf8_ValidString address = false →
  fetchData (apiBaseURL +:+ "/api/v1/provers/prover_speed_list")
    (speedBody address duration) s = (Ret (Ok data), s1, t1) →
  json_Unmarshal_speed data = Ok r →
  fetchProverSpeed pushgatewayURL apiBaseURL address duration durationName s
  = (Panic errInvalidDesc, s1, t1).
Proof.
  intros Haddr H1 H2. rewrite fetchProverSpeed_run.
  fold (speedURL apiBaseURL) in H1. rewrite H1, H2.
  unfold speedDecoded. cbv zeta.
  assert (Register (desc (NewGauge "prover_speed" "Speed of the prover"
                            [("address", address); ("duration", durationName)]))
            (DefaultRegisterer s1) = Fail errInvalidDesc) as ->.
  { unfold Register, descValid. simpl. by rewrite Haddr. }
  by rewrite app_nil_r.
Qed.
End InvalidAddress.

(** X13 on [Demo]: the address is the single byte FF. *)
Lemma invalid_address_panics_witness :
  outcome_of (fetchProverSpeed Demo.pushgatewayURL Demo.apiBaseURL
                (String (ascii_of_nat 255) "") 900 "15m" (Demo.start Demo.healthy))
  = Panic errInvalidDesc.
Proof.
  assert (outcome_of (fetchData (Demo.apiBaseURL +:+ "/api/v1/provers/prover_speed_list")
                        (speedBody (String (ascii_of_nat 255) "") 900)
                        (Demo.start Demo.healthy))
          = Ret (Ok (Demo.speedDoc (mkSpeedResult [mkSpeedItem "aleo1" "12.5"] "40"))))
    as H1 by (vm_compute; reflexivity).
  assert (json_Unmarshal_speed (GoRuntime := Demo.runtime)
            (Demo.speedDoc (mkSpeedResult [mkSpeedItem "aleo1" "12.5"] "40"))
          = Ok (mkSpeedResult [mkSpeedItem "aleo1" "12.5"] "40"))
    as H2 by (vm_compute; reflexivity).
  by rewrite (invalid_address_panics Demo.pushgatewayURL Demo.apiBaseURL
                (String (ascii_of_nat 255) "") "15m" 900 _ _ _ _ _ eq_refl
                (run_outcome _ _ _ H1) H2).
Defined.

(** ** Parse failures *)

Section ParseFailures.
Context `{rt : GoRuntime}.
Variables (pushgatewayURL apiBaseURL : string).




End ParseFailures.


(** ** What is pushed *)

Section Pushes.
Context `{rt : GoRuntime}.
Variables (pushgatewayURL apiBaseURL : string).

(** C5, as the code has it.  In a call that receives a response, decodes
    it as [r] and returns: [fetchProverSpeed] pushes once, under job
    prover_metrics, prover_speed with the last speed of the list that
    parsed (0 if none did) and total_speed with the parsed total, when the
    total parses, and nothing when it does not; [fetchProverReward] pushes
    total_reward with the last total_reward that parsed (0 if none did);
    [fetchProverLatestHeight] pushes prover_height with the height of the
    last item (0 if there is none), both under job prover_metrics;
    [fetchLatestBlock] pushes latest_block_height, proof_target and
    coinbase_reward under job latest_block_metrics when both strings
    parse, and nothing when one does not. *)
Theorem pushes_after_decoding (address durationName : string) (duration : Z)
    (s : State) :
  let parse (str : string) : option float64 :=
    match strconv_ParseFloat str 64 with Ok v => Some v | Fail _ => None end in
  (∀ data s1 t1 r o s2 t,
     fetchData (apiBaseURL +:+ "/api/v1/provers/prover_speed_list")
       (speedBody address duration) s = (Ret (Ok data), s1, t1) →
     json_Unmarshal_speed data = Ok r →
     fetchProverSpeed pushgatewayURL apiBaseURL address duration durationName s
       = (Ret o, s2, t) →
     pushes_of t
     = match parse (sp_Total r) with
       | Some total =>
           [mkPushRequest pushgatewayURL "prover_metrics"
              [mkGauge (proverSpeedDesc address durationName)
                 (default 0%float (last (omap (λ i, parse (si_Speed i)) (sp_List r))));
               mkGauge (totalSpeedDesc durationName) total]]
       | None => []
       end)
  ∧ (∀ data s1 t1 r o s2 t,
       fetchData (apiBaseURL +:+ "/api/v1/provers/prover_reward_list")
         (addressBody address) s = (Ret (Ok data), s1, t1) →
       json_Unmarshal_reward data = Ok r →
       fetchProverReward pushgatewayURL apiBaseURL address s = (Ret o, s2, t) →
       pushes_of t
       = [mkPushRequest pushgatewayURL "prover_metrics"
            [mkGauge (totalRewardDesc address)
               (default 0%float
                  (last (omap (λ i, parse (ri_TotalReward i)) (rw_List r))))]])
  ∧ (∀ data s1 t1 r o s2 t,
       fetchData (apiBaseURL +:+ "/api/v1/provers/prover_latest_height")
         (addressBody address) s = (Ret (Ok data), s1, t1) →
       json_Unmarshal_height data = Ok r →
       fetchProverLatestHeight pushgatewayURL apiBaseURL address s = (Ret o, s2, t) →
       pushes_of t
       = [mkPushRequest pushgatewayURL "prover_metrics"
            [mkGauge (proverHeightDesc address)
               (default 0%float (last (map (λ i, float64_of_int (hi_Height i)) r)))]])
  ∧ (∀ data s1 t1 r o s2 t,
       fetchData (apiBaseURL +:+ "/api/v1/chain/latest_block") "" s
         = (Ret (Ok data), s1, t1) →
       json_Unmarshal_block data = Ok r →
       fetchLatestBlock pushgatewayURL apiBaseURL s = (Ret o, s2, t) →
       pushes_of t
       = match parse (bl_ProofTarget r), parse (bl_CoinbaseReward r) with
         | Some target, Some reward =>
             [mkPushRequest pushgatewayURL "latest_block_metrics"
                [mkGauge latestBlockHeightDesc (float64_of_int (bl_Height r));
                 mkGauge proofTargetDesc target;
                 mkGauge coinbaseRewardDesc reward]]
         | _, _ => []
         end).
Proof.
  intros parse. change parse with parsed. clear parse. split_and!.
  - intros data s1 t1 r o s2 t H1 H2 H3.
    destruct (speed_decoded_returns _ _ _ _ _ _ _ _ _ _ _ _ _ H1 H2 H3) as (t2 & Hd & ->).
    apply fetchData_Ok in H1 as [-> _].
    unfold speedDecoded in Hd. cbv zeta in Hd. unfold parsed at 1.
    repeat case_match; simplify_eq;
      rewrite !pushes_of_app, pushes_of_speedItems; done.
  - intros data s1 t1 r o s2 t H1 H2 H3.
    destruct (reward_decoded_returns _ _ _ _ _ _ _ _ _ _ _ H1 H2 H3) as (t2 & Hd & ->).
    apply fetchData_Ok in H1 as [-> _].
    unfold rewardDecoded in Hd. cbv zeta in Hd.
    repeat case_match; simplify_eq;
      rewrite !pushes_of_app, pushes_of_rewardItems; done.
  - intros data s1 t1 r o s2 t H1 H2 H3.
    destruct (height_decoded_returns _ _ _ _ _ _ _ _ _ _ _ H1 H2 H3) as (t2 & Hd & ->).
    apply fetchData_Ok in H1 as [-> _].
    unfold heightDecoded in Hd. cbv zeta in Hd.
    repeat case_match; simplify_eq;
      rewrite !pushes_of_app, pushes_of_heightItems; done.
  - intros data s1 t1 r o s2 t H1 H2 H3.
    destruct (block_decoded_returns _ _ _ _ _ _ _ _ _ _ H1 H2 H3) as (t2 & Hd & ->).
    apply fetchData_Ok in H1 as [-> _].
    unfold blockDecoded in Hd. cbv zeta in Hd. unfold parsed.
    repeat case_match; simplify_eq; done.
Qed.
End Pushes.

(** C5 on [Demo]: the reward call on a healthy server pushes the reward it
    parsed, under job prover_metrics. *)
Lemma pushes_after_decoding_witness :
  pushes_of (trace_of (fetchProverReward Demo.pushgatewayURL Demo.apiBaseURL "aleo1"
                         (Demo.start Demo.healthy)))
  = [mkPushRequest Demo.pushgatewayURL "prover_metrics"
       [mkGauge (totalRewardDesc "aleo1") 300%float]].
Proof.
  pose proof (pushes_after_decoding Demo.pushgatewayURL Demo.apiBaseURL
                "aleo1" "15m" 900 (Demo.start Demo.healthy)) as (_ & Hreward & _).
  assert (outcome_of (fetchData (Demo.apiBaseURL +:+ "/api/v1/provers/prover_reward_list")
                        (addressBody "aleo1") (Demo.start Demo.healthy))
          = Ret (Ok (Demo.rewardDoc (mkRewardResult [mkRewardItem "aleo1" "300"] "300"))))
    as H1 by (vm_compute; reflexivity).
  assert (json_Unmarshal_reward (GoRuntime := Demo.runtime)
            (Demo.rewardDoc (mkRewardResult [mkRewardItem "aleo1" "300"] "300"))
          = Ok (mkRewardResult [mkRewardItem "aleo1" "300"] "300"))
    as H2 by (vm_compute; reflexivity).
  assert (outcome_of (fetchProverReward Demo.pushgatewayURL Demo.apiBaseURL "aleo1"
                        (Demo.start Demo.healthy)) = Ret None)
    as H3 by (vm_compute; reflexivity).
  rewrite (Hreward _ _ _ _ _ _ _ (run_outcome _ _ _ H1) H2 (run_outcome _ _ _ H3)).
  vm_compute; reflexivity.
Defined.

(** C5 as stated fails on two counts.  A speed response whose total does
    not parse: the call sets prover_speed to the speed it parsed, returns
    nil and pushes nothing.  A reward response with two items: both
    rewards are parsed and set, and only the second is pushed. *)
Lemma parsed_value_not_pushed :
  let srv := Demo.mkServer
    (Demo.answer 200 (Demo.speedDoc (mkSpeedResult [mkSpeedItem "aleo1" "12.5"] "n/a")))
    (Demo.answer 200 (Demo.rewardDoc
       (mkRewardResult [mkRewardItem "aleo1" "300"; mkRewardItem "aleo1" "25"] "325")))
    Demo.notFound Demo.notFound in
  let speed := fetchProverSpeed Demo.pushgatewayURL Demo.apiBaseURL "aleo1" 900 "15m"
                 (Demo.start srv) in
  let reward := fetchProverReward Demo.pushgatewayURL Demo.apiBaseURL "aleo1"
                  (Demo.start srv) in
  (outcome_of speed = Ret None
   ∧ sets_of (trace_of speed) = [(proverSpeedDesc "aleo1" "15m", 12.5%float)]
   ∧ pushes_of (trace_of speed) = [])
  ∧ (outcome_of reward = Ret None
     ∧ sets_of (trace_of reward)
       = [(totalRewardDesc "aleo1", 300%float); (totalRewardDesc "aleo1", 25%float)]
     ∧ pushes_of (trace_of reward)
       = [mkPushRequest Demo.pushgatewayURL "prover_metrics"
            [mkGauge (totalRewardDesc "aleo1") 25%float]]).
Proof. vm_compute. done. Qed.

(** ** Request bodies as JSON *)

Lemma append_cons (c : ascii) (s1 s2 : string) :
  String c s1 +:+ s2 = String c (s1 +:+ s2).
Proof. reflexivity. Qed.

Lemma append_empty (s : string) : "" +:+ s = s.
Proof. reflexivity. Qed.

Lemma append_assoc (s1 s2 s3 : string) : (s1 +:+ s2) +:+ s3 = s1 +:+ (s2 +:+ s3).
Proof.
  induction s1 as [|c s1 IH]; first done.
  by rewrite !append_cons, IH.
Qed.

Lemma all_bytes_cons p c s : all_bytes p (String c s) = p c && all_bytes p s.
Proof. reflexivity. Qed.

(** A string of plain bytes is read up to the quote that follows it. *)
Lemma scan_string_plain (a rest : string) :
  all_bytes jsonPlain a = true →
  scan_string (a +:+ String (ascii_of_nat 34) rest) = Some rest.
Proof.
  induction a as [|c a IH]; first done.
  rewrite all_bytes_cons. intros [Hc Ha]%andb_prop. rewrite append_cons. simpl.
  unfold jsonPlain in Hc. apply negb_true_iff in Hc.
  apply orb_false_elim in Hc as [[H1 H2]%orb_false_elim H3].
  rewrite H1, H2, H3. by apply IH.
Qed.

(** [json.Marshal] copies a string of safe bytes as it is. *)
Lemma appendString_safe (a : string) :
  all_bytes htmlSafe a = true → appendString 0 0 a = a.
Proof.
  induction a as [|c a IH]; first done.
  rewrite all_bytes_cons. intros [Hc Ha]%andb_prop. simpl.
  rewrite Hc, IH by done.
  unfold htmlSafe in Hc. apply andb_prop in Hc as [Hc _].
  unfold byte_in in *. apply andb_prop in Hc as [_ Hc]. by rewrite Hc.
Qed.

Lemma scan_addressArray (fuel : nat) (address rest : string) :
  all_bytes jsonPlain address = true →
  scan_value (S (S (S fuel))) (addressArray address rest) = Some rest.
Proof.
  intros Ha. unfold addressArray, dquote. rewrite !append_cons, !append_empty.
  simpl. by rewrite scan_string_plain.
Qed.

Lemma addressBody_shape (address : string) :
  addressBody address = "{" +:+ quoted "address" +:+ ":" +:+ addressArray address "}".
Proof.
  unfold addressBody, addressArray, quoted, dquote.
  by rewrite !append_assoc, !append_cons, !append_empty.
Qed.

Lemma speedBody_shape (address : string) (duration : Z) :
  speedBody address duration
  = "{" +:+ quoted "address" +:+ ":"
    +:+ addressArray address ("," +:+ quoted "duration" +:+ ":" +:+ fmt_d duration +:+ "}").
Proof.
  unfold speedBody, addressArray, quoted, dquote.
  by rewrite !append_assoc, !append_cons, !append_empty.
Qed.

(** An object whose only member is address. *)
Lemma scan_addressObject (fuel : nat) (arr rest : string) :
  scan_value fuel arr = Some ("}" +:+ rest) →
  scan_value (S (S fuel)) ("{" +:+ quoted "address" +:+ ":" +:+ arr) = Some rest.
Proof.
  intros H. unfold quoted, dquote. rewrite !append_cons, !append_empty in *.
  simpl. by rewrite H.
Qed.

(** An object with the members address and duration, the duration being
    one of those the program asks for. *)
Lemma scan_speedObject (fuel f : nat) (arr : string) (durationName : string)
    (duration : Z) :
  (durationName, duration) ∈ durations →
  f = S (S fuel) →
  scan_value f arr = Some ("," +:+ quoted "duration" +:+ ":" +:+ fmt_d duration +:+ "}") →
  scan_value (S (S f)) ("{" +:+ quoted "address" +:+ ":" +:+ arr) = Some "".
Proof.
  intros Hd Hf H. unfold quoted, dquote. rewrite !append_cons, !append_empty.
  simpl. rewrite H. subst f.
  unfold durations in Hd. rewrite !elem_of_cons, elem_of_nil in Hd.
  destruct Hd as [[= -> ->]|[[= -> ->]|[[= -> ->]|[[= -> ->]|[]]]]]; reflexivity.
Qed.

Lemma addressObject_length (arr : string) :
  String.length ("{" +:+ quoted "address" +:+ ":" +:+ arr)
  = S (S (S (S (S (6 + String.length arr))))).
Proof. reflexivity. Qed.

Lemma json_Valid_addressBody (address : string) :
  all_bytes jsonPlain address = true → json_Valid (addressBody address) = true.
Proof.
  intros Ha. unfold json_Valid.
  rewrite addressBody_shape, addressObject_length.
  erewrite scan_addressObject; last by apply scan_addressArray.
  done.
Qed.

Lemma json_Valid_speedBody (address durationName : string) (duration : Z) :
  (durationName, duration) ∈ durations →
  all_bytes jsonPlain address = true →
  json_Valid (speedBody address duration) = true.
Proof.
  intros Hd Ha. unfold json_Valid.
  rewrite speedBody_shape, addressObject_length.
  erewrite scan_speedObject; [done | exact Hd | reflexivity |].
  by apply scan_addressArray.
Qed.

Lemma toJSON_addressPayload (address : string) :
  toJSON (addressPayload address)
  = "{" +:+ quoted "address" +:+ ":[" +:+ quoted (appendString 0 0 address) +:+ "]}".
Proof.
  unfold addressPayload, toJSON, quoted, dquote. cbn [map String.concat fst snd].
  change (appendString 0 0 "address") with "address".
  by rewrite !append_assoc, !append_cons, !append_empty.
Qed.

Lemma toJSON_speedPayload (address : string) (duration : Z) :
  toJSON (speedPayload address duration)
  = "{" +:+ quoted "address" +:+ ":[" +:+ quoted (appendString 0 0 address) +:+ "],"
    +:+ quoted "duration" +:+ ":" +:+ fmt_d duration +:+ "}".
Proof.
  unfold speedPayload, toJSON, quoted, dquote. cbn [map String.concat fst snd].
  change (appendString 0 0 "address") with "address".
  change (appendString 0 0 "duration") with "duration".
  by rewrite !append_assoc, !append_cons, !append_empty.
Qed.

(** C10, as the code has it.  The bodies of the per-address endpoints are
    the address between quotes inside a fixed text.  When the address has
    no control character, no double quote and no backslash, the bodies are
    well-formed JSON (for the speed endpoint, with each duration of the
    program).  When moreover the address is ASCII and has none of the
    characters that [json.Marshal] also escapes, the bodies are the
    encodings [toJSON] gives of the payloads. *)
Theorem bodies_are_json (address : string) :
  (all_bytes jsonPlain address = true →
     json_Valid (addressBody address) = true
     ∧ ∀ durationName duration,
         (durationName, duration) ∈ durations →
         json_Valid (speedBody address duration) = true)
  ∧ (all_bytes htmlSafe address = true →
       addressBody address = toJSON (addressPayload address)
       ∧ ∀ duration, speedBody address duration = toJSON (speedPayload address duration)).
Proof.
  split.
  - intros Ha. split; first by apply json_Valid_addressBody.
    intros durationName duration Hd. by eapply json_Valid_speedBody.
  - intros Ha. split.
    + by rewrite toJSON_addressPayload, appendString_safe.
    + intros duration. by rewrite toJSON_speedPayload, appendString_safe.
Qed.

(** C10 on the address aleo1. *)
Lemma bodies_are_json_witness :
  (json_Valid (addressBody "aleo1") = true
   ∧ ∀ durationName duration,
       (durationName, duration) ∈ durations →
       json_Valid (speedBody "aleo1" duration) = true)
  ∧ (addressBody "aleo1" = toJSON (addressPayload "aleo1")
     ∧ ∀ duration, speedBody "aleo1" duration = toJSON (speedPayload "aleo1" duration)).
Proof.
  split.
  - exact (proj1 (bodies_are_json "aleo1") eq_refl).
  - exact (proj2 (bodies_are_json "aleo1") eq_refl).
Defined.

(** C10 as stated fails in both halves.  An address with double quotes in
    it, which require escaping, gives a well-formed body all the same: the
    array then holds two strings.  An address made of the character <,
    which requires no escaping, gives a body that is not the encoding
    [toJSON] produces, since [json.Marshal] writes that character as an
    escape. *)
Lemma quoted_address_is_well_formed :
  let injected := "a" +:+ dquote +:+ "," +:+ dquote +:+ "b" in
  (all_bytes jsonPlain injected = false
   ∧ json_Valid (addressBody injected) = true
   ∧ addressBody injected
     = "{" +:+ quoted "address" +:+ ":[" +:+ quoted "a" +:+ "," +:+ quoted "b" +:+ "]}")
  ∧ (all_bytes jsonPlain "<" = true
     ∧ json_Valid (addressBody "<") = true
     ∧ toJSON (addressPayload "<")
       = "{" +:+ quoted "address" +:+ ":[" +:+ quoted (backslash "u003c") +:+ "]}"
     ∧ bool_decide (addressBody "<" = toJSON (addressPayload "<")) = false).
Proof. vm_compute. done. Qed.

(** ** The registry across calls and cycles

    Here the runtime is any runtime, and the world any world that keeps
    [alive]: the speed endpoint answers every request with some status and
    a body that decodes.  No other assumption is made on the API, on the
    Pushgateway or on the order of [range]. *)

Section Persistence.
Context `{rt : GoRuntime}.
Variables (pushgatewayURL apiBaseURL : string).

Variable alive : Ext → Prop.
Hypothesis serving : Serving apiBaseURL alive.

Lemma kept_refl {A} (s : State) (o : Outcome A) (t : list Event) :
  alive (world s) → (∀ c, o ≠ Exit c) → kept alive s o s t.
Proof. by intros; split_and!. Qed.

Lemma kept_bind {A B} (m : M A) (k : A → M B) (s : State) :
  wp m s (kept alive s) →
  (∀ a s1, alive (world s1) → wp (k a) s1 (kept alive s1)) →
  wp (m ≫= k) s (kept alive s).
Proof.
  intros Hm Hk. apply wp_bind. eapply wp_mono; first exact Hm.
  intros [a|e|c] s1 t1 (Ha & Hsub & Hex); [|by split_and!|by destruct (Hex c)].
  eapply wp_mono; first by apply Hk.
  intros o s2 t2 (Ha2 & Hsub2 & Hex2). split_and!; try done. set_solver.
Qed.

Lemma kept_emit {B} (e : Event) (k : M B) (s : State) :
  wp k s (kept alive s) → wp (emit e;; k) s (kept alive s).
Proof. intros H. apply wp_emit. by eapply wp_mono. Qed.

Lemma kept_ret {A} (a : A) (s : State) : alive (world s) → wp (mret a) s (kept alive s).
Proof. intros H. apply wp_ret. by apply kept_refl. Qed.

Lemma kept_fetchData (url body : string) (s : State) :
  alive (world s) → wp (fetchData url body) s (kept alive s).
Proof.
  intros Ha. unfold wp. rewrite fetchData_run.
  destruct (url_Parse url); first by apply kept_refl.
  cbv zeta. pose proof (serving_do serving _ (apiRequest url body) Ha) as Ha'.
  destruct (client_Do _ _).1 as [resp|]; last by split_and!.
  destruct (RespBody resp); by split_and!.
Qed.

Lemma kept_Register {A} (d : Desc) (s : State) (r : Registry) (o : Outcome A)
    (w : Ext) (t : list Event) :
  Register d (DefaultRegisterer s) = Ok r →
  alive w → (∀ c, o ≠ Exit c) →
  kept alive s o (mkState r w) t.
Proof.
  intros Hr Ha Ho. split_and!; try done.
  simpl. rewrite (Register_Ok_descIDs _ _ _ Hr). set_solver.
Qed.

Lemma kept_trans {A B} (s s1 s2 : State) (a : A) (o : Outcome B) (t1 t2 t : list Event) :
  kept alive s (Ret a) s1 t1 → kept alive s1 o s2 t2 → kept alive s o s2 t.
Proof. intros (_ & H1 & _) (Ha & H2 & Ho). split_and!; try done. set_solver. Qed.

Ltac kept_cases :=
  repeat case_match; simplify_eq;
  repeat match goal with
         | H : Register _ _ = Ok _ |- _ => apply Register_Ok_descIDs in H
         end;
  (split_and!;
   [ simpl; first [assumption | by apply (serving_push serving)]
   | simpl in *; set_solver | done ]).

Lemma kept_speedDecoded address durationName r (s1 : State) :
  alive (world s1) →
  wp (λ s, speedDecoded pushgatewayURL address durationName r s) s1 (kept alive s1).
Proof. intros Ha. unfold wp, speedDecoded. cbv zeta. kept_cases. Qed.

Lemma kept_rewardDecoded address r (s1 : State) :
  alive (world s1) → wp (λ s, rewardDecoded pushgatewayURL address r s) s1 (kept alive s1).
Proof. intros Ha. unfold wp, rewardDecoded. cbv zeta. kept_cases. Qed.

Lemma kept_heightDecoded address r (s1 : State) :
  alive (world s1) → wp (λ s, heightDecoded pushgatewayURL address r s) s1 (kept alive s1).
Proof. intros Ha. unfold wp, heightDecoded. cbv zeta. kept_cases. Qed.

Lemma kept_blockDecoded r (s1 : State) :
  alive (world s1) → wp (λ s, blockDecoded pushgatewayURL r s) s1 (kept alive s1).
Proof. intros Ha. unfold wp, blockDecoded. cbv zeta. kept_cases. Qed.

Lemma kept_after_fetchData {B} (url body : string) (s : State)
    (f : Outcome (result string) * State * list Event → Outcome B * State * list Event) :
  alive (world s) →
  (∀ r s1 t1, alive (world s1) →
     DefaultRegisterer s1 = DefaultRegisterer s →
     kept alive s1 (outcome_of (f (Ret r, s1, t1))) (state_of (f (Ret r, s1, t1)))
       (trace_of (f (Ret r, s1, t1)))) →
  kept alive s (outcome_of (f (fetchData url body s))) (state_of (f (fetchData url body s)))
    (trace_of (f (fetchData url body s))).
Proof.
  intros Ha Hf.
  destruct (fetchData_returns url body s) as (r & w & t & Hrun).
  pose proof (kept_fetchData url body s Ha) as Hk. unfold wp in Hk.
  rewrite Hrun in *. destruct Hk as (Ha1 & _ & _).
  destruct (Hf r _ t Ha1 eq_refl) as (H1 & H2 & H3). by split_and!.
Qed.

Lemma kept_fetchProverSpeed address duration durationName (s : State) :
  alive (world s) →
  wp (fetchProverSpeed pushgatewayURL apiBaseURL address duration durationName) s (kept alive s).
Proof.
  intros Ha. unfold wp. rewrite fetchProverSpeed_run.
  apply (kept_after_fetchData _ _ _
           (λ x, match x with
                 | (Ret (Ok data), s1, t1) =>
                     match json_Unmarshal_speed data with
                     | Fail err =>
                         (Ret (Some (Wrapf "could not unmarshal prover speed response" err)),
                          s1, t1)
                     | Ok r =>
                         let '(o, s2, t2) :=
                           speedDecoded pushgatewayURL address durationName r s1
                         in (o, s2, t1 ++ t2)
                     end
                 | (Ret (Fail err), s1, t1) => (Ret (Some err), s1, t1)
                 | (Panic e, s1, t1) => (Panic e, s1, t1)
                 | (Exit c, s1, t1) => (Exit c, s1, t1)
                 end)); first done.
  intros [data|err] s1 t1 Ha1 _; last by apply kept_refl.
  destruct (json_Unmarshal_speed data) as [r|err]; last by apply kept_refl.
  pose proof (kept_speedDecoded address durationName r s1 Ha1) as Hk. unfold wp in Hk.
  by destruct (speedDecoded _ _ _ _ _) as [[o s2] t2].
Qed.

Lemma kept_fetchProverReward address (s : State) :
  alive (world s) →
  wp (fetchProverReward pushgatewayURL apiBaseURL address) s (kept alive s).
Proof.
  intros Ha. unfold wp. rewrite fetchProverReward_run.
  apply (kept_after_fetchData _ _ _
           (λ x, match x with
                 | (Ret (Ok data), s1, t1) =>
                     match json_Unmarshal_reward data with
                     | Fail err =>
                         (Ret (Some (Wrapf "could not unmarshal prover reward response" err)),
                          s1, t1)
                     | Ok r =>
                         let '(o, s2, t2) := rewardDecoded pushgatewayURL address r s1
                         in (o, s2, t1 ++ t2)
                     end
                 | (Ret (Fail err), s1, t1) => (Ret (Some err), s1, t1)
                 | (Panic e, s1, t1) => (Panic e, s1, t1)
                 | (Exit c, s1, t1) => (Exit c, s1, t1)
                 end)); first done.
  intros [data|err] s1 t1 Ha1 _; last by apply kept_refl.
  destruct (json_Unmarshal_reward data) as [r|err]; last by apply kept_refl.
  pose proof (kept_rewardDecoded address r s1 Ha1) as Hk. unfold wp in Hk.
  by destruct (rewardDecoded _ _ _ _) as [[o s2] t2].
Qed.

Lemma kept_fetchProverLatestHeight address (s : State) :
  alive (world s) →
  wp (fetchProverLatestHeight pushgatewayURL apiBaseURL address) s (kept alive s).
Proof.
  intros Ha. unfold wp. rewrite fetchProverLatestHeight_run.
  apply (kept_after_fetchData _ _ _
           (λ x, match x with
                 | (Ret (Ok data), s1, t1) =>
                     match json_Unmarshal_height data with
                     | Fail err =>
                         (Ret (Some (Wrapf
                                 "could not unmarshal prover latest height response" err)),
                          s1, t1)
                     | Ok r =>
                         let '(o, s2, t2) := heightDecoded pushgatewayURL address r s1
                         in (o, s2, t1 ++ t2)
                     end
                 | (Ret (Fail err), s1, t1) => (Ret (Some err), s1, t1)
                 | (Panic e, s1, t1) => (Panic e, s1, t1)
                 | (Exit c, s1, t1) => (Exit c, s1, t1)
                 end)); first done.
  intros [data|err] s1 t1 Ha1 _; last by apply kept_refl.
  destruct (json_Unmarshal_height data) as [r|err]; last by apply kept_refl.
  pose proof (kept_heightDecoded address r s1 Ha1) as Hk. unfold wp in Hk.
  by destruct (heightDecoded _ _ _ _) as [[o s2] t2].
Qed.

Lemma kept_fetchLatestBlock (s : State) :
  alive (world s) → wp (fetchLatestBlock pushgatewayURL apiBaseURL) s (kept alive s).
Proof.
  intros Ha. unfold wp. rewrite fetchLatestBlock_run.
  apply (kept_after_fetchData _ _ _
           (λ x, match x with
                 | (Ret (Ok data), s1, t1) =>
                     let t1 := t1 ++ [LogPrintf "Raw response from latest block: %s"
                                        [AStr data]] in
                     match json_Unmarshal_block data with
                     | Fail err =>
                         (Ret (Some (Wrapf "could not unmarshal latest block response" err)),
                          s1, t1)
                     | Ok r =>
                         let '(o, s2, t2) := blockDecoded pushgatewayURL r s1
                         in (o, s2, t1 ++ t2)
                     end
                 | (Ret (Fail err), s1, t1) => (Ret (Some err), s1, t1)
                 | (Panic e, s1, t1) => (Panic e, s1, t1)
                 | (Exit c, s1, t1) => (Exit c, s1, t1)
                 end)); first done.
  intros [data|err] s1 t1 Ha1 _; last by apply kept_refl.
  cbv zeta.
  destruct (json_Unmarshal_block data) as [r|err]; last by apply kept_refl.
  pose proof (kept_blockDecoded r s1 Ha1) as Hk. unfold wp in Hk.
  by destruct (blockDecoded _ _ _) as [[o s2] t2].
Qed.

(** A speed call in a living world gets as far as the registration of
    total_speed: it panics if that gauge is registered already, and if it
    returns, the gauge is registered. *)
Lemma fetchProverSpeed_registers address duration durationName (s : State) :
  alive (world s) →
  wp (fetchProverSpeed pushgatewayURL apiBaseURL address duration durationName) s
    (λ o s' t,
       (registered (totalSpeedDesc durationName) s → ∃ e, o = Panic e)
       ∧ ((∃ x, o = Ret x) → registered (totalSpeedDesc durationName) s')).
Proof.
  intros Ha. unfold wp. rewrite fetchProverSpeed_run, fetchData_run.
  rewrite (serving_url serving). cbv zeta.
  destruct (serving_speed serving _ address duration Ha) as (code & data & r & -> & Hr).
  cbn [RespBody]. rewrite Hr. unfold speedDecoded. cbv zeta.
  change (desc (NewGauge "total_speed" "Total speed" [("duration", durationName)]))
    with (totalSpeedDesc durationName).
  cbn [DefaultRegisterer]. unfold registered.
  destruct (Register _ (DefaultRegisterer s)) as [r1|e] eqn:H1.
  2: { unfold outcome_of. simpl. split; first by eauto. by intros [? [=]]. }
  apply Register_Ok_descIDs in H1.
  destruct (Register (totalSpeedDesc durationName) r1) as [r2|e] eqn:H2.
  2: { unfold outcome_of. simpl. split; first by eauto. by intros [? [=]]. }
  assert (descID (totalSpeedDesc durationName) ∉ descIDs r1) as Hnot.
  { intros Hin. destruct (Register_again _ _ Hin) as [e He]. congruence. }
  apply Register_Ok_descIDs in H2.
  destruct (parseFloat (sp_Total r)); unfold outcome_of, state_of; simpl.
  - split; [intros Hin; set_solver | intros _; set_solver].
  - split; [intros Hin; set_solver | intros _; set_solver].
Qed.

Lemma wp_conj {A} (m : M A) (s : State) (Q1 Q2 : Outcome A → State → list Event → Prop) :
  wp m s Q1 → wp m s Q2 → wp m s (λ o s' t, Q1 o s' t ∧ Q2 o s' t).
Proof. unfold wp. auto. Qed.

Lemma wp_with_world {A B} (f : Ext → A * Ext) (k : A → M B) (s : State)
    (Q : Outcome B → State → list Event → Prop) :
  wp (k (f (world s)).1) (mkState (DefaultRegisterer s) (f (world s)).2) Q →
  wp (with_world f ≫= k) s Q.
Proof.
  intros H. eapply (wp_bind_eq _ _ s _ _ []); last exact H.
  unfold with_world. by destruct (f (world s)).
Qed.

(** The log line after a call that returned an error keeps everything. *)
Lemma kept_log_error {B} (err : option error) (format : string) (args : error → list Arg)
    (k : M B) (s : State) :
  wp k s (kept alive s) →
  wp (match err with
      | Some e => log_Printf format (args e)
      | None => mret tt
      end;; k) s (kept alive s).
Proof.
  intros Hk. destruct err as [e|].
  - by apply kept_emit.
  - apply wp_bind, wp_ret. exact Hk.
Qed.

Lemma durationLoop_registers address ds (s : State) :
  alive (world s) →
  wp (durationLoop pushgatewayURL apiBaseURL address ds) s (after_durations alive ds s).
Proof.
  revert s. induction ds as [|[dn d] rest IH]; intros s Ha.
  { apply wp_ret. split_and!.
    - by apply kept_refl.
    - intros _ dn d Hin. by apply elem_of_nil in Hin.
    - by intros dn d rest [=]. }
  simpl durationLoop. apply wp_log_Printf, wp_bind.
  eapply wp_mono.
  { apply wp_conj;
      [by apply kept_fetchProverSpeed | by apply fetchProverSpeed_registers]. }
  intros [err|e|c] s1 t1 [Hk [Hpanic Hreg]].
  - assert (alive (world s1)) as Ha1 by apply Hk.
    assert (wp (match err with
                | Some err0 =>
                    log_Printf
                      "Error fetching prover speed for address %s and duration %s: %v"
                      [AStr address; AStr dn; AErr err0]
                | None => mret tt
                end;; durationLoop pushgatewayURL apiBaseURL address rest) s1
               (after_durations alive rest s1)) as Hrest.
    { destruct err as [err|].
      - apply wp_log_Printf. eapply wp_mono; first by apply IH. done.
      - apply wp_bind, wp_ret. eapply wp_mono; first by apply IH. done. }
    eapply wp_mono; first exact Hrest.
    intros o2 s2 t2 (Hk2 & Hreg2 & _). split_and!.
    + by eapply kept_trans.
    + intros Hret dn' d' [[= -> ->]|Hin]%elem_of_cons.
      * assert (registered (totalSpeedDesc dn) s1) as H1 by eauto.
        destruct Hk2 as (_ & Hsub & _). unfold registered in *. set_solver.
      * by eapply Hreg2.
    + intros dn' d' rest' [= -> -> ->] Hin. by destruct (Hpanic Hin) as [? [=]].
  - split_and!.
    + destruct Hk as (? & ? & ?). by split_and!.
    + by intros [? [=]].
    + eauto.
  - destruct Hk as (_ & _ & Hex). by destruct (Hex c).
Qed.

(** The loop over the addresses keeps what every computation keeps. *)
Lemma kept_addressLoop addrs (s : State) :
  alive (world s) → wp (addressLoop pushgatewayURL apiBaseURL addrs) s (kept alive s).
Proof.
  revert s. induction addrs as [|address rest IH]; intros s Ha.
  { by apply kept_ret. }
  simpl addressLoop. apply wp_with_world.
  assert (alive (map_range durations (world s)).2) as Ha0
    by by apply (serving_range serving).
  set (s0 := mkState (DefaultRegisterer s) (map_range durations (world s)).2).
  assert (∀ (m : M unit), wp m s0 (kept alive s0) → wp m s0 (kept alive s)) as Hs0.
  { intros m Hm. eapply wp_mono; first exact Hm. by intros o s' t (? & ? & ?). }
  apply Hs0. apply kept_bind.
  { eapply wp_mono; first by apply durationLoop_registers. by intros o s' t [? _]. }
  intros _ s1 Ha1. apply kept_emit, kept_bind; first by apply kept_fetchProverReward.
  intros err s2 Ha2. apply kept_log_error.
  apply kept_emit, kept_bind; first by apply kept_fetchProverLatestHeight.
  intros err' s3 Ha3. apply kept_log_error. by apply IH.
Qed.

Lemma addressLoop_registers address rest (s : State) :
  alive (world s) →
  wp (addressLoop pushgatewayURL apiBaseURL (address :: rest)) s (after_cycle alive s).
Proof.
  intros Ha. simpl addressLoop. apply wp_with_world.
  assert (alive (map_range durations (world s)).2) as Ha0
    by by apply (serving_range serving).
  pose proof (map_range_perm durations (world s)) as Hperm.
  set (ds := (map_range durations (world s)).1) in *.
  set (s0 := mkState (DefaultRegisterer s) (map_range durations (world s)).2).
  apply wp_bind. eapply wp_mono; first by apply (durationLoop_registers address ds s0).
  intros [[]|e|c] s1 t1 (Hk & Hreg & Hpanic).
  - assert (alive (world s1)) as Ha1 by apply Hk.
    eapply wp_mono.
    { apply kept_emit, kept_bind; first by apply kept_fetchProverReward.
      intros err s2 Ha2. apply kept_log_error.
      apply kept_emit, kept_bind; first by apply kept_fetchProverLatestHeight.
      intros err' s3 Ha3. apply kept_log_error. by apply kept_addressLoop. }
    intros o2 s2 t2 Hk2. split_and!.
    + destruct Hk as (_ & Hs & _), Hk2 as (? & Hs2 & ?). split_and!; try done.
      simpl in Hs. set_solver.
    + intros _ dn d Hin. assert ((dn, d) ∈ ds) as Hds by by rewrite Hperm.
      assert (registered (totalSpeedDesc dn) s1) as H1 by eauto.
      destruct Hk2 as (_ & Hsub & _). unfold registered in *. set_solver.
    + intros Hall. destruct ds as [|[dn d] ds'] eqn:Hds.
      { apply Permutation_nil_l in Hperm. discriminate. }
      assert ((dn, d) ∈ durations) as Hin by (rewrite <- Hperm; left).
      by destruct (Hpanic dn d ds' eq_refl (Hall dn d Hin)) as [? [=]].
  - split_and!.
    + destruct Hk as (? & ? & ?). by split_and!.
    + by intros [? [=]].
    + eauto.
  - destruct Hk as (_ & _ & Hex). by destruct (Hex c).
Qed.

Lemma fetchDataAndPush_registers address rest (s : State) :
  alive (world s) →
  wp (fetchDataAndPush pushgatewayURL apiBaseURL (address :: rest)) s
    (after_cycle alive s).
Proof.
  intros Ha. unfold fetchDataAndPush. apply wp_log_Println, wp_bind.
  eapply wp_mono; first by apply addressLoop_registers.
  intros [[]|e|c] s1 t1 (Hk & Hreg & Hpanic).
  - assert (alive (world s1)) as Ha1 by apply Hk.
    eapply wp_mono.
    { apply kept_emit, kept_bind; first by apply kept_fetchLatestBlock.
      intros [err|] s2 Ha2.
      - apply wp_eq with (Ret tt) s2 [LogPrintf "Error fetching latest block: %v" [AErr err]];
          first done.
        by apply kept_refl.
      - by apply kept_ret. }
    intros o2 s2 t2 Hk2. split_and!.
    + by eapply kept_trans.
    + intros _ dn d Hin.
      assert (registered (totalSpeedDesc dn) s1) as H1 by (eapply Hreg; eauto).
      destruct Hk2 as (_ & Hsub & _). unfold registered in *. set_solver.
    + intros Hall. by destruct (Hpanic Hall) as [? [=]].
  - split_and!.
    + destruct Hk as (? & ? & ?). by split_and!.
    + by intros [? [=]].
    + eauto.
  - destruct Hk as (_ & _ & Hex). by destruct (Hex c).
Qed.

(** X1.  In a world where the speed endpoint keeps answering with
    documents that decode, a process started with at least one address
    does not outlive its first tick: it has panicked by the end of the
    second cycle, whatever else the API and the Pushgateway do. *)
Theorem main_panics_by_first_tick (address : string) (rest : list string)
    (ticks : nat) (s : State) :
  alive (world s) →
  ∃ e s' t,
    main pushgatewayURL apiBaseURL (address :: rest) (S ticks) s = (Panic e, s', t).
Proof.
  intros Ha.
  assert (wp (main pushgatewayURL apiBaseURL (address :: rest) (S ticks)) s
            (λ o _ _, ∃ e, o = Panic e)) as H.
  { rewrite main_with_addresses. apply wp_log_Println, wp_bind.
    eapply wp_mono; first by apply fetchDataAndPush_registers.
    intros [[]|e|c] s1 t1 (Hk & Hreg & _).
    - assert (alive (world s1)) as Ha1 by apply Hk.
      simpl tickerLoop. apply wp_bind.
      eapply wp_mono; first by apply fetchDataAndPush_registers.
      intros o2 s2 t2 (_ & _ & Hpanic).
      destruct Hpanic as [e ->]; by eauto.
    - eauto.
    - destruct Hk as (_ & _ & Hex). by destruct (Hex c). }
  unfold wp, outcome_of in H. destruct (main _ _ _ _ s) as [[o s'] t].
  destruct H as [e He]. simpl in He. subst o. eauto.
Qed.

Lemma totals_registered_kept {A} (s s' : State) (o : Outcome A) (t : list Event) :
  kept alive s o s' t → totals_registered s → totals_registered s'.
Proof.
  intros (_ & Hsub & _) Hall dn d Hin. specialize (Hall dn d Hin).
  unfold registered in *. set_solver.
Qed.

(** X2.  With two addresses or more the first cycle already panics, in
    the speed call of the second address at the latest: total_speed has
    no address label, and the first address registered it for every
    duration. *)
Lemma second_address_panics (a1 a2 : string) (rest : list string) (s : State) :
  alive (world s) →
  ∃ e s' t,
    fetchDataAndPush pushgatewayURL apiBaseURL (a1 :: a2 :: rest) s = (Panic e, s', t).
Proof.
  intros Ha.
  assert (wp (fetchDataAndPush pushgatewayURL apiBaseURL (a1 :: a2 :: rest)) s
            (λ o _ _, ∃ e, o = Panic e)) as H.
  { unfold fetchDataAndPush. apply wp_log_Println, wp_bind.
    eapply wp_mono with (Q := λ o _ _, ∃ e, o = Panic e);
      last by (intros [[]|e|c] s1 t1 [e' [=]]; eauto).
    change (addressLoop pushgatewayURL apiBaseURL (a1 :: a2 :: rest))
      with (ds ← with_world (map_range durations);
            durationLoop pushgatewayURL apiBaseURL a1 ds;;
            log_Printf "Fetching prover reward for address %s" [AStr a1];;
            err ← fetchProverReward pushgatewayURL apiBaseURL a1;
            match err with
            | Some err =>
                log_Printf "Error fetching prover reward for address %s: %v"
                  [AStr a1; AErr err]
            | None => mret tt
            end;;
            log_Printf "Fetching prover latest height for address %s" [AStr a1];;
            err ← fetchProverLatestHeight pushgatewayURL apiBaseURL a1;
            match err with
            | Some err =>
                log_Printf "Error fetching prover latest height for address %s: %v"
                  [AStr a1; AErr err]
            | None => mret tt
            end;;
            addressLoop pushgatewayURL apiBaseURL (a2 :: rest)).
    apply wp_with_world.
    assert (alive (map_range durations (world s)).2) as Ha0
      by by apply (serving_range serving).
    pose proof (map_range_perm durations (world s)) as Hperm.
    set (ds := (map_range durations (world s)).1) in *.
    apply wp_bind. eapply wp_mono; first by apply (durationLoop_registers a1 ds).
    intros [[]|e|c] s1 t1 (Hk & Hreg & _);
      [|by eauto|by destruct Hk as (_ & _ & Hex); destruct (Hex c)].
    assert (totals_registered s1) as Hall.
    { intros dn d Hin. eapply Hreg; first by eauto. by rewrite Hperm. }
    assert (alive (world s1)) as Ha1 by apply Hk.
    apply wp_log_Printf, wp_bind.
    eapply wp_mono; first by apply kept_fetchProverReward.
    intros [err|e|c] s2 t2 Hk2;
      [|by eauto|by destruct Hk2 as (_ & _ & Hex); destruct (Hex c)].
    assert (wp (log_Printf "Fetching prover latest height for address %s" [AStr a1];;
                err ← fetchProverLatestHeight pushgatewayURL apiBaseURL a1;
                match err with
                | Some err =>
                    log_Printf "Error fetching prover latest height for address %s: %v"
                      [AStr a1; AErr err]
                | None => mret tt
                end;;
                addressLoop pushgatewayURL apiBaseURL (a2 :: rest)) s2
              (λ o _ _, ∃ e, o = Panic e)) as Htail.
    { apply wp_log_Printf, wp_bind.
      eapply wp_mono; first by apply kept_fetchProverLatestHeight, Hk2.
      intros [err'|e|c] s3 t3 Hk3;
        [|by eauto|by destruct Hk3 as (_ & _ & Hex); destruct (Hex c)].
      assert (wp (addressLoop pushgatewayURL apiBaseURL (a2 :: rest)) s3
                (λ o _ _, ∃ e, o = Panic e)) as Hloop.
      { eapply wp_mono; first by apply addressLoop_registers, Hk3.
        intros o s4 t4 (_ & _ & Hpanic). apply Hpanic.
        by eapply totals_registered_kept, totals_registered_kept. }
      destruct err' as [err'|].
      - apply wp_log_Printf. eapply wp_mono; first exact Hloop. done.
      - apply wp_bind, wp_ret. eapply wp_mono; first exact Hloop. done. }
    destruct err as [err|].
    - apply wp_log_Printf. eapply wp_mono; first exact Htail. done.
    - apply wp_bind, wp_ret. eapply wp_mono; first exact Htail. done. }
  unfold wp, outcome_of in H.
  destruct (fetchDataAndPush _ _ _ s) as [[o s'] t].
  destruct H as [e He]. simpl in He. subst o. eauto.
Qed.
End Persistence.

(** [Demo] with a healthy server is such a world. *)
Lemma healthy_is_serving :
  Serving (rt := Demo.runtime) Demo.apiBaseURL
    (λ w : Demo.World, Demo.server w = Demo.healthy).
Proof.
  split.
  - reflexivity.
  - intros [srv p] address duration Hsrv. simpl in Hsrv. subst srv.
    eexists 200, _, (mkSpeedResult [mkSpeedItem "aleo1" "12.5"] "40").
    split; first reflexivity. vm_compute. reflexivity.
  - intros w req Hw. simpl. unfold Demo.Do. by repeat case_match.
  - by intros w req Hw.
  - by intros w m Hw.
Qed.

(** X1 on [Demo]: one address, a healthy server, one tick. *)
Lemma main_panics_by_first_tick_witness :
  ∃ e s' t,
    main Demo.pushgatewayURL Demo.apiBaseURL ["aleo1"] 1 (Demo.start Demo.healthy)
    = (Panic e, s', t).
Proof.
  exact (main_panics_by_first_tick (rt := Demo.runtime)
           Demo.pushgatewayURL Demo.apiBaseURL
           (λ w : Demo.World, Demo.server w = Demo.healthy) healthy_is_serving
           "aleo1" [] 0 (Demo.start Demo.healthy) eq_refl).
Defined.

(** X2 on [Demo]: two addresses, a healthy server. *)
Lemma second_address_panics_witness :
  ∃ e s' t,
    fetchDataAndPush Demo.pushgatewayURL Demo.apiBaseURL ["aleo1"; "aleo2"]
      (Demo.start Demo.healthy)
    = (Panic e, s', t).
Proof.
  exact (second_address_panics (rt := Demo.runtime)
           Demo.pushgatewayURL Demo.apiBaseURL
           (λ w : Demo.World, Demo.server w = Demo.healthy) healthy_is_serving
           "aleo1" "aleo2" [] (Demo.start Demo.healthy) eq_refl).
Defined.

(** * The cycle as a whole

    What a whole cycle does with the API: the queries it sends when it
    runs to its end, and how the process fares while the API cannot be
    reached. *)

(** ** The queries of a cycle *)

Section Queries.
Variable apiBaseURL : string.

(** The requests of the four fetch functions. *)
Definition speedQuery (address : string) (d : string * Z) : Request :=
  apiRequest (speedURL apiBaseURL) (speedBody address d.2).
Definition rewardQuery (address : string) : Request :=
  apiRequest (rewardURL apiBaseURL) (addressBody address).
Definition heightQuery (address : string) : Request :=
  apiRequest (heightURL apiBaseURL) (addressBody address).
Definition blockQuery : Request := apiRequest (blockURL apiBaseURL) "".

(** The requests the body of the outer loop sends for one address when
    [range] yields the durations in the order [ds]. *)
Definition addressQueries (address : string) (ds : list (string * Z)) : list Request :=
  map (speedQuery address) ds ++ [rewardQuery address; heightQuery address].
End Queries.

Section CycleQueries.
Context `{rt : GoRuntime}.
Variables pushgatewayURL apiBaseURL : string.

Hypothesis speedURL_parses : url_Parse (speedURL apiBaseURL) = None.
Hypothesis rewardURL_parses : url_Parse (rewardURL apiBaseURL) = None.
Hypothesis heightURL_parses : url_Parse (heightURL apiBaseURL) = None.
Hypothesis blockURL_parses : url_Parse (blockURL apiBaseURL) = None.

Lemma fetchProverSpeed_query address dn d s :
  requests_of (trace_of (fetchProverSpeed pushgatewayURL apiBaseURL address d dn s))
  = [speedQuery apiBaseURL address (dn, d)].
Proof.
  by rewrite requests_of_fetchProverSpeed, requests_of_fetchData, speedURL_parses.
Qed.

Lemma fetchProverReward_query address s :
  requests_of (trace_of (fetchProverReward pushgatewayURL apiBaseURL address s))
  = [rewardQuery apiBaseURL address].
Proof.
  by rewrite requests_of_fetchProverReward, requests_of_fetchData, rewardURL_parses.
Qed.

Lemma fetchProverLatestHeight_query address s :
  requests_of (trace_of (fetchProverLatestHeight pushgatewayURL apiBaseURL address s))
  = [heightQuery apiBaseURL address].
Proof.
  by rewrite requests_of_fetchProverLatestHeight, requests_of_fetchData,
       heightURL_parses.
Qed.

Lemma fetchLatestBlock_query s :
  requests_of (trace_of (fetchLatestBlock pushgatewayURL apiBaseURL s))
  = [blockQuery apiBaseURL].
Proof.
  by rewrite requests_of_fetchLatestBlock, requests_of_fetchData, blockURL_parses.
Qed.

(** The log line after a call adds no request. *)
Lemma wp_log_error {B} (err : option error) (format : string) (args : error → list Arg)
    (k : M B) (s : State) (Q : Outcome B → State → list Event → Prop) :
  wp k s (λ o s' t, ∀ l, requests_of l = [] → sets_of l = [] → pushes_of l = [] →
                         Q o s' (l ++ t)) →
  wp (match err with
      | Some e => log_Printf format (args e)
      | None => mret tt
      end;; k) s Q.
Proof.
  intros Hk. destruct err as [e|].
  - apply wp_log_Printf. eapply wp_mono; first exact Hk.
    intros o s' t H. by apply (H [_]).
  - apply wp_bind, wp_ret. eapply wp_mono; first exact Hk.
    intros o s' t H. by apply (H []).
Qed.

Lemma durationLoop_queries address ds s :
  wp (durationLoop pushgatewayURL apiBaseURL address ds) s
    (λ o _ t, (∃ x, o = Ret x) → requests_of t = map (speedQuery apiBaseURL address) ds).
Proof.
  revert s. induction ds as [|[dn d] rest IH]; intros s; first by apply wp_ret.
  simpl durationLoop. apply wp_log_Printf, wp_bind.
  pose proof (fetchProverSpeed_query address dn d s) as Hq.
  unfold wp at 1.
  destruct (fetchProverSpeed _ _ _ _ _ s) as [[[err|e|c] s1] t1];
    unfold outcome_of, state_of, trace_of in *; simpl in *;
    [|by intros [? [=]]..].
  apply (wp_log_error err _ (λ e, [AStr address; AStr dn; AErr e])).
  eapply wp_mono; first apply IH.
  intros o s2 t2 Hrest l Hl _ _ Hret. simpl.
  by rewrite !requests_of_app, Hq, Hl, Hrest.
Qed.

Lemma addressLoop_queries addresses s :
  wp (addressLoop pushgatewayURL apiBaseURL addresses) s
    (λ o _ t, (∃ x, o = Ret x) →
       ∃ orders,
         Forall2 (λ _ ds, ds ≡ₚ durations) addresses orders
         ∧ requests_of t = concat (zip_with (addressQueries apiBaseURL) addresses orders)).
Proof.
  revert s. induction addresses as [|address rest IH]; intros s.
  { apply wp_ret. intros _. by exists []. }
  change (addressLoop pushgatewayURL apiBaseURL (address :: rest))
    with (ds ← with_world (map_range durations);
          durationLoop pushgatewayURL apiBaseURL address ds;;
          log_Printf "Fetching prover reward for address %s" [AStr address];;
          err ← fetchProverReward pushgatewayURL apiBaseURL address;
          match err with
          | Some err =>
              log_Printf "Error fetching prover reward for address %s: %v"
                [AStr address; AErr err]
          | None => mret tt
          end;;
          log_Printf "Fetching prover latest height for address %s" [AStr address];;
          err ← fetchProverLatestHeight pushgatewayURL apiBaseURL address;
          match err with
          | Some err =>
              log_Printf "Error fetching prover latest height for address %s: %v"
                [AStr address; AErr err]
          | None => mret tt
          end;;
          addressLoop pushgatewayURL apiBaseURL rest).
  apply wp_bind.
  pose proof (map_range_perm durations (world s)) as Hperm.
  unfold wp at 1, with_world, outcome_of, state_of, trace_of.
  destruct (map_range durations (world s)) as [ds w]. simpl in *.
  apply wp_bind. eapply wp_mono; first apply durationLoop_queries.
  intros [[]|e|c] s1 t1 Hds; [|by intros [? [=]]..].
  specialize (Hds (ex_intro _ tt eq_refl)).
  apply wp_log_Printf, wp_bind.
  pose proof (fetchProverReward_query address s1) as Hr.
  unfold wp at 1.
  destruct (fetchProverReward _ _ _ s1) as [[[err|e|c] s2] t2];
    unfold outcome_of, state_of, trace_of in *; simpl in *;
    [|by intros [? [=]]..].
  apply (wp_log_error err _ (λ e, [AStr address; AErr e])).
  apply wp_log_Printf, wp_bind.
  pose proof (fetchProverLatestHeight_query address s2) as Hh.
  unfold wp at 1.
  destruct (fetchProverLatestHeight _ _ _ s2) as [[[err'|e|c] s3] t3];
    unfold outcome_of, state_of, trace_of in *; simpl in *;
    [|by intros ? ? ? ? [? [=]]..].
  apply (wp_log_error err' _ (λ e, [AStr address; AErr e])).
  eapply wp_mono; first apply IH.
  intros o s4 t4 Hrest l' Hl' _ _ l Hl _ _ Hret.
  destruct (Hrest Hret) as (orders & Hall & Ht4).
  exists (ds :: orders). split; first by constructor.
  simpl. unfold addressQueries at 1.
  rewrite !requests_of_app. simpl. rewrite !requests_of_app. simpl.
  rewrite !requests_of_app, Hds, Hr, Hl, Hh, Hl', Ht4. simpl.
  by rewrite <- !app_assoc.
Qed.

(** X3.  A cycle that returns has sent, for every address in the order
    of the command line, the speed query of each of the four durations in
    the order [range] yielded them, then the reward query and the
    latest-height query, and after the last address the latest-block
    query: six queries per address and one more. *)
Theorem cycle_queries (addresses : list string) (s s' : State) (t : list Event) :
  fetchDataAndPush pushgatewayURL apiBaseURL addresses s = (Ret tt, s', t) →
  (∃ orders,
     Forall2 (λ _ ds, ds ≡ₚ durations) addresses orders
     ∧ requests_of t
       = concat (zip_with (addressQueries apiBaseURL) addresses orders)
         ++ [blockQuery apiBaseURL])
  ∧ length (requests_of t) = (6 * length addresses + 1)%nat.
Proof.
  intros Hrun.
  assert (∃ orders,
     Forall2 (λ _ ds, ds ≡ₚ durations) addresses orders
     ∧ requests_of t
       = concat (zip_with (addressQueries apiBaseURL) addresses orders)
         ++ [blockQuery apiBaseURL]) as (orders & Hall & Ht).
  { enough (wp (fetchDataAndPush pushgatewayURL apiBaseURL addresses) s
              (λ o _ t, o = Ret tt →
                 ∃ orders,
                   Forall2 (λ _ ds, ds ≡ₚ durations) addresses orders
                   ∧ requests_of t
                     = concat (zip_with (addressQueries apiBaseURL) addresses orders)
                       ++ [blockQuery apiBaseURL])) as H
      by exact (wp_run _ _ _ _ _ _ H Hrun eq_refl).
    unfold fetchDataAndPush. apply wp_log_Println, wp_bind.
    eapply wp_mono; first apply addressLoop_queries.
    intros [[]|e|c] s1 t1 Hloop; [|done..].
    destruct (Hloop (ex_intro _ tt eq_refl)) as (orders & Hall & Ht1).
    apply wp_log_Println, wp_bind.
    pose proof (fetchLatestBlock_query s1) as Hb.
    unfold wp at 1.
    destruct (fetchLatestBlock _ _ s1) as [[[err|e|c] s2] t2];
      unfold outcome_of, state_of, trace_of in *; simpl in *; [|done..].
    destruct err as [err|]; unfold wp, outcome_of, state_of, trace_of; simpl;
      intros _; exists orders; (split; first done);
      rewrite !requests_of_app; simpl; rewrite !requests_of_app, Ht1, Hb;
      simpl; by rewrite ?app_nil_r. }
  split; first by eauto.
  rewrite Ht, length_app. simpl.
  assert (length (concat (zip_with (addressQueries apiBaseURL) addresses orders))
          = (6 * length addresses)%nat) as ->; last lia.
  clear Ht Hrun. induction Hall as [|a ds addrs ords Hperm Hall IH]; first done.
  simpl. rewrite length_app, IH. unfold addressQueries.
  rewrite length_app, length_map, Hperm. simpl. lia.
Qed.
End CycleQueries.

(** ** An outage of the API *)

Section OutageVocabulary.
Context `{rt : GoRuntime}.
Variable apiBaseURL : string.
Variable down : Ext → Prop.

(** What [down] asks of the world: no request to one of the four
    endpoints gets a response, and the world stays down whatever the
    program does. *)
Record Unreachable : Prop := {
  unreachable_do : ∀ w url body,
    url ∈ [speedURL apiBaseURL; rewardURL apiBaseURL;
           heightURL apiBaseURL; blockURL apiBaseURL] →
    down w →
    ∃ err, (client_Do (apiRequest url body) w).1 = Fail err;
  unreachable_still : ∀ w req, down w → down (client_Do req w).2;
  unreachable_range : ∀ w m, down w → down (map_range m w).2
}.

End OutageVocabulary.

Arguments unreachable_do {rt apiBaseURL down} _.
Arguments unreachable_still {rt apiBaseURL down} _.
Arguments unreachable_range {rt apiBaseURL down} _.

(** A server none of whose endpoints can be reached. *)
Definition refusing : Demo.Server :=
  let refused := Fail (Err "connection refused") in
  Demo.mkServer refused refused refused refused.

Section Outage.
Context `{rt : GoRuntime}.
Variables pushgatewayURL apiBaseURL : string.
Variable down : Ext → Prop.
Hypothesis unreachable : Unreachable apiBaseURL down.

Hypothesis speedURL_parses : url_Parse (speedURL apiBaseURL) = None.
Hypothesis rewardURL_parses : url_Parse (rewardURL apiBaseURL) = None.
Hypothesis heightURL_parses : url_Parse (heightURL apiBaseURL) = None.
Hypothesis blockURL_parses : url_Parse (blockURL apiBaseURL) = None.

Lemma fetchData_down url body s :
  url ∈ [speedURL apiBaseURL; rewardURL apiBaseURL;
         heightURL apiBaseURL; blockURL apiBaseURL] →
  down (world s) →
  ∃ err s1,
    fetchData url body s = (Ret (Fail err), s1, [HttpDo (apiRequest url body)])
    ∧ DefaultRegisterer s1 = DefaultRegisterer s
    ∧ down (world s1).
Proof.
  intros Hurl Hdown. rewrite fetchData_run.
  assert (url_Parse url = None) as ->.
  { repeat (apply elem_of_cons in Hurl as [->|Hurl]; first done).
    by apply elem_of_nil in Hurl. }
  destruct (unreachable_do unreachable (world s) url body Hurl Hdown) as [err ->].
  cbv zeta. eexists _, _. split_and!; [done..|].
  by apply (unreachable_still unreachable).
Qed.
















End Outage.

(** [Demo] with the refusing server is such a world. *)
Lemma refusing_is_unreachable :
  Unreachable (rt := Demo.runtime) Demo.apiBaseURL
    (λ w : Demo.World, Demo.server w = refusing).
Proof.
  split.
  - intros [srv p] url body Hurl Hsrv. simpl in Hsrv. subst srv.
    exists (Err "connection refused").
    repeat (apply elem_of_cons in Hurl as [->|Hurl]; first by vm_compute).
    by apply elem_of_nil in Hurl.
  - intros w req Hw. simpl. unfold Demo.Do. by repeat case_match.
  - by intros w m Hw.
Qed.


(** X3 on [Demo]: the first cycle on a healthy server sends seven
    requests. *)
Lemma cycle_queries_witness :
  length (requests_of (trace_of firstCycle)) = 7%nat.
Proof.
  exact (proj2 (cycle_queries (rt := Demo.runtime)
                  Demo.pushgatewayURL Demo.apiBaseURL
                  eq_refl eq_refl eq_refl eq_refl
                  ["aleo1"] (Demo.start Demo.healthy) _ _ firstCycle_returns)).
Defined.


(** * The revision with gauge vectors

    src/main.go holds a second revision of the program.  Its gauges are
    package-level collectors, four of them vectors, that [init] registers
    once; each fetch function asks for all the addresses in one query, with
    a body [toJSON] writes; and one push at the end of the cycle sends
    every collector. *)

Module Vec.

(** [prometheus.GaugeVec]: the descriptor, the names of the variable
    labels, and the value of every child by its label values. *)
Record GaugeVec : Type := mkGaugeVec {
  vec_desc : Desc;
  variableLabels : list string;
  children : gmap (list string) float64
}.

Definition NewGaugeVec (name hlp : string) (labelNames : list string) : GaugeVec :=
  mkGaugeVec (mkDesc name hlp []) labelNames ∅.

(** What descriptors of one name must share, for a vector: the names of
    the variable labels count, marked with a dollar. *)
Definition vecDimHash (v : GaugeVec) : DimHash :=
  ((constLabels (vec_desc v)).*1 ++ map (λ n, "$" +:+ n) (variableLabels v),
   help (vec_desc v)).

(** [Registry.Register] for a vector. *)
Definition RegisterVec (v : GaugeVec) (r : Registry) : result Registry :=
  let d := vec_desc v in
  if descValid d then
    match dimHashesByName r !! fqName d with
    | Some h =>
        if decide (h = vecDimHash v) then
          if decide (descID d ∈ descIDs r) then Fail errAlreadyRegistered
          else Ok (mkRegistry ({[ descID d ]} ∪ descIDs r) (dimHashesByName r))
        else Fail errInconsistent
    | None =>
        if decide (descID d ∈ descIDs r) then Fail errAlreadyRegistered
        else Ok (mkRegistry ({[ descID d ]} ∪ descIDs r)
                   (<[ fqName d := vecDimHash v ]> (dimHashesByName r)))
    end
  else Fail errInvalidDesc.

Definition errInconsistentCardinality : error := Err "inconsistent label cardinality".
Definition errInvalidLabelValue : error := Err "label value is not valid UTF-8".

Definition validateLabelValues (vals : list string) (expected : nat) : option error :=
  if decide (length vals = expected) then
    if forallb utf8_ValidString vals then None else Some errInvalidLabelValue
  else Some errInconsistentCardinality.

(** The metric of the child with the label values [lvs]: the label
    pairs in the order of the label names, which the program gives in
    alphabetical order. *)
Definition childDesc (v : GaugeVec) (lvs : list string) : Desc :=
  mkDesc (fqName (vec_desc v)) (help (vec_desc v)) (zip (variableLabels v) lvs).

(** The order in which [Gather] sorts the metrics of one family: by
    label values. *)
Fixpoint labelsLess (l1 l2 : list string) : bool :=
  match l1, l2 with
  | v1 :: r1, v2 :: r2 => if String.eqb v1 v2 then labelsLess r1 r2 else String.ltb v1 v2
  | _, _ => false
  end.

Definition childrenOrder (c1 c2 : list string * float64) : Prop :=
  labelsLess c2.1 c1.1 = false.

#[export] Instance childrenOrder_dec : RelDecision childrenOrder :=
  λ c1 c2, decide (labelsLess c2.1 c1.1 = false).

(** The metrics a vector has when it is gathered. *)
Definition Collect (v : GaugeVec) : list Gauge :=
  map (λ child, mkGauge (childDesc v child.1) child.2)
    (merge_sort childrenOrder (map_to_list (children v))).

(** [Pusher.Collector] for a vector. *)
Definition CollectorVec (v : GaugeVec) (p : Pusher) : Pusher :=
  match p_error p with
  | Some _ => p
  | None =>
      match RegisterVec v (p_registry p) with
      | Ok r => mkPusher (p_url p) (p_job p) r (p_collectors p ++ Collect v) None
      | Fail e => mkPusher (p_url p) (p_job p) (p_registry p) (p_collectors p) (Some e)
      end
  end.

(** The package-level collectors. *)
Record Collectors : Type := mkCollectors {
  proverSpeed : GaugeVec;
  totalSpeed : GaugeVec;
  totalReward : GaugeVec;
  proverHeight : GaugeVec;
  latestBlockHeight : Gauge;
  proofTarget : Gauge;
  coinbaseReward : Gauge
}.

(** Their initial values. *)
Definition collectors : Collectors := {|
  proverSpeed := NewGaugeVec "prover_speed" "Speed of the prover" ["address"; "duration"];
  totalSpeed := NewGaugeVec "total_speed" "Total speed" ["duration"];
  totalReward := NewGaugeVec "total_reward" "Total reward of the prover" ["address"];
  proverHeight := NewGaugeVec "prover_height" "Height of the prover" ["address"];
  latestBlockHeight := NewGauge "latest_block_height" "Height of the latest block" [];
  proofTarget := NewGauge "proof_target" "Proof target of the latest block" [];
  coinbaseReward := NewGauge "coinbase_reward" "Coinbase reward of the latest block" []
|}.

(** The bodies of the queries. *)
Definition addressesJSON (addresses : list string) : string :=
  toJSON (VSlice (map VString addresses)).

Definition speedBody (addresses : list string) (duration : Z) : string :=
  "{" +:+ quoted "address" +:+ ":" +:+ addressesJSON addresses +:+ ","
  +:+ quoted "duration" +:+ ":" +:+ fmt_d duration +:+ "}".

Definition addressBody (addresses : list string) : string :=
  "{" +:+ quoted "address" +:+ ":" +:+ addressesJSON addresses +:+ "}".

Section Program.
Context `{rt : GoRuntime}.


(** [v.WithLabelValues(lvs...).Set(x)] *)
Definition WithLabelValues_Set (v : GaugeVec) (lvs : list string) (x : float64)
    : M GaugeVec :=
  match validateLabelValues lvs (length (variableLabels v)) with
  | Some e => panic e
  | None =>
      emit (GaugeSet (childDesc v lvs) x);;
      mret (mkGaugeVec (vec_desc v) (variableLabels v) (<[ lvs := x ]> (children v)))
  end.

Variables (pushgatewayURL apiBaseURL : string) (addresses : list string).


(** The loop of [fetchProverSpeed] over [result.Data.List]. *)
Fixpoint speedLoop (durationName : string) (proverSpeed : GaugeVec)
    (items : list SpeedItem) : M GaugeVec :=
  match items with
  | [] => mret proverSpeed
  | item :: rest =>
      match parseFloat (si_Speed item) with
      | Fail _ =>
          log_Printf "Invalid speed value: %v" [AStr (si_Speed item)];;
          speedLoop durationName proverSpeed rest
      | Ok speed =>
          v ← WithLabelValues_Set proverSpeed [si_Address item; durationName] speed;
          log_Printf "Set prover speed: address=%s, duration=%s, speed=%f"
            [AStr (si_Address item); AStr durationName; AFloat speed];;
          speedLoop durationName v rest
      end
  end.

Definition fetchProverSpeed (cs : Collectors) (addresses : list string)
    (duration : Z) (durationName : string) : M (option error * Collectors) :=
  let url := apiBaseURL +:+ "/api/v1/provers/prover_speed_list" in
  let body := speedBody addresses duration in
  r ← fetchData url body;
  match r with
  | Fail err => mret (Some err, cs)
  | Ok data =>
      match json_Unmarshal_speed data with
      | Fail err =>
          mret (Some (Wrapf "could not unmarshal prover speed response" err), cs)
      | Ok result =>
          ps ← speedLoop durationName (proverSpeed cs) (sp_List result);
          let cs := mkCollectors ps (totalSpeed cs) (totalReward cs) (proverHeight cs)
                      (latestBlockHeight cs) (proofTarget cs) (coinbaseReward cs) in
          match parseFloat (sp_Total result) with
          | Fail _ =>
              log_Printf "Invalid total speed value: %v" [AStr (sp_Total result)];;
              mret (None, cs)
          | Ok totalSpeedValue =>
              ts ← WithLabelValues_Set (totalSpeed cs) [durationName] totalSpeedValue;
              log_Printf "Set total speed: duration=%s, total_speed=%f"
                [AStr durationName; AFloat totalSpeedValue];;
              mret (None,
                    mkCollectors (proverSpeed cs) ts (totalReward cs) (proverHeight cs)
                      (latestBlockHeight cs) (proofTarget cs) (coinbaseReward cs))
          end
      end
  end.

(** The loop of [fetchProverReward] over [result.Data.List]. *)
Fixpoint rewardLoop (totalReward : GaugeVec) (items : list RewardItem) : M GaugeVec :=
  match items with
  | [] => mret totalReward
  | item :: rest =>
      match parseFloat (ri_TotalReward item) with
      | Fail _ =>
          log_Printf "Invalid total reward value: %v" [AStr (ri_TotalReward item)];;
          rewardLoop totalReward rest
      | Ok totalRewardValue =>
          v ← WithLabelValues_Set totalReward [ri_Address item] totalRewardValue;
          log_Printf "Set total reward: address=%s, total_reward=%f"
            [AStr (ri_Address item); AFloat totalRewardValue];;
          rewardLoop v rest
      end
  end.

Definition fetchProverReward (cs : Collectors) (addresses : list string)
    : M (option error * Collectors) :=
  let url := apiBaseURL +:+ "/api/v1/provers/prover_reward_list" in
  let body := addressBody addresses in
  r ← fetchData url body;
  match r with
  | Fail err => mret (Some err, cs)
  | Ok data =>
      match json_Unmarshal_reward data with
      | Fail err =>
          mret (Some (Wrapf "could not unmarshal prover reward response" err), cs)
      | Ok result =>
          tr ← rewardLoop (totalReward cs) (rw_List result);
          mret (None,
                mkCollectors (proverSpeed cs) (totalSpeed cs) tr (proverHeight cs)
                  (latestBlockHeight cs) (proofTarget cs) (coinbaseReward cs))
      end
  end.

(** The loop of [fetchProverLatestHeight] over [result.Data]. *)
Fixpoint heightLoop (proverHeight : GaugeVec) (items : list HeightItem) : M GaugeVec :=
  match items with
  | [] => mret proverHeight
  | item :: rest =>
      v ← WithLabelValues_Set proverHeight [hi_Address item]
             (float64_of_int (hi_Height item));
      log_Printf "Set prover height: address=%s, height=%d"
        [AStr (hi_Address item); AInt (hi_Height item)];;
      heightLoop v rest
  end.

Definition fetchProverLatestHeight (cs : Collectors) (addresses : list string)
    : M (option error * Collectors) :=
  let url := apiBaseURL +:+ "/api/v1/provers/prover_latest_height" in
  let body := addressBody addresses in
  r ← fetchData url body;
  match r with
  | Fail err => mret (Some err, cs)
  | Ok data =>
      match json_Unmarshal_height data with
      | Fail err =>
          mret (Some (Wrapf "could not unmarshal prover latest height response" err), cs)
      | Ok result =>
          ph ← heightLoop (proverHeight cs) result;
          mret (None,
                mkCollectors (proverSpeed cs) (totalSpeed cs) (totalReward cs) ph
                  (latestBlockHeight cs) (proofTarget cs) (coinbaseReward cs))
      end
  end.

Definition fetchLatestBlock (cs : Collectors) : M (option error * Collectors) :=
  let url := apiBaseURL +:+ "/api/v1/chain/latest_block" in
  r ← fetchData url "";
  match r with
  | Fail err => mret (Some err, cs)
  | Ok data =>
      log_Printf "Raw response from latest block: %s" [AStr data];;
      match json_Unmarshal_block data with
      | Fail err =>
          mret (Some (Wrapf "could not unmarshal latest block response" err), cs)
      | Ok result =>
          lbh ← Set_ (latestBlockHeight cs) (float64_of_int (bl_Height result));
          log_Printf "Set latest block height: height=%d" [AInt (bl_Height result)];;
          let cs := mkCollectors (proverSpeed cs) (totalSpeed cs) (totalReward cs)
                      (proverHeight cs) lbh (proofTarget cs) (coinbaseReward cs) in
          match parseFloat (bl_ProofTarget result) with
          | Fail _ =>
              log_Printf "Invalid proof target value: %v" [AStr (bl_ProofTarget result)];;
              mret (None, cs)
          | Ok proofTargetValue =>
              pt ← Set_ (proofTarget cs) proofTargetValue;
              log_Printf "Set proof target: proof_target=%f" [AFloat proofTargetValue];;
              let cs := mkCollectors (proverSpeed cs) (totalSpeed cs) (totalReward cs)
                          (proverHeight cs) (latestBlockHeight cs) pt
                          (coinbaseReward cs) in
              match parseFloat (bl_CoinbaseReward result) with
              | Fail _ =>
                  log_Printf "Invalid coinbase reward value: %v"
                    [AStr (bl_CoinbaseReward result)];;
                  mret (None, cs)
              | Ok coinbaseRewardValue =>
                  cr ← Set_ (coinbaseReward cs) coinbaseRewardValue;
                  log_Printf "Set coinbase reward: coinbase_reward=%f"
                    [AFloat coinbaseRewardValue];;
                  mret (None,
                        mkCollectors (proverSpeed cs) (totalSpeed cs) (totalReward cs)
                          (proverHeight cs) (latestBlockHeight cs) (proofTarget cs) cr)
              end
          end
      end
  end.

(** The loop of [fetchDataAndPush] over the durations, in the order
    [range] yields them. *)
Fixpoint durationLoop (cs : Collectors) (ds : list (string * Z)) : M Collectors :=
  match ds with
  | [] => mret cs
  | (durationName, duration) :: rest =>
      log_Printf "Fetching prover speed for duration %s" [AStr durationName];;
      r ← fetchProverSpeed cs addresses duration durationName;
      match r.1 with
      | Some err =>
          log_Printf "Error fetching prover speed for duration %s: %v"
            [AStr durationName; AErr err]
      | None => mret tt
      end;;
      durationLoop r.2 rest
  end.

(** The pusher of [fetchDataAndPush] with its seven collectors. *)
Definition pusher (cs : Collectors) : Pusher :=
  Collector (coinbaseReward cs)
    (Collector (proofTarget cs)
       (Collector (latestBlockHeight cs)
          (CollectorVec (proverHeight cs)
             (CollectorVec (totalReward cs)
                (CollectorVec (totalSpeed cs)
                   (CollectorVec (proverSpeed cs)
                      (push_New pushgatewayURL "prover_metrics"))))))).

Definition fetchDataAndPush (cs : Collectors) : M Collectors :=
  log_Println "Fetching data and pushing to Pushgateway";;
  ds ← with_world (map_range durations);
  cs ← durationLoop cs ds;
  log_Println "Fetching prover reward";;
  r ← fetchProverReward cs addresses;
  match r.1 with
  | Some err => log_Printf "Error fetching prover reward: %v" [AErr err]
  | None => mret tt
  end;;
  log_Println "Fetching prover latest height";;
  r ← fetchProverLatestHeight r.2 addresses;
  match r.1 with
  | Some err => log_Printf "Error fetching prover latest height: %v" [AErr err]
  | None => mret tt
  end;;
  log_Println "Fetching latest block";;
  r ← fetchLatestBlock r.2;
  match r.1 with
  | Some err => log_Printf "Error fetching latest block: %v" [AErr err]
  | None => mret tt
  end;;
  log_Println "Pushing metrics to Pushgateway";;
  err ← Push (pusher r.2);
  match err with
  | Some err => log_Printf "Could not push to Pushgateway: %v" [AErr err]
  | None => log_Println "Metrics pushed successfully"
  end;;
  mret r.2.

(** The ticker loop of [main], for the first [ticks] ticks. *)
Fixpoint tickerLoop (cs : Collectors) (ticks : nat) : M Collectors :=
  match ticks with
  | O => mret cs
  | S n => cs ← fetchDataAndPush cs; tickerLoop cs n
  end.

(** [main] after the flags are parsed, observed until the cycle of tick
    number [ticks] has ended. *)
Definition main (ticks : nat) : M Collectors :=
  if decide (length addresses = 0%nat) then log_Fatal "No addresses provided"
  else
    log_Println "Starting prover monitor";;
    cs ← fetchDataAndPush collectors;
    tickerLoop cs ticks.

End Program.
End Vec.

(** ** The bodies of the batch queries *)

(** [n] continuation bytes at the head of [s]. *)
Fixpoint conts (n : nat) (s : string) : bool :=
  match n with
  | O => true
  | S n =>
      match s with
      | String b rest => byte_in 128 191 b && conts n rest
      | EmptyString => false
      end
  end.

Lemma byte_in_weaken (lo hi lo' hi' : nat) (c : ascii) :
  (lo' ≤ lo)%nat → (hi ≤ hi')%nat → byte_in lo hi c = true → byte_in lo' hi' c = true.
Proof.
  unfold byte_in. intros Hlo Hhi [H1 H2]%andb_prop.
  apply Nat.leb_le in H1, H2. apply andb_true_intro.
  split; apply Nat.leb_le; lia.
Qed.

Lemma byte_is_in (n lo hi : nat) (c : ascii) :
  (lo ≤ n ≤ hi)%nat → byte_is n c = true → byte_in lo hi c = true.
Proof.
  unfold byte_is, byte_in. intros Hn H%Nat.eqb_eq.
  apply andb_true_intro. split; apply Nat.leb_le; lia.
Qed.

Lemma jsonPlain_high (c : ascii) : byte_in 0 127 c = false → jsonPlain c = true.
Proof.
  unfold jsonPlain, byte_in, byte_is. simpl. intros H%Nat.leb_gt.
  apply negb_true_iff, orb_false_intro; [apply orb_false_intro|].
  - apply Nat.leb_gt. lia.
  - apply Nat.eqb_neq. lia.
  - apply Nat.eqb_neq. lia.
Qed.

Lemma jsonPlain_htmlSafe (c : ascii) : htmlSafe c = true → jsonPlain c = true.
Proof.
  unfold htmlSafe, jsonPlain. intros [Hc Hn]%andb_prop.
  apply negb_true_iff in Hn.
  repeat apply orb_false_elim in Hn as [Hn ?].
  apply negb_true_iff. rewrite Hn, H2. rewrite !orb_false_r.
  unfold byte_in in *. apply andb_prop in Hc as [Hc _].
  apply Nat.leb_le in Hc. apply andb_false_intro2, Nat.leb_gt. lia.
Qed.

Lemma scan_string_byte (c : ascii) (x : string) :
  jsonPlain c = true → scan_string (String c x) = scan_string x.
Proof.
  unfold jsonPlain. intros Hc%negb_true_iff.
  apply orb_false_elim in Hc as [[H1 H2]%orb_false_elim H3].
  simpl. by rewrite H1, H2, H3.
Qed.

(** The escape of an ASCII byte is read as one escape. *)
Lemma scan_string_escapeByte (c : ascii) (x : string) :
  byte_in 0 127 c = true → scan_string (escapeByte c +:+ x) = scan_string x.
Proof.
  intros Hc.
  destruct c as [[] [] [] [] [] [] [] []]; try discriminate Hc; reflexivity.
Qed.

Lemma scan_string_lineSeparator (c : ascii) (rest esc x : string) :
  lineSeparator c rest = Some esc → scan_string (esc +:+ x) = scan_string x.
Proof.
  unfold lineSeparator. intros H.
  repeat case_match; simplify_eq; reflexivity.
Qed.

Lemma utf8_size_conts (c : ascii) (rest : string) (n : nat) :
  utf8_size c rest = Some n → conts (n - 1) rest = true.
Proof.
  unfold utf8_size. intros H.
  destruct rest as [|b1 [|b2 [|b3 rest]]]; simpl in H;
    repeat case_match; simplify_eq; simpl; rewrite ?andb_true_r;
    unfold byte_in in *;
    repeat match goal with
           | H : _ && _ = true |- _ => apply andb_prop in H as [? ?]
           end;
    repeat match goal with
           | H : (_ <=? _)%nat = true |- _ => apply Nat.leb_le in H
           end;
    repeat (apply andb_true_intro; split); try done; apply Nat.leb_le; lia.
Qed.

(** What [appendString] writes is the inside of a string literal: the
    scanner reads it up to the quote that follows. *)
Lemma scan_string_appendString (s : string) (copy drop : nat) (rest : string) :
  conts copy s = true →
  scan_string (appendString copy drop s +:+ String (ascii_of_nat 34) rest) = Some rest.
Proof.
  revert copy drop. induction s as [|c s IH]; intros copy drop Hc; first done.
  destruct copy as [|n].
  - destruct drop as [|n]; last by apply IH.
    cbn [appendString].
    destruct (byte_in 0 127 c) eqn:Hascii.
    + destruct (htmlSafe c) eqn:Hsafe.
      * rewrite append_cons, scan_string_byte by by apply jsonPlain_htmlSafe.
        by apply IH.
      * rewrite append_assoc, scan_string_escapeByte by done. by apply IH.
    + destruct (lineSeparator c s) as [esc|] eqn:Hsep.
      { rewrite append_assoc, (scan_string_lineSeparator _ _ _ _ Hsep). by apply IH. }
      destruct (utf8_size c s) as [n|] eqn:Hsize.
      * rewrite append_cons, scan_string_byte by by apply jsonPlain_high.
        apply IH. by eapply utf8_size_conts.
      * rewrite append_assoc. change (scan_string (appendString 0 0 s +:+ String (ascii_of_nat 34) rest) = Some rest).
        by apply IH.
  - simpl in Hc. apply andb_prop in Hc as [Hb Hn].
    cbn [appendString]. rewrite append_cons, scan_string_byte; first by apply IH.
    apply jsonPlain_high. unfold byte_in in *.
    apply andb_prop in Hb as [Hb _]. apply Nat.leb_le in Hb.
    apply andb_false_intro2, Nat.leb_gt. lia.
Qed.

Lemma length_append (s1 s2 : string) :
  String.length (s1 +:+ s2) = (String.length s1 + String.length s2)%nat.
Proof.
  induction s1 as [|c s1 IH]; first done.
  rewrite append_cons. simpl. by rewrite IH.
Qed.

(** ** Numbers *)

Lemma skip_digits_uint (u : Decimal.uint) (c : ascii) (rest : string) :
  isDigit c = false →
  skip_digits (NilEmpty.string_of_uint u +:+ String c rest) = String c rest.
Proof.
  intros Hc. induction u; simpl NilEmpty.string_of_uint;
    rewrite ?append_cons, ?append_empty; simpl; by rewrite ?Hc.
Qed.

(** The decimal digits of a positive number start with a digit from 1 to
    9. *)
Lemma to_uint_head (p : positive) :
  ∃ c u, NilZero.string_of_uint (Pos.to_uint p) = String c (NilEmpty.string_of_uint u)
         ∧ byte_in 49 57 c = true.
Proof.
  pose proof (DecimalPos.Unsigned.to_uint_nonzero p) as Hnz.
  assert (Decimal.unorm (Pos.to_uint p) = Pos.to_uint p) as Hnorm.
  { rewrite <- (DecimalPos.Unsigned.to_of (Pos.to_uint p)).
    by rewrite DecimalPos.Unsigned.of_to. }
  unfold Decimal.unorm in Hnorm.
  destruct (Pos.to_uint p) as [|u|u|u|u|u|u|u|u|u|u] eqn:Hp;
    try (by eexists _, u; split; [reflexivity|reflexivity]).
  - simpl in Hnorm. discriminate.
  - exfalso. destruct (Decimal.nzhead (Decimal.D0 u)) eqn:Hh; try discriminate.
    + by rewrite Hnorm in Hnz.
    + by apply DecimalFacts.nzhead_nonzero in Hh.
Qed.

(** What [%d] prints is a number, whatever follows it that goes on no
    number. *)
Lemma scan_number_fmt_d (z : Z) (c : ascii) (rest : string) :
  isDigit c = false → byte_is 46 c = false → byte_is 101 c = false →
  byte_is 69 c = false →
  scan_number (fmt_d z +:+ String c rest) = Some (String c rest).
Proof.
  intros Hd Hdot He HE.
  assert (scan_fraction (String c rest) ≫= scan_exponent = Some (String c rest))
    as Htail.
  { unfold scan_fraction. rewrite Hdot. unfold scan_exponent, mbind, option_bind.
    by rewrite He, HE. }
  assert (∀ u, scan_fraction (skip_digits (NilEmpty.string_of_uint u +:+ String c rest))
               ≫= scan_exponent = Some (String c rest)) as Hrest.
  { intros u. rewrite skip_digits_uint by done. apply Htail. }
  unfold fmt_d. destruct z as [|p|p]; simpl Z.to_int.
  - apply Htail.
  - unfold NilZero.string_of_int.
    destruct (to_uint_head p) as (d & u & -> & Hd1).
    rewrite append_cons. unfold scan_number.
    assert (byte_is 45 d = false) as ->.
    { unfold byte_is, byte_in in *. apply andb_prop in Hd1 as [H1 _].
      apply Nat.leb_le in H1. apply Nat.eqb_neq. lia. }
    assert (byte_is 48 d = false) as ->.
    { unfold byte_is, byte_in in *. apply andb_prop in Hd1 as [H1 _].
      apply Nat.leb_le in H1. apply Nat.eqb_neq. lia. }
    rewrite Hd1. apply Hrest.
  - unfold NilZero.string_of_int.
    destruct (to_uint_head p) as (d & u & -> & Hd1).
    rewrite !append_cons. unfold scan_number.
    change (byte_is 45 "-") with true. cbv iota.
    assert (byte_is 48 d = false) as ->.
    { unfold byte_is, byte_in in *. apply andb_prop in Hd1 as [H1 _].
      apply Nat.leb_le in H1. apply Nat.eqb_neq. lia. }
    rewrite Hd1. apply Hrest.
Qed.

Lemma fmt_d_head (z : Z) :
  ∃ c r, fmt_d z = String c r ∧ (byte_is 45 c || isDigit c) = true.
Proof.
  unfold fmt_d. destruct z as [|p|p]; simpl Z.to_int.
  - by eexists _, _.
  - unfold NilZero.string_of_int.
    destruct (to_uint_head p) as (d & u & -> & Hd1). eexists _, _. split; first done.
    apply orb_true_intro. right.
    apply (byte_in_weaken 49 57 48 57); [lia | lia | exact Hd1].
  - by eexists _, _.
Qed.

Lemma scan_value_fmt_d (fuel : nat) (z : Z) (rest : string) :
  scan_value (S fuel) (fmt_d z +:+ String "}" rest) = Some (String "}" rest).
Proof.
  pose proof (scan_number_fmt_d z "}" rest eq_refl eq_refl eq_refl eq_refl) as H.
  destruct (fmt_d_head z) as (c & r & Hz & Hc). rewrite Hz, append_cons in *.
  assert (isSpace c = false ∧ byte_is 123 c = false ∧ byte_is 91 c = false
          ∧ byte_is 34 c = false ∧ byte_is 116 c = false ∧ byte_is 102 c = false
          ∧ byte_is 110 c = false) as (H1 & H2 & H3 & H4 & H5 & H6 & H7).
  { unfold isSpace, isDigit, byte_is, byte_in in *.
    apply orb_prop in Hc as [Hc%Nat.eqb_eq|[Hl%Nat.leb_le Hh%Nat.leb_le]%andb_prop];
      rewrite ?orb_false_iff; split_and!; apply Nat.eqb_neq; lia. }
  simpl. by rewrite H1, H2, H3, H4, H5, H6, H7.
Qed.

(** ** Arrays of strings *)

Lemma toJSON_strings (l : list string) :
  map toJSON (map VString l) = map (λ a, quoted (appendString 0 0 a)) l.
Proof. by rewrite map_map. Qed.

Lemma scan_value_string (fuel : nat) (a rest : string) :
  scan_value (S fuel) (quoted (appendString 0 0 a) +:+ rest) = Some rest.
Proof.
  unfold quoted, dquote.
  rewrite !append_cons, !append_empty, append_assoc, append_cons, append_empty.
  simpl. by apply scan_string_appendString.
Qed.

Lemma scan_elements_S (fuel : nat) (s : string) :
  scan_elements (S fuel) s
  = match scan_value fuel s with
    | None => None
    | Some r1 =>
        match skip_space r1 with
        | EmptyString => None
        | String sep r2 =>
            if byte_is 44 sep then scan_elements fuel r2
            else if byte_is 93 sep then Some r2
            else None
        end
    end.
Proof. reflexivity. Qed.

Lemma scan_elements_strings (l : list string) (fuel : nat) (rest : string) :
  l ≠ [] →
  scan_elements (S (length l) + fuel)
    (String.concat "," (map (λ a, quoted (appendString 0 0 a)) l) +:+ String "]" rest)
  = Some rest.
Proof.
  intros Hl. induction l as [|a l IH]; first done. clear Hl.
  destruct l as [|b l].
  - change (S (length [a]) + fuel)%nat with (S (S fuel)).
    cbn [map String.concat]. by rewrite scan_elements_S, scan_value_string.
  - change (S (length (a :: b :: l)) + fuel)%nat
      with (S (S (length (b :: l)) + fuel)).
    change (String.concat "," (map (λ a, quoted (appendString 0 0 a)) (a :: b :: l)))
      with (quoted (appendString 0 0 a)
            +:+ ("," +:+ String.concat ","
                           (map (λ a, quoted (appendString 0 0 a)) (b :: l)))).
    rewrite append_assoc, scan_elements_S.
    change (S (length (b :: l)) + fuel)%nat with (S (S (length l) + fuel)) at 1.
    rewrite scan_value_string, append_assoc, append_cons, append_empty.
    cbn [skip_space]. change (isSpace ",") with false. cbv iota.
    change (byte_is 44 ",") with true. cbv iota.
    by apply IH.
Qed.

Lemma scan_value_array (fuel : nat) (s : string) :
  scan_value (S fuel) (String "[" (String (ascii_of_nat 34) s))
  = scan_elements fuel (String (ascii_of_nat 34) s).
Proof. reflexivity. Qed.

Lemma concat_quoted_head (l : list string) (rest : string) :
  l ≠ [] →
  ∃ s, String.concat "," (map (λ a, quoted (appendString 0 0 a)) l) +:+ rest
       = String (ascii_of_nat 34) s.
Proof.
  destruct l as [|a [|b l]]; first done; intros _; cbn [map String.concat];
    unfold quoted, dquote; rewrite ?append_assoc, !append_cons; eauto.
Qed.

(** The addresses that [toJSON] writes are read as one array. *)
Lemma scan_value_addresses (addresses : list string) (fuel : nat) (rest : string) :
  scan_value (S (S (length addresses) + fuel)) (Vec.addressesJSON addresses +:+ rest)
  = Some rest.
Proof.
  unfold Vec.addressesJSON. cbn [toJSON]. rewrite toJSON_strings.
  destruct (decide (addresses = [])) as [->|Hne]; first done.
  rewrite !append_assoc, append_cons, append_empty.
  destruct (concat_quoted_head addresses ("]" +:+ rest) Hne) as [s Hs].
  rewrite Hs, scan_value_array, <- Hs.
  by apply scan_elements_strings.
Qed.

Lemma scan_speedObject_any (fuel f : nat) (arr : string) (duration : Z) :
  f = S (S fuel) →
  scan_value f arr = Some ("," +:+ quoted "duration" +:+ ":" +:+ fmt_d duration +:+ "}") →
  scan_value (S (S f)) ("{" +:+ quoted "address" +:+ ":" +:+ arr) = Some "".
Proof.
  intros Hf H. unfold quoted, dquote in *. rewrite !append_cons, !append_empty in *.
  simpl. rewrite H. subst f.
  pose proof (scan_value_fmt_d fuel duration "") as Hn.
  simpl in *. by rewrite Hn.
Qed.

Lemma addressesJSON_length (addresses : list string) :
  (length addresses ≤ String.length (Vec.addressesJSON addresses))%nat.
Proof.
  unfold Vec.addressesJSON. cbn [toJSON]. rewrite toJSON_strings, append_cons.
  rewrite append_empty. cbn [String.length]. rewrite length_append.
  enough (length addresses
          ≤ String.length (String.concat ","
                             (map (λ a, quoted (appendString 0 0 a)) addresses)))%nat
    by lia.
  induction addresses as [|a [|b l] IH]; first done.
  - cbn [map String.concat]. unfold quoted, dquote. rewrite append_cons. simpl. lia.
  - change (String.concat "," (map (λ a, quoted (appendString 0 0 a)) (a :: b :: l)))
      with (quoted (appendString 0 0 a)
            +:+ ("," +:+ String.concat ","
                           (map (λ a, quoted (appendString 0 0 a)) (b :: l)))).
    rewrite !length_append. simpl in *. lia.
Qed.

(** The payloads of the batch queries. *)
Definition speedPayloads (addresses : list string) (duration : Z) : GoValue :=
  VStruct [("address", VSlice (map VString addresses)); ("duration", VInt duration)].
Definition addressPayloads (addresses : list string) : GoValue :=
  VStruct [("address", VSlice (map VString addresses))].

Lemma toJSON_payloads (addresses : list string) (duration : Z) :
  Vec.speedBody addresses duration = toJSON (speedPayloads addresses duration)
  ∧ Vec.addressBody addresses = toJSON (addressPayloads addresses).
Proof.
  unfold Vec.speedBody, Vec.addressBody, Vec.addressesJSON, speedPayloads,
    addressPayloads.
  split.
  - change (toJSON (VStruct [("address", VSlice (map VString addresses));
                             ("duration", VInt duration)]))
      with ("{" +:+ ((quoted (appendString 0 0 "address") +:+ ":"
                      +:+ toJSON (VSlice (map VString addresses)))
                     +:+ "," +:+ quoted (appendString 0 0 "duration") +:+ ":"
                     +:+ fmt_d duration) +:+ "}").
    change (appendString 0 0 "address") with "address".
    change (appendString 0 0 "duration") with "duration".
    by rewrite !append_assoc.
  - change (toJSON (VStruct [("address", VSlice (map VString addresses))]))
      with ("{" +:+ (quoted (appendString 0 0 "address") +:+ ":"
                     +:+ toJSON (VSlice (map VString addresses))) +:+ "}").
    change (appendString 0 0 "address") with "address".
    by rewrite !append_assoc.
Qed.

(** X5.  The bodies the second revision builds with [toJSON] are the
    encodings [json.Marshal] gives of the payloads, and they are
    well-formed JSON, for every list of addresses, whatever bytes the
    addresses hold, and for every duration. *)
Theorem batch_bodies_are_json (addresses : list string) (duration : Z) :
  Vec.speedBody addresses duration = toJSON (speedPayloads addresses duration)
  ∧ Vec.addressBody addresses = toJSON (addressPayloads addresses)
  ∧ json_Valid (Vec.speedBody addresses duration) = true
  ∧ json_Valid (Vec.addressBody addresses) = true.
Proof.
  destruct (toJSON_payloads addresses duration) as [Hs Ha].
  split; first done. split; first done. clear Hs Ha.
  pose proof (addressesJSON_length addresses) as Hlen.
  split; unfold json_Valid.
  - unfold Vec.speedBody.
    rewrite addressObject_length, length_append.
    set (tail := "," +:+ quoted "duration" +:+ ":" +:+ fmt_d duration +:+ "}").
    set (n := String.length (Vec.addressesJSON addresses)) in *.
    replace (S (S (S (S (S (S (6 + (n + String.length tail))))))))
      with (S (S (S (S (length addresses)
                     + (8 + (n - length addresses) + String.length tail)))))
      by lia.
    erewrite scan_speedObject_any; [done | reflexivity |].
    apply scan_value_addresses.
  - unfold Vec.addressBody.
    rewrite addressObject_length, length_append.
    set (n := String.length (Vec.addressesJSON addresses)) in *.
    replace (S (S (S (S (S (S (6 + (n + String.length "}"))))))))
      with (S (S (S (S (length addresses) + (9 + (n - length addresses))))))
      by (change (String.length "}") with 1%nat; lia).
    erewrite scan_addressObject; last by apply scan_value_addresses.
    done.
Qed.

(** ** The vocabulary of the statements about the vectors *)

Section VecVocabulary.
Context `{rt : GoRuntime}.

(** What a collector is registered with: the descriptor and, for a
    vector, the names of the variable labels. *)
Definition vecShape (v : Vec.GaugeVec) : Desc * list string :=
  (Vec.vec_desc v, Vec.variableLabels v).

Definition shapes (cs : Vec.Collectors) : list (Desc * list string) :=
  [vecShape (Vec.proverSpeed cs); vecShape (Vec.totalSpeed cs);
   vecShape (Vec.totalReward cs); vecShape (Vec.proverHeight cs);
   (desc (Vec.latestBlockHeight cs), []); (desc (Vec.proofTarget cs), []);
   (desc (Vec.coinbaseReward cs), [])].

(** The collectors of the package, whatever their children and values. *)
Definition packaged (cs : Vec.Collectors) : Prop := shapes cs = shapes Vec.collectors.

(** The metrics of the seven collectors, as one push sends them. *)
Definition metrics_of (cs : Vec.Collectors) : list Gauge :=
  Vec.Collect (Vec.proverSpeed cs) ++ Vec.Collect (Vec.totalSpeed cs)
  ++ Vec.Collect (Vec.totalReward cs) ++ Vec.Collect (Vec.proverHeight cs)
  ++ [Vec.latestBlockHeight cs; Vec.proofTarget cs; Vec.coinbaseReward cs].

(** A computation that returns a result with [P], leaves the default
    registry as it was and pushes nothing. *)
Definition calm {A} (P : A → Prop) (s : State)
    (o : Outcome A) (s' : State) (t : list Event) : Prop :=
  (∃ a, o = Ret a ∧ P a)
  ∧ DefaultRegisterer s' = DefaultRegisterer s
  ∧ pushes_of t = [].

(** The decoders give label values that are valid UTF-8, as
    encoding/json does: it puts the replacement character where the
    text has bytes that are not. *)
Record DecodesUTF8 : Prop := {
  speed_utf8 : ∀ data r,
    json_Unmarshal_speed data = Ok r →
    Forall (λ item, utf8_ValidString (si_Address item) = true) (sp_List r);
  reward_utf8 : ∀ data r,
    json_Unmarshal_reward data = Ok r →
    Forall (λ item, utf8_ValidString (ri_Address item) = true) (rw_List r);
  height_utf8 : ∀ data r,
    json_Unmarshal_height data = Ok r →
    Forall (λ item, utf8_ValidString (hi_Address item) = true) r
}.
End VecVocabulary.

Arguments speed_utf8 {rt} _.
Arguments reward_utf8 {rt} _.
Arguments height_utf8 {rt} _.

(** ** Cycles of the second revision *)

Section VecPusher.
Context `{rt : GoRuntime}.

Lemma RegisterVec_new_name (v : Vec.GaugeVec) (r : Registry) :
  descValid (Vec.vec_desc v) = true →
  dimHashesByName r !! fqName (Vec.vec_desc v) = None →
  descID (Vec.vec_desc v) ∉ descIDs r →
  Vec.RegisterVec v r
  = Ok (mkRegistry ({[ descID (Vec.vec_desc v) ]} ∪ descIDs r)
          (<[ fqName (Vec.vec_desc v) := Vec.vecDimHash v ]> (dimHashesByName r))).
Proof.
  intros Hv Hn Hi. unfold Vec.RegisterVec. cbv zeta. rewrite Hv, Hn.
  by rewrite decide_False.
Qed.

(** The pusher of a cycle takes the seven collectors. *)
Lemma pusher_packaged (url : string) (cs : Vec.Collectors) :
  packaged cs →
  ∃ r, Vec.pusher url cs = mkPusher url "prover_metrics" r (metrics_of cs) None.
Proof.
  unfold packaged, shapes, vecShape.
  intros [= Hps1 Hps2 Hts1 Hts2 Htr1 Htr2 Hph1 Hph2 Hl Hp Hc].
  eexists. unfold Vec.pusher, push_New. rewrite decide_False by done.
  unfold Vec.CollectorVec at 4. simpl.
  rewrite RegisterVec_new_name by (rewrite Hps1; simpl; first [done | set_solver]).
  unfold Vec.CollectorVec at 3. simpl.
  rewrite RegisterVec_new_name; first last.
  { rewrite Hts1, Hps1. simpl. set_solver. }
  { rewrite Hts1, Hps1. simpl. by rewrite lookup_insert_ne. }
  { by rewrite Hts1. }
  unfold Vec.CollectorVec at 2. simpl.
  rewrite RegisterVec_new_name; first last.
  { rewrite Htr1, Hts1, Hps1. simpl. set_solver. }
  { rewrite Htr1, Hts1, Hps1. simpl. by rewrite !lookup_insert_ne. }
  { by rewrite Htr1. }
  unfold Vec.CollectorVec at 1. simpl.
  rewrite RegisterVec_new_name; first last.
  { rewrite Hph1, Htr1, Hts1, Hps1. simpl. set_solver. }
  { rewrite Hph1, Htr1, Hts1, Hps1. simpl. by rewrite !lookup_insert_ne. }
  { by rewrite Hph1. }
  unfold Collector at 3. simpl.
  rewrite Register_new_name; first last.
  { rewrite Hl, Hph1, Htr1, Hts1, Hps1. simpl. set_solver. }
  { rewrite Hl, Hph1, Htr1, Hts1, Hps1. simpl. by rewrite !lookup_insert_ne. }
  { by rewrite Hl. }
  unfold Collector at 2. simpl.
  rewrite Register_new_name; first last.
  { rewrite Hp, Hl, Hph1, Htr1, Hts1, Hps1. simpl. set_solver. }
  { rewrite Hp, Hl, Hph1, Htr1, Hts1, Hps1. simpl. by rewrite !lookup_insert_ne. }
  { by rewrite Hp. }
  unfold Collector at 1. simpl.
  rewrite Register_new_name; first last.
  { rewrite Hc, Hp, Hl, Hph1, Htr1, Hts1, Hps1. simpl. set_solver. }
  { rewrite Hc, Hp, Hl, Hph1, Htr1, Hts1, Hps1. simpl. by rewrite !lookup_insert_ne. }
  { by rewrite Hc. }
  simpl. f_equal. unfold metrics_of. by rewrite <- !app_assoc.
Qed.
End VecPusher.

Section VecCycle.
Context `{rt : GoRuntime}.
Variables pushgatewayURL apiBaseURL : string.
Variable addresses : list string.
Hypothesis decodes : DecodesUTF8.

Lemma calm_bind {A B} (P : A → Prop) (Q : B → Prop) (m : M A) (k : A → M B)
    (s : State) :
  wp m s (calm P s) →
  (∀ a s1, P a → wp (k a) s1 (calm Q s1)) →
  wp (m ≫= k) s (calm Q s).
Proof.
  intros Hm Hk. apply wp_bind. eapply wp_mono; first exact Hm.
  intros o s1 t1 ((a & -> & Ha) & Hreg & Hpushes).
  eapply wp_mono; first by apply Hk.
  intros o s2 t2 (Hret & Hreg' & Hpushes').
  split_and!; [done | congruence |].
  by rewrite pushes_of_app, Hpushes, Hpushes'.
Qed.

Lemma calm_ret {A} (P : A → Prop) (a : A) (s : State) :
  P a → wp (mret a) s (calm P s).
Proof. intros Ha. apply wp_ret. split_and!; eauto. Qed.

Lemma calm_log_Printf {B} (Q : B → Prop) format args (k : M B) (s : State) :
  wp k s (calm Q s) → wp (log_Printf format args;; k) s (calm Q s).
Proof. intros Hk. by apply wp_log_Printf. Qed.

Lemma calm_log_Println {B} (Q : B → Prop) str (k : M B) (s : State) :
  wp k s (calm Q s) → wp (log_Println str;; k) s (calm Q s).
Proof. intros Hk. by apply wp_log_Println. Qed.

Lemma calm_log_error (err : option error) (format : string) (args : error → list Arg)
    (s : State) :
  wp (match err with
      | Some e => log_Printf format (args e)
      | None => mret tt
      end) s (calm (λ _, True) s).
Proof.
  destruct err as [e|]; last by apply calm_ret.
  unfold wp, calm. simpl. split_and!; eauto.
Qed.

Lemma calm_fetchData (url body : string) (s : State) :
  wp (fetchData url body) s (calm (λ _, True) s).
Proof.
  unfold wp, calm. rewrite fetchData_run.
  destruct (url_Parse url); first by (split_and!; eauto).
  simpl. destruct (client_Do _ _).1 as [resp|]; last by (split_and!; eauto).
  destruct (RespBody resp); split_and!; eauto.
Qed.

Lemma calm_Set (g : Gauge) (v : float64) (s : State) :
  wp (Set_ g v) s (calm (λ g', desc g' = desc g) s).
Proof. unfold wp, calm. simpl. split_and!; eauto. Qed.

Lemma calm_WithLabelValues_Set (v : Vec.GaugeVec) (lvs : list string) (x : float64)
    (s : State) :
  length lvs = length (Vec.variableLabels v) →
  Forall (λ lv, utf8_ValidString lv = true) lvs →
  wp (Vec.WithLabelValues_Set v lvs x) s (calm (λ v', vecShape v' = vecShape v) s).
Proof.
  intros Hlen Hvalid. unfold Vec.WithLabelValues_Set, Vec.validateLabelValues.
  rewrite decide_True by done.
  assert (forallb utf8_ValidString lvs = true) as ->.
  { clear Hlen. induction Hvalid as [|lv lvs Hlv _ IH]; first done.
    simpl. by rewrite Hlv, IH. }
  unfold wp, calm. simpl. split_and!; eauto.
Qed.

Lemma calm_speedLoop (durationName : string) (v : Vec.GaugeVec)
    (items : list SpeedItem) (s : State) :
  utf8_ValidString durationName = true →
  length (Vec.variableLabels v) = 2%nat →
  Forall (λ item, utf8_ValidString (si_Address item) = true) items →
  wp (Vec.speedLoop durationName v items) s (calm (λ v', vecShape v' = vecShape v) s).
Proof.
  intros Hdn. revert v s. induction items as [|item items IH]; intros v s Hlen Hitems;
    first by apply calm_ret.
  apply Forall_cons in Hitems as [Hitem Hitems].
  simpl Vec.speedLoop. destruct (parseFloat (si_Speed item)) as [speed|e].
  - eapply calm_bind.
    { apply calm_WithLabelValues_Set; first done. by repeat constructor. }
    intros v' s1 Hv'. simpl in Hv'. apply calm_log_Printf.
    eapply wp_mono.
    { apply IH; last done. injection Hv' as _ ->. done. }
    intros o s2 t2 ((v'' & -> & Hv'') & ? & ?). split_and!; try done.
    exists v''. split; first done. congruence.
  - apply calm_log_Printf. by apply IH.
Qed.

Lemma calm_rewardLoop (v : Vec.GaugeVec) (items : list RewardItem) (s : State) :
  length (Vec.variableLabels v) = 1%nat →
  Forall (λ item, utf8_ValidString (ri_Address item) = true) items →
  wp (Vec.rewardLoop v items) s (calm (λ v', vecShape v' = vecShape v) s).
Proof.
  revert v s. induction items as [|item items IH]; intros v s Hlen Hitems;
    first by apply calm_ret.
  apply Forall_cons in Hitems as [Hitem Hitems].
  simpl Vec.rewardLoop. destruct (parseFloat (ri_TotalReward item)) as [x|e].
  - eapply calm_bind.
    { apply calm_WithLabelValues_Set; first done. by repeat constructor. }
    intros v' s1 Hv'. simpl in Hv'. apply calm_log_Printf.
    eapply wp_mono.
    { apply IH; last done. injection Hv' as _ ->. done. }
    intros o s2 t2 ((v'' & -> & Hv'') & ? & ?). split_and!; try done.
    exists v''. split; first done. congruence.
  - apply calm_log_Printf. by apply IH.
Qed.

Lemma calm_heightLoop (v : Vec.GaugeVec) (items : list HeightItem) (s : State) :
  length (Vec.variableLabels v) = 1%nat →
  Forall (λ item, utf8_ValidString (hi_Address item) = true) items →
  wp (Vec.heightLoop v items) s (calm (λ v', vecShape v' = vecShape v) s).
Proof.
  revert v s. induction items as [|item items IH]; intros v s Hlen Hitems;
    first by apply calm_ret.
  apply Forall_cons in Hitems as [Hitem Hitems].
  simpl Vec.heightLoop.
  eapply calm_bind.
  { apply calm_WithLabelValues_Set; first done. by repeat constructor. }
  intros v' s1 Hv'. simpl in Hv'. apply calm_log_Printf.
  eapply wp_mono.
  { apply IH; last done. injection Hv' as _ ->. done. }
  intros o s2 t2 ((v'' & -> & Hv'') & ? & ?). split_and!; try done.
  exists v''. split; first done. congruence.
Qed.

Lemma packaged_labels (cs : Vec.Collectors) :
  packaged cs →
  length (Vec.variableLabels (Vec.proverSpeed cs)) = 2%nat
  ∧ length (Vec.variableLabels (Vec.totalSpeed cs)) = 1%nat
  ∧ length (Vec.variableLabels (Vec.totalReward cs)) = 1%nat
  ∧ length (Vec.variableLabels (Vec.proverHeight cs)) = 1%nat.
Proof.
  unfold packaged, shapes, vecShape.
  intros [= _ -> _ -> _ -> _ -> _ _ _]. done.
Qed.

Lemma calm_fetchProverSpeed (cs : Vec.Collectors) (duration : Z)
    (durationName : string) (s : State) :
  packaged cs →
  utf8_ValidString durationName = true →
  wp (Vec.fetchProverSpeed apiBaseURL cs addresses duration durationName) s
    (calm (λ r, packaged r.2) s).
Proof.
  intros Hcs Hdn. destruct (packaged_labels cs Hcs) as (Hps & Hts & _ & _).
  unfold Vec.fetchProverSpeed. cbv zeta.
  eapply calm_bind; first apply calm_fetchData.
  intros [data|err] s1 _; last by apply calm_ret.
  destruct (json_Unmarshal_speed data) as [r|err] eqn:Hr; last by apply calm_ret.
  eapply calm_bind.
  { apply calm_speedLoop; [done..|]. by eapply (speed_utf8 decodes). }
  intros ps s2 Hshape. simpl in Hshape.
  destruct (parseFloat (sp_Total r)) as [x|e].
  - eapply calm_bind.
    { apply calm_WithLabelValues_Set; first done. by repeat constructor. }
    intros ts s3 Hshape'. simpl in Hshape'.
    apply calm_log_Printf, calm_ret. simpl.
    unfold packaged, shapes in *. simpl. by rewrite Hshape, Hshape'.
  - apply calm_log_Printf, calm_ret. simpl.
    unfold packaged, shapes in *. simpl. by rewrite Hshape.
Qed.

Lemma calm_fetchProverReward (cs : Vec.Collectors) (s : State) :
  packaged cs →
  wp (Vec.fetchProverReward apiBaseURL cs addresses) s (calm (λ r, packaged r.2) s).
Proof.
  intros Hcs. destruct (packaged_labels cs Hcs) as (_ & _ & Htr & _).
  unfold Vec.fetchProverReward. cbv zeta.
  eapply calm_bind; first apply calm_fetchData.
  intros [data|err] s1 _; last by apply calm_ret.
  destruct (json_Unmarshal_reward data) as [r|err] eqn:Hr; last by apply calm_ret.
  eapply calm_bind.
  { apply calm_rewardLoop; first done. by eapply (reward_utf8 decodes). }
  intros tr s2 Hshape. simpl in Hshape. apply calm_ret. simpl.
  unfold packaged, shapes in *. simpl. by rewrite Hshape.
Qed.

Lemma calm_fetchProverLatestHeight (cs : Vec.Collectors) (s : State) :
  packaged cs →
  wp (Vec.fetchProverLatestHeight apiBaseURL cs addresses) s
    (calm (λ r, packaged r.2) s).
Proof.
  intros Hcs. destruct (packaged_labels cs Hcs) as (_ & _ & _ & Hph).
  unfold Vec.fetchProverLatestHeight. cbv zeta.
  eapply calm_bind; first apply calm_fetchData.
  intros [data|err] s1 _; last by apply calm_ret.
  destruct (json_Unmarshal_height data) as [r|err] eqn:Hr; last by apply calm_ret.
  eapply calm_bind.
  { apply calm_heightLoop; first done. by eapply (height_utf8 decodes). }
  intros ph s2 Hshape. simpl in Hshape. apply calm_ret. simpl.
  unfold packaged, shapes in *. simpl. by rewrite Hshape.
Qed.

Lemma calm_fetchLatestBlock (cs : Vec.Collectors) (s : State) :
  packaged cs →
  wp (Vec.fetchLatestBlock apiBaseURL cs) s (calm (λ r, packaged r.2) s).
Proof.
  intros Hcs. unfold Vec.fetchLatestBlock. cbv zeta.
  eapply calm_bind; first apply calm_fetchData.
  intros [data|err] s1 _; last by apply calm_ret.
  apply calm_log_Printf.
  destruct (json_Unmarshal_block data) as [r|err]; last by apply calm_ret.
  eapply calm_bind; first apply calm_Set.
  intros lbh s2 Hl. simpl in Hl. apply calm_log_Printf.
  destruct (parseFloat (bl_ProofTarget r)) as [x|e].
  2: { apply calm_log_Printf, calm_ret. simpl.
       unfold packaged, shapes in *. simpl. by rewrite Hl. }
  eapply calm_bind; first apply calm_Set.
  intros pt s3 Hp. simpl in Hp. apply calm_log_Printf.
  destruct (parseFloat (bl_CoinbaseReward r)) as [y|e].
  2: { apply calm_log_Printf, calm_ret. simpl.
       unfold packaged, shapes in *. simpl. by rewrite Hl, Hp. }
  eapply calm_bind; first apply calm_Set.
  intros cr s4 Hc. simpl in Hc. apply calm_log_Printf, calm_ret. simpl.
  unfold packaged, shapes in *. simpl. by rewrite Hl, Hp, Hc.
Qed.

Lemma calm_durationLoop (cs : Vec.Collectors) (ds : list (string * Z)) (s : State) :
  packaged cs →
  Forall (λ d, utf8_ValidString d.1 = true) ds →
  wp (Vec.durationLoop apiBaseURL addresses cs ds) s (calm packaged s).
Proof.
  revert cs s. induction ds as [|[dn d] ds IH]; intros cs s Hcs Hds;
    first by apply calm_ret.
  apply Forall_cons in Hds as [Hdn Hds]. simpl in Hdn.
  simpl Vec.durationLoop. apply calm_log_Printf.
  eapply calm_bind; first by apply calm_fetchProverSpeed.
  intros r s1 Hr. simpl in Hr.
  eapply calm_bind.
  { apply (calm_log_error r.1 _ (λ e, [AStr dn; AErr e])). }
  intros _ s2 _. by apply IH.
Qed.

Lemma durations_utf8 (ds : list (string * Z)) :
  ds ≡ₚ durations → Forall (λ d, utf8_ValidString d.1 = true) ds.
Proof. intros ->. by repeat constructor. Qed.

(** What a cycle leaves: the collectors of the package, the default
    registry as it was, and one push, of all the collectors. *)
Definition after_push (s : State)
    (o : Outcome Vec.Collectors) (s' : State) (t : list Event) : Prop :=
  ∃ cs', o = Ret cs' ∧ packaged cs'
         ∧ DefaultRegisterer s' = DefaultRegisterer s
         ∧ pushes_of t = [pushRequest pushgatewayURL "prover_metrics" (metrics_of cs')].

Lemma after_push_bind {A} (P : A → Prop) (m : M A) (k : A → M Vec.Collectors)
    (s : State) :
  wp m s (calm P s) →
  (∀ a s1, P a → wp (k a) s1 (after_push s1)) →
  wp (m ≫= k) s (after_push s).
Proof.
  intros Hm Hk. apply wp_bind. eapply wp_mono; first exact Hm.
  intros o s1 t1 ((a & -> & Ha) & Hreg & Hpushes).
  eapply wp_mono; first by apply Hk.
  intros o s2 t2 (cs' & -> & Hcs' & Hreg' & Hpushes').
  exists cs'. split_and!; [done | done | congruence |].
  by rewrite pushes_of_app, Hpushes, Hpushes'.
Qed.

Lemma after_push_log_Println str (k : M Vec.Collectors) (s : State) :
  wp k s (after_push s) → wp (log_Println str;; k) s (after_push s).
Proof. intros Hk. by apply wp_log_Println. Qed.

Lemma fetchDataAndPush_pushes (cs : Vec.Collectors) (s : State) :
  packaged cs →
  wp (Vec.fetchDataAndPush pushgatewayURL apiBaseURL addresses cs) s (after_push s).
Proof.
  intros Hcs. unfold Vec.fetchDataAndPush.
  apply after_push_log_Println.
  eapply (after_push_bind (λ ds, ds ≡ₚ durations)).
  { pose proof (map_range_perm durations (world s)) as Hperm.
    unfold wp, with_world, outcome_of, state_of, trace_of, calm.
    destruct (map_range durations (world s)) as [ds w]. simpl in *.
    split_and!; eauto. }
  intros ds s1 Hperm.
  eapply after_push_bind; first by apply calm_durationLoop, durations_utf8.
  intros cs1 s2 Hcs1. apply after_push_log_Println.
  eapply after_push_bind; first by apply calm_fetchProverReward.
  intros r1 s3 Hr1. simpl in Hr1.
  eapply after_push_bind; first apply (calm_log_error r1.1 _ (λ e, [AErr e])).
  intros _ s4 _. apply after_push_log_Println.
  eapply after_push_bind; first by apply calm_fetchProverLatestHeight.
  intros r2 s5 Hr2. simpl in Hr2.
  eapply after_push_bind; first apply (calm_log_error r2.1 _ (λ e, [AErr e])).
  intros _ s6 _. apply after_push_log_Println.
  eapply after_push_bind; first by apply calm_fetchLatestBlock.
  intros r3 s7 Hr3. simpl in Hr3.
  eapply after_push_bind; first apply (calm_log_error r3.1 _ (λ e, [AErr e])).
  intros _ s8 _. apply after_push_log_Println.
  destruct (pusher_packaged pushgatewayURL r3.2 Hr3) as [reg Hp].
  apply wp_bind. eapply wp_eq.
  { rewrite Hp. by apply Push_run. }
  simpl. exists r3.2.
  destruct (gateway_Do _ _).1; unfold wp, outcome_of, state_of, trace_of; simpl;
    by split_and!.
Qed.

(** X6.  A cycle of the second revision returns, whatever the API and
    the Pushgateway do: it leaves the default registry alone, and it sends
    exactly one push, under the job prover_metrics, of all the metrics the
    seven collectors hold when the cycle ends. *)
Theorem cycle_pushes_once (cs : Vec.Collectors) (s : State) :
  packaged cs →
  ∃ cs' s' t,
    Vec.fetchDataAndPush pushgatewayURL apiBaseURL addresses cs s = (Ret cs', s', t)
    ∧ packaged cs'
    ∧ DefaultRegisterer s' = DefaultRegisterer s
    ∧ pushes_of t = [mkPushRequest pushgatewayURL "prover_metrics" (metrics_of cs')].
Proof.
  intros Hcs. pose proof (fetchDataAndPush_pushes cs s Hcs) as H.
  unfold wp, after_push, outcome_of, state_of, trace_of in H.
  destruct (Vec.fetchDataAndPush _ _ _ cs s) as [[o s'] t]. simpl in H.
  destruct H as (cs' & -> & ? & ? & ?). by exists cs', s', t.
Qed.




End VecCycle.

(** ** An outage, for the second revision *)

Section VecOutage.
Context `{rt : GoRuntime}.
Variables pushgatewayURL apiBaseURL : string.
Variable addresses : list string.
Variable down : Ext → Prop.
Hypothesis unreachable : Unreachable apiBaseURL down.

Hypothesis speedURL_parses : url_Parse (speedURL apiBaseURL) = None.
Hypothesis rewardURL_parses : url_Parse (rewardURL apiBaseURL) = None.
Hypothesis heightURL_parses : url_Parse (heightURL apiBaseURL) = None.
Hypothesis blockURL_parses : url_Parse (blockURL apiBaseURL) = None.

(** A computation that returns a result with [P] and does nothing that
    shows but sending requests: no gauge is set, nothing is pushed, and
    the world is still down. *)
Definition idle {A} (P : A → Prop) (s : State)
    (o : Outcome A) (s' : State) (t : list Event) : Prop :=
  (∃ a, o = Ret a ∧ P a)
  ∧ down (world s')
  ∧ sets_of t = []
  ∧ pushes_of t = [].

Lemma idle_bind {A B} (P : A → Prop) (Q : B → Prop) (m : M A) (k : A → M B)
    (s : State) :
  wp m s (idle P s) →
  (∀ a s1, P a → down (world s1) → wp (k a) s1 (idle Q s1)) →
  wp (m ≫= k) s (idle Q s).
Proof.
  intros Hm Hk. apply wp_bind. eapply wp_mono; first exact Hm.
  intros o s1 t1 ((a & -> & Ha) & Hdown & Hsets & Hpushes).
  eapply wp_mono; first by apply Hk.
  intros o s2 t2 (Hret & Hdown' & Hsets' & Hpushes').
  split_and!; [done | done | |].
  - by rewrite sets_of_app, Hsets, Hsets'.
  - by rewrite pushes_of_app, Hpushes, Hpushes'.
Qed.

Lemma idle_ret {A} (P : A → Prop) (a : A) (s : State) :
  P a → down (world s) → wp (mret a) s (idle P s).
Proof. intros Ha Hdown. apply wp_ret. split_and!; eauto. Qed.

Lemma idle_log_Printf {B} (Q : B → Prop) format args (k : M B) (s : State) :
  wp k s (idle Q s) → wp (log_Printf format args;; k) s (idle Q s).
Proof. intros Hk. by apply wp_log_Printf. Qed.

Lemma idle_log_Println {B} (Q : B → Prop) str (k : M B) (s : State) :
  wp k s (idle Q s) → wp (log_Println str;; k) s (idle Q s).
Proof. intros Hk. by apply wp_log_Println. Qed.

Lemma idle_log_error (err : option error) (format : string) (args : error → list Arg)
    (s : State) :
  down (world s) →
  wp (match err with
      | Some e => log_Printf format (args e)
      | None => mret tt
      end) s (idle (λ _, True) s).
Proof.
  intros Hdown. destruct err as [e|]; last by apply idle_ret.
  unfold wp, idle. simpl. split_and!; eauto.
Qed.

(** A fetch function whose [fetchData] fails returns the error and the
    collectors as they were. *)
Lemma idle_fetch (url body : string) (cs : Vec.Collectors)
    (k : string → M (option error * Vec.Collectors)) (s : State) :
  url ∈ [speedURL apiBaseURL; rewardURL apiBaseURL;
         heightURL apiBaseURL; blockURL apiBaseURL] →
  down (world s) →
  wp (r ← fetchData url body;
      match r with
      | Fail err => mret (Some err, cs)
      | Ok data => k data
      end) s (idle (λ r, r.2 = cs) s).
Proof.
  intros Hurl Hdown.
  destruct (fetchData_down apiBaseURL down unreachable speedURL_parses
              rewardURL_parses heightURL_parses blockURL_parses url body s Hurl Hdown)
    as (err & s1 & Hrun & Hreg & Hdown').
  eapply wp_bind_eq; first exact Hrun.
  unfold wp, idle. simpl. split_and!; eauto.
Qed.

Lemma idle_durationLoop (cs : Vec.Collectors) (ds : list (string * Z)) (s : State) :
  down (world s) →
  wp (Vec.durationLoop apiBaseURL addresses cs ds) s (idle (λ cs', cs' = cs) s).
Proof.
  revert s. induction ds as [|[dn d] ds IH]; intros s Hdown;
    first by apply idle_ret.
  simpl Vec.durationLoop. apply idle_log_Printf.
  eapply idle_bind.
  { unfold Vec.fetchProverSpeed. cbv zeta. apply idle_fetch; [|done].
    set_solver. }
  intros r s1 Hr Hdown1. simpl in Hr.
  eapply idle_bind.
  { by apply (idle_log_error r.1 _ (λ e, [AStr dn; AErr e])). }
  intros _ s2 _ Hdown2. rewrite Hr. by apply IH.
Qed.

(** X8.  While the API cannot be reached, a cycle of the second
    revision sets no gauge and still pushes: it sends the Pushgateway the
    metrics the collectors held before the cycle, once more. *)
Theorem outage_repushes (cs : Vec.Collectors) (s : State) :
  packaged cs →
  down (world s) →
  ∃ s' t,
    Vec.fetchDataAndPush pushgatewayURL apiBaseURL addresses cs s = (Ret cs, s', t)
    ∧ sets_of t = []
    ∧ pushes_of t = [mkPushRequest pushgatewayURL "prover_metrics" (metrics_of cs)].
Proof.
  intros Hcs Hdown.
  assert (wp (Vec.fetchDataAndPush pushgatewayURL apiBaseURL addresses cs) s
            (λ o s' t,
               o = Ret cs ∧ sets_of t = []
               ∧ pushes_of t
                 = [mkPushRequest pushgatewayURL "prover_metrics" (metrics_of cs)]))
    as H.
  { assert (∀ {A} (P : A → Prop) (m : M A) (k : A → M Vec.Collectors) s,
              wp m s (idle P s) →
              (∀ a s1, P a → down (world s1) →
                 wp (k a) s1 (λ o s' t,
                   o = Ret cs ∧ sets_of t = []
                   ∧ pushes_of t
                     = [mkPushRequest pushgatewayURL "prover_metrics" (metrics_of cs)])) →
              wp (m ≫= k) s (λ o s' t,
                   o = Ret cs ∧ sets_of t = []
                   ∧ pushes_of t
                     = [mkPushRequest pushgatewayURL "prover_metrics" (metrics_of cs)]))
      as Hbind.
    { intros A P m k s0 Hm Hk. apply wp_bind. eapply wp_mono; first exact Hm.
      intros o s1 t1 ((a & -> & Ha) & Hdown1 & Hsets & Hpushes).
      eapply wp_mono; first by apply Hk.
      intros o s2 t2 (-> & Hsets' & Hpushes'). split_and!; first done.
      - by rewrite sets_of_app, Hsets, Hsets'.
      - by rewrite pushes_of_app, Hpushes, Hpushes'. }
    unfold Vec.fetchDataAndPush. apply wp_log_Println.
    eapply (Hbind _ (λ _, True)).
    { pose proof (unreachable_range unreachable (world s) durations Hdown) as Hw.
      unfold wp, with_world, outcome_of, state_of, trace_of, idle.
      destruct (map_range durations (world s)) as [ds w]. simpl in *.
      split_and!; eauto. }
    intros ds s1 _ Hdown1.
    eapply Hbind; first by apply idle_durationLoop.
    intros cs1 s2 -> Hdown2. apply wp_log_Println.
    eapply Hbind.
    { unfold Vec.fetchProverReward. cbv zeta. apply idle_fetch; [|done].
      set_solver. }
    intros r1 s3 Hr1 Hdown3. simpl in Hr1.
    eapply Hbind; first by apply (idle_log_error r1.1 _ (λ e, [AErr e])).
    intros _ s4 _ Hdown4. apply wp_log_Println. rewrite Hr1.
    eapply Hbind.
    { unfold Vec.fetchProverLatestHeight. cbv zeta.
      apply idle_fetch; [|done]. set_solver. }
    intros r2 s5 Hr2 Hdown5. simpl in Hr2.
    eapply Hbind; first by apply (idle_log_error r2.1 _ (λ e, [AErr e])).
    intros _ s6 _ Hdown6. apply wp_log_Println. rewrite Hr2.
    eapply Hbind.
    { unfold Vec.fetchLatestBlock. cbv zeta.
      apply idle_fetch; [|done]. set_solver. }
    intros r3 s7 Hr3 Hdown7. simpl in Hr3.
    eapply Hbind; first by apply (idle_log_error r3.1 _ (λ e, [AErr e])).
    intros _ s8 _ Hdown8. apply wp_log_Println. rewrite Hr3.
    destruct (pusher_packaged pushgatewayURL cs Hcs) as [reg Hp].
    apply wp_bind. eapply wp_eq.
    { rewrite Hp. by apply Push_run. }
    simpl.
    destruct (gateway_Do _ _).1; unfold wp, outcome_of, state_of, trace_of; simpl;
      by split_and!. }
  unfold wp, outcome_of, state_of, trace_of in H.
  destruct (Vec.fetchDataAndPush _ _ _ cs s) as [[o s'] t]. simpl in H.
  destruct H as (-> & ? & ?). by exists s', t.
Qed.
End VecOutage.

(** ** The children of a vector *)

Section VecChildren.
Context `{rt : GoRuntime}.

(** The speeds that the items of a response give the child with the
    label values [lvs], in order: those of its address that parse. *)
Definition speedsFor (durationName : string) (lvs : list string)
    (items : list SpeedItem) : list float64 :=
  omap (λ item,
          if decide (lvs = [si_Address item; durationName])
          then parsed (si_Speed item) else None) items.

Lemma WithLabelValues_Set_children (v v' : Vec.GaugeVec) (lvs : list string)
    (x : float64) (s s' : State) (t : list Event) :
  Vec.WithLabelValues_Set v lvs x s = (Ret v', s', t) →
  s' = s ∧ Vec.children v' = <[ lvs := x ]> (Vec.children v).
Proof.
  unfold Vec.WithLabelValues_Set.
  destruct (Vec.validateLabelValues _ _); first done.
  by intros [= <- <- _].
Qed.

(** X9.  After the loop of [fetchProverSpeed] every child of the
    prover_speed vector holds the speed of the last item of its address
    that parses, and a child that no such item names holds what it held
    before: there is a child, with its old value, for every address an
    earlier response named. *)
Theorem speedLoop_children (durationName : string) (v v' : Vec.GaugeVec)
    (items : list SpeedItem) (s s' : State) (t : list Event) (lvs : list string) :
  Vec.speedLoop durationName v items s = (Ret v', s', t) →
  Vec.children v' !! lvs
  = match last (speedsFor durationName lvs items) with
    | Some x => Some x
    | None => Vec.children v !! lvs
    end.
Proof.
  revert v s t. induction items as [|item items IH]; intros v s t Hrun.
  { by injection Hrun as <- _ _. }
  assert (speedsFor durationName lvs (item :: items)
          = match (if decide (lvs = [si_Address item; durationName])
                   then parsed (si_Speed item) else None) with
            | Some x => x :: speedsFor durationName lvs items
            | None => speedsFor durationName lvs items
            end) as -> by reflexivity.
  simpl Vec.speedLoop in Hrun. unfold parsed.
  destruct (parseFloat (si_Speed item)) as [speed|e].
  - rewrite run_bind in Hrun.
    destruct (Vec.WithLabelValues_Set v _ speed s) as [[[v1|e|c] s1] t1] eqn:Hset;
      try done.
    apply WithLabelValues_Set_children in Hset as [-> Hv1].
    rewrite run_bind in Hrun. simpl in Hrun.
    destruct (Vec.speedLoop durationName v1 items s) as [[o s2] t2] eqn:Hrest.
    injection Hrun as -> <- <-.
    rewrite (IH _ _ _ Hrest), Hv1.
    destruct (decide (lvs = [si_Address item; durationName])) as [Heq|Hne].
    + subst lvs. rewrite lookup_insert_eq.
      rewrite last_cons. by destruct (last (speedsFor durationName _ items)).
    + by rewrite lookup_insert_ne.
  - rewrite run_bind in Hrun. simpl in Hrun.
    destruct (Vec.speedLoop durationName v items s) as [[o s2] t2] eqn:Hrest.
    injection Hrun as -> <- <-.
    rewrite (IH _ _ _ Hrest). by destruct (decide _).
Qed.
End VecChildren.

(** ** The second revision on [Demo] *)

(** The decoders of [Demo] give the addresses of the structs they know. *)
Lemma demo_decodes : DecodesUTF8 (rt := Demo.runtime).
Proof.
  split; intros data r; simpl; unfold Demo.Unmarshal;
    destruct (find _ _) as [r'|] eqn:Hfind; try done;
    intros [= <-]; apply find_some in Hfind as [Hin _]; revert r' Hin;
    apply List.Forall_forall; by repeat constructor.
Qed.

(** X6 on [Demo]: the collectors of the package, a healthy server. *)
Lemma cycle_pushes_once_witness :
  ∃ cs' s' t,
    Vec.fetchDataAndPush Demo.pushgatewayURL Demo.apiBaseURL ["aleo1"] Vec.collectors
      (Demo.start Demo.healthy) = (Ret cs', s', t)
    ∧ packaged cs'
    ∧ DefaultRegisterer s' = DefaultRegisterer (Demo.start Demo.healthy)
    ∧ pushes_of t
      = [mkPushRequest Demo.pushgatewayURL "prover_metrics" (metrics_of cs')].
Proof.
  exact (cycle_pushes_once (rt := Demo.runtime) Demo.pushgatewayURL Demo.apiBaseURL
           ["aleo1"] demo_decodes Vec.collectors (Demo.start Demo.healthy) eq_refl).
Defined.


(** X8 on [Demo]: the collectors of the package, the refusing server. *)
Lemma outage_repushes_witness :
  ∃ s' t,
    Vec.fetchDataAndPush Demo.pushgatewayURL Demo.apiBaseURL ["aleo1"; "aleo2"]
      Vec.collectors (Demo.start refusing) = (Ret Vec.collectors, s', t)
    ∧ sets_of t = []
    ∧ pushes_of t
      = [mkPushRequest Demo.pushgatewayURL "prover_metrics" (metrics_of Vec.collectors)].
Proof.
  exact (outage_repushes (rt := Demo.runtime) Demo.pushgatewayURL Demo.apiBaseURL
           ["aleo1"; "aleo2"] (λ w : Demo.World, Demo.server w = refusing)
           refusing_is_unreachable eq_refl eq_refl eq_refl eq_refl
           Vec.collectors (Demo.start refusing) eq_refl eq_refl).
Defined.

(** X9 on [Demo]: two items for aleo1, the second one last; one for
    aleo2 that does not parse. *)
Lemma speedLoop_children_witness :
  ∃ v' s' t,
    Vec.speedLoop (rt := Demo.runtime) "15m" (Vec.proverSpeed Vec.collectors)
      [mkSpeedItem "aleo1" "12.5"; mkSpeedItem "aleo1" "7"; mkSpeedItem "aleo2" "fast"]
      (Demo.start Demo.healthy) = (Ret v', s', t)
    ∧ Vec.children v' !! ["aleo1"; "15m"] = Some 7%float
    ∧ Vec.children v' !! ["aleo2"; "15m"] = None.
Proof.
  pose proof (calm_speedLoop (rt := Demo.runtime) "15m" (Vec.proverSpeed Vec.collectors)
                [mkSpeedItem "aleo1" "12.5"; mkSpeedItem "aleo1" "7";
                 mkSpeedItem "aleo2" "fast"]
                (Demo.start Demo.healthy) eq_refl eq_refl
                ltac:(by repeat constructor)) as H.
  unfold wp, calm, outcome_of, state_of, trace_of in H.
  destruct (Vec.speedLoop _ _ _ _) as [[o s'] t] eqn:Hrun. simpl in H.
  destruct H as ((v' & -> & _) & _).
  exists v', s', t. split; first done.
  rewrite !(speedLoop_children _ _ _ _ _ _ _ _ Hrun). by vm_compute.
Defined.

(** ** The queries of a cycle of the second revision *)

Section BatchQueries.
Variable apiBaseURL : string.
Variable addresses : list string.

(** The requests of the fetch functions that take all the addresses. *)
Definition batchSpeedQuery (d : string * Z) : Request :=
  apiRequest (speedURL apiBaseURL) (Vec.speedBody addresses d.2).
Definition batchRewardQuery : Request :=
  apiRequest (rewardURL apiBaseURL) (Vec.addressBody addresses).
Definition batchHeightQuery : Request :=
  apiRequest (heightURL apiBaseURL) (Vec.addressBody addresses).
End BatchQueries.

Section VecQueries.
Context `{rt : GoRuntime}.
Variables pushgatewayURL apiBaseURL : string.
Variable addresses : list string.
Hypothesis decodes : DecodesUTF8.

Hypothesis speedURL_parses : url_Parse (speedURL apiBaseURL) = None.
Hypothesis rewardURL_parses : url_Parse (rewardURL apiBaseURL) = None.
Hypothesis heightURL_parses : url_Parse (heightURL apiBaseURL) = None.
Hypothesis blockURL_parses : url_Parse (blockURL apiBaseURL) = None.

(** A computation that returns a result with [P] after sending the
    requests [qs]. *)
Definition sends {A} (P : A → Prop) (qs : list Request)
    (o : Outcome A) (s' : State) (t : list Event) : Prop :=
  (∃ a, o = Ret a ∧ P a) ∧ requests_of t = qs.

Lemma sends_bind {A B} (P : A → Prop) (Q : B → Prop) (q1 q2 : list Request)
    (m : M A) (k : A → M B) (s : State) :
  wp m s (sends P q1) →
  (∀ a s1, P a → wp (k a) s1 (sends Q q2)) →
  wp (m ≫= k) s (sends Q (q1 ++ q2)).
Proof.
  intros Hm Hk. apply wp_bind. eapply wp_mono; first exact Hm.
  intros o s1 t1 ((a & -> & Ha) & Hq1).
  eapply wp_mono; first by apply Hk.
  intros o s2 t2 (Hret & Hq2). split; first done.
  by rewrite requests_of_app, Hq1, Hq2.
Qed.

Lemma sends_ret {A} (P : A → Prop) (a : A) (s : State) :
  P a → wp (mret a) s (sends P []).
Proof. intros Ha. apply wp_ret. split; eauto. Qed.

Lemma sends_log_Printf {B} (Q : B → Prop) qs format args (k : M B) (s : State) :
  wp k s (sends Q qs) → wp (log_Printf format args;; k) s (sends Q qs).
Proof. intros Hk. by apply wp_log_Printf. Qed.

Lemma sends_log_Println {B} (Q : B → Prop) qs str (k : M B) (s : State) :
  wp k s (sends Q qs) → wp (log_Println str;; k) s (sends Q qs).
Proof. intros Hk. by apply wp_log_Println. Qed.

Lemma sends_log_error (err : option error) (format : string) (args : error → list Arg)
    (s : State) :
  wp (match err with
      | Some e => log_Printf format (args e)
      | None => mret tt
      end) s (sends (λ _, True) []).
Proof.
  destruct err as [e|]; last by apply sends_ret.
  unfold wp, sends. simpl. eauto.
Qed.

Lemma sends_fetchData (url body : string) (s : State) :
  url_Parse url = None →
  wp (fetchData url body) s (sends (λ _, True) [apiRequest url body]).
Proof.
  intros Hurl. pose proof (requests_of_fetchData url body s) as Hq.
  rewrite Hurl in Hq.
  destruct (fetchData_returns url body s) as (r & w & t & Hrun).
  rewrite Hrun in Hq. eapply wp_eq; first exact Hrun. split; eauto.
Qed.

Lemma sends_Set (g : Gauge) (v : float64) (s : State) :
  wp (Set_ g v) s (sends (λ g', desc g' = desc g) []).
Proof. unfold wp, sends. simpl. eauto. Qed.

Lemma sends_WithLabelValues_Set (v : Vec.GaugeVec) (lvs : list string) (x : float64)
    (s : State) :
  length lvs = length (Vec.variableLabels v) →
  Forall (λ lv, utf8_ValidString lv = true) lvs →
  wp (Vec.WithLabelValues_Set v lvs x) s (sends (λ v', vecShape v' = vecShape v) []).
Proof.
  intros Hlen Hvalid.
  pose proof (calm_WithLabelValues_Set v lvs x s Hlen Hvalid) as Hcalm.
  unfold wp, calm, sends in *. destruct Hcalm as (Hret & _). split; first done.
  unfold Vec.WithLabelValues_Set. by destruct (Vec.validateLabelValues _ _).
Qed.

Lemma sends_speedLoop (durationName : string) (v : Vec.GaugeVec)
    (items : list SpeedItem) (s : State) :
  utf8_ValidString durationName = true →
  length (Vec.variableLabels v) = 2%nat →
  Forall (λ item, utf8_ValidString (si_Address item) = true) items →
  wp (Vec.speedLoop durationName v items) s (sends (λ v', vecShape v' = vecShape v) []).
Proof.
  intros Hdn. revert v s. induction items as [|item items IH]; intros v s Hlen Hitems;
    first by apply sends_ret.
  apply Forall_cons in Hitems as [Hitem Hitems].
  simpl Vec.speedLoop. destruct (parseFloat (si_Speed item)) as [speed|e].
  - eapply (sends_bind _ _ [] []).
    { apply sends_WithLabelValues_Set; first done. by repeat constructor. }
    intros v' s1 Hv'. simpl in Hv'. apply sends_log_Printf.
    eapply wp_mono.
    { apply IH; last done. injection Hv' as _ ->. done. }
    intros o s2 t2 ((v'' & -> & Hv'') & ?). split; last done.
    exists v''. split; first done. congruence.
  - apply sends_log_Printf. by apply IH.
Qed.

Lemma sends_rewardLoop (v : Vec.GaugeVec) (items : list RewardItem) (s : State) :
  length (Vec.variableLabels v) = 1%nat →
  Forall (λ item, utf8_ValidString (ri_Address item) = true) items →
  wp (Vec.rewardLoop v items) s (sends (λ v', vecShape v' = vecShape v) []).
Proof.
  revert v s. induction items as [|item items IH]; intros v s Hlen Hitems;
    first by apply sends_ret.
  apply Forall_cons in Hitems as [Hitem Hitems].
  simpl Vec.rewardLoop. destruct (parseFloat (ri_TotalReward item)) as [x|e].
  - eapply (sends_bind _ _ [] []).
    { apply sends_WithLabelValues_Set; first done. by repeat constructor. }
    intros v' s1 Hv'. simpl in Hv'. apply sends_log_Printf.
    eapply wp_mono.
    { apply IH; last done. injection Hv' as _ ->. done. }
    intros o s2 t2 ((v'' & -> & Hv'') & ?). split; last done.
    exists v''. split; first done. congruence.
  - apply sends_log_Printf. by apply IH.
Qed.

Lemma sends_heightLoop (v : Vec.GaugeVec) (items : list HeightItem) (s : State) :
  length (Vec.variableLabels v) = 1%nat →
  Forall (λ item, utf8_ValidString (hi_Address item) = true) items →
  wp (Vec.heightLoop v items) s (sends (λ v', vecShape v' = vecShape v) []).
Proof.
  revert v s. induction items as [|item items IH]; intros v s Hlen Hitems;
    first by apply sends_ret.
  apply Forall_cons in Hitems as [Hitem Hitems].
  simpl Vec.heightLoop.
  eapply (sends_bind _ _ [] []).
  { apply sends_WithLabelValues_Set; first done. by repeat constructor. }
  intros v' s1 Hv'. simpl in Hv'. apply sends_log_Printf.
  eapply wp_mono.
  { apply IH; last done. injection Hv' as _ ->. done. }
  intros o s2 t2 ((v'' & -> & Hv'') & ?). split; last done.
  exists v''. split; first done. congruence.
Qed.

Lemma sends_fetchProverSpeed (cs : Vec.Collectors) (d : string * Z) (s : State) :
  packaged cs →
  utf8_ValidString d.1 = true →
  wp (Vec.fetchProverSpeed apiBaseURL cs addresses d.2 d.1) s
    (sends (λ r, packaged r.2) [batchSpeedQuery apiBaseURL addresses d]).
Proof.
  intros Hcs Hdn. destruct (packaged_labels cs Hcs) as (Hps & Hts & _ & _).
  unfold Vec.fetchProverSpeed. cbv zeta.
  eapply (sends_bind _ _ [_] []); first by apply sends_fetchData.
  intros [data|err] s1 _; last by apply sends_ret.
  destruct (json_Unmarshal_speed data) as [r|err] eqn:Hr; last by apply sends_ret.
  eapply (sends_bind _ _ [] []).
  { apply sends_speedLoop; [done..|]. by eapply (speed_utf8 decodes). }
  intros ps s2 Hshape. simpl in Hshape.
  destruct (parseFloat (sp_Total r)) as [x|e].
  - eapply (sends_bind _ _ [] []).
    { apply sends_WithLabelValues_Set; first done. by repeat constructor. }
    intros ts s3 Hshape'. simpl in Hshape'.
    apply sends_log_Printf, sends_ret. simpl.
    unfold packaged, shapes in *. simpl. by rewrite Hshape, Hshape'.
  - apply sends_log_Printf, sends_ret. simpl.
    unfold packaged, shapes in *. simpl. by rewrite Hshape.
Qed.

Lemma sends_fetchProverReward (cs : Vec.Collectors) (s : State) :
  packaged cs →
  wp (Vec.fetchProverReward apiBaseURL cs addresses) s
    (sends (λ r, packaged r.2) [batchRewardQuery apiBaseURL addresses]).
Proof.
  intros Hcs. destruct (packaged_labels cs Hcs) as (_ & _ & Htr & _).
  unfold Vec.fetchProverReward. cbv zeta.
  eapply (sends_bind _ _ [_] []); first by apply sends_fetchData.
  intros [data|err] s1 _; last by apply sends_ret.
  destruct (json_Unmarshal_reward data) as [r|err] eqn:Hr; last by apply sends_ret.
  eapply (sends_bind _ _ [] []).
  { apply sends_rewardLoop; first done. by eapply (reward_utf8 decodes). }
  intros tr s2 Hshape. simpl in Hshape. apply sends_ret. simpl.
  unfold packaged, shapes in *. simpl. by rewrite Hshape.
Qed.

Lemma sends_fetchProverLatestHeight (cs : Vec.Collectors) (s : State) :
  packaged cs →
  wp (Vec.fetchProverLatestHeight apiBaseURL cs addresses) s
    (sends (λ r, packaged r.2) [batchHeightQuery apiBaseURL addresses]).
Proof.
  intros Hcs. destruct (packaged_labels cs Hcs) as (_ & _ & _ & Hph).
  unfold Vec.fetchProverLatestHeight. cbv zeta.
  eapply (sends_bind _ _ [_] []); first by apply sends_fetchData.
  intros [data|err] s1 _; last by apply sends_ret.
  destruct (json_Unmarshal_height data) as [r|err] eqn:Hr; last by apply sends_ret.
  eapply (sends_bind _ _ [] []).
  { apply sends_heightLoop; first done. by eapply (height_utf8 decodes). }
  intros ph s2 Hshape. simpl in Hshape. apply sends_ret. simpl.
  unfold packaged, shapes in *. simpl. by rewrite Hshape.
Qed.

Lemma sends_fetchLatestBlock (cs : Vec.Collectors) (s : State) :
  packaged cs →
  wp (Vec.fetchLatestBlock apiBaseURL cs) s
    (sends (λ r, packaged r.2) [blockQuery apiBaseURL]).
Proof.
  intros Hcs. unfold Vec.fetchLatestBlock. cbv zeta.
  eapply (sends_bind _ _ [_] []); first by apply sends_fetchData.
  intros [data|err] s1 _; last by apply sends_ret.
  apply sends_log_Printf.
  destruct (json_Unmarshal_block data) as [r|err]; last by apply sends_ret.
  eapply (sends_bind _ _ [] []); first apply sends_Set.
  intros lbh s2 Hl. simpl in Hl. apply sends_log_Printf.
  destruct (parseFloat (bl_ProofTarget r)) as [x|e].
  2: { apply sends_log_Printf, sends_ret. simpl.
       unfold packaged, shapes in *. simpl. by rewrite Hl. }
  eapply (sends_bind _ _ [] []); first apply sends_Set.
  intros pt s3 Hp. simpl in Hp. apply sends_log_Printf.
  destruct (parseFloat (bl_CoinbaseReward r)) as [y|e].
  2: { apply sends_log_Printf, sends_ret. simpl.
       unfold packaged, shapes in *. simpl. by rewrite Hl, Hp. }
  eapply (sends_bind _ _ [] []); first apply sends_Set.
  intros cr s4 Hc. simpl in Hc. apply sends_log_Printf, sends_ret. simpl.
  unfold packaged, shapes in *. simpl. by rewrite Hl, Hp, Hc.
Qed.

Lemma sends_durationLoop (cs : Vec.Collectors) (ds : list (string * Z)) (s : State) :
  packaged cs →
  Forall (λ d, utf8_ValidString d.1 = true) ds →
  wp (Vec.durationLoop apiBaseURL addresses cs ds) s
    (sends packaged (map (batchSpeedQuery apiBaseURL addresses) ds)).
Proof.
  revert cs s. induction ds as [|[dn d] ds IH]; intros cs s Hcs Hds;
    first by apply sends_ret.
  apply Forall_cons in Hds as [Hdn Hds].
  simpl Vec.durationLoop. apply sends_log_Printf.
  eapply (sends_bind _ _ [_] (map _ ds));
    first by apply (sends_fetchProverSpeed cs (dn, d)).
  intros r s1 Hr. simpl in Hr.
  eapply (sends_bind _ _ [] (map _ ds)).
  { apply (sends_log_error r.1 _ (λ e, [AStr dn; AErr e])). }
  intros _ s2 _. by apply IH.
Qed.

(** X10.  A cycle of the second revision sends seven queries however
    many addresses there are: the speed query of each of the four
    durations, in the order [range] yields them, then the reward query,
    the latest-height query and the latest-block query; the three kinds
    of per-address queries carry all the addresses in one body. *)
Theorem batch_cycle_queries (cs : Vec.Collectors) (s : State) :
  packaged cs →
  ∃ ds,
    ds ≡ₚ durations
    ∧ requests_of
        (trace_of (Vec.fetchDataAndPush pushgatewayURL apiBaseURL addresses cs s))
      = map (batchSpeedQuery apiBaseURL addresses) ds
        ++ [batchRewardQuery apiBaseURL addresses;
            batchHeightQuery apiBaseURL addresses;
            blockQuery apiBaseURL].
Proof.
  intros Hcs.
  enough (wp (Vec.fetchDataAndPush pushgatewayURL apiBaseURL addresses cs) s
            (λ _ _ t,
               ∃ ds, ds ≡ₚ durations
                     ∧ requests_of t
                       = map (batchSpeedQuery apiBaseURL addresses) ds
                         ++ [batchRewardQuery apiBaseURL addresses;
                             batchHeightQuery apiBaseURL addresses;
                             blockQuery apiBaseURL])) as H by exact H.
  unfold Vec.fetchDataAndPush. apply wp_log_Println, wp_bind.
  pose proof (map_range_perm durations (world s)) as Hperm.
  unfold wp at 1, with_world, outcome_of, state_of, trace_of.
  destruct (map_range durations (world s)) as [ds w]. simpl in *.
  eapply wp_mono with (Q := sends (λ _, True) _);
    last by (intros o s' t [_ Hq]; exists ds; split; [exact Hperm | exact Hq]).
  eapply (sends_bind _ _ (map _ ds) [_; _; _]);
    first by apply sends_durationLoop, durations_utf8.
  intros cs1 s2 Hcs1. apply sends_log_Println.
  eapply (sends_bind _ _ [_] [_; _]); first by apply sends_fetchProverReward.
  intros r1 s3 Hr1. simpl in Hr1.
  eapply (sends_bind _ _ [] [_; _]);
    first apply (sends_log_error r1.1 _ (λ e, [AErr e])).
  intros _ s4 _. apply sends_log_Println.
  eapply (sends_bind _ _ [_] [_]); first by apply sends_fetchProverLatestHeight.
  intros r2 s5 Hr2. simpl in Hr2.
  eapply (sends_bind _ _ [] [_]);
    first apply (sends_log_error r2.1 _ (λ e, [AErr e])).
  intros _ s6 _. apply sends_log_Println.
  eapply (sends_bind _ _ [_] []); first by apply sends_fetchLatestBlock.
  intros r3 s7 Hr3. simpl in Hr3.
  eapply (sends_bind _ _ [] []);
    first apply (sends_log_error r3.1 _ (λ e, [AErr e])).
  intros _ s8 _. apply sends_log_Println.
  destruct (pusher_packaged pushgatewayURL r3.2 Hr3) as [reg Hp].
  apply wp_bind. eapply wp_eq.
  { rewrite Hp. by apply Push_run. }
  simpl.
  destruct (gateway_Do _ _).1; unfold wp, sends, outcome_of, state_of, trace_of;
    simpl; eauto.
Qed.
End VecQueries.

(** X10 on [Demo]: three addresses, a healthy server. *)
Lemma batch_cycle_queries_witness :
  ∃ ds,
    ds ≡ₚ durations
    ∧ requests_of
        (trace_of (Vec.fetchDataAndPush Demo.pushgatewayURL Demo.apiBaseURL
                     ["aleo1"; "aleo2"; "aleo3"] Vec.collectors
                     (Demo.start Demo.healthy)))
      = map (batchSpeedQuery Demo.apiBaseURL ["aleo1"; "aleo2"; "aleo3"]) ds
        ++ [batchRewardQuery Demo.apiBaseURL ["aleo1"; "aleo2"; "aleo3"];
            batchHeightQuery Demo.apiBaseURL ["aleo1"; "aleo2"; "aleo3"];
            blockQuery Demo.apiBaseURL].
Proof.
  exact (batch_cycle_queries (rt := Demo.runtime) Demo.pushgatewayURL Demo.apiBaseURL
           ["aleo1"; "aleo2"; "aleo3"] demo_decodes eq_refl eq_refl eq_refl eq_refl
           Vec.collectors (Demo.start Demo.healthy) eq_refl).
Defined.

(** * The push helpers of package prometh

    src/prometh/prometh.go pushes one value at a time: each helper parses
    its string, sets a gauge of its own that no registry of the process
    holds, and pushes it under a job of its own and a grouping key. *)

Module Prometh.

(** What one push with a grouping key sends to the Pushgateway. *)
Record GroupedRequest : Type := mkGroupedRequest {
  request : PushRequest;
  groupingKey : gmap string string
}.

(** [push.Pusher] with its grouping key. *)
Record GroupedPusher : Type := mkGroupedPusher {
  base : Pusher;
  grouping : gmap string string
}.

Definition New (url jobName : string) : GroupedPusher :=
  mkGroupedPusher (push_New url jobName) ∅.

Definition isLetter (c : ascii) : bool :=
  byte_in 97 122 c || byte_in 65 90 c || byte_is 95 c.

(** [model.LabelName.IsValid], as the names of the helpers need it: a
    letter or an underscore, then letters, digits and underscores. *)
Definition isValidLabelName (name : string) : bool :=
  match name with
  | EmptyString => false
  | String c rest => isLetter c && all_bytes (λ b, isLetter b || isDigit b) rest
  end.

Definition Grouping (name value : string) (p : GroupedPusher) : GroupedPusher :=
  match p_error (base p) with
  | Some _ => p
  | None =>
      if isValidLabelName name
      then mkGroupedPusher (base p) (<[ name := value ]> (grouping p))
      else mkGroupedPusher
             (mkPusher (p_url (base p)) (p_job (base p)) (p_registry (base p))
                (p_collectors (base p))
                (Some (Err ("grouping label has invalid name: " +:+ name))))
             (grouping p)
  end.

Definition Collector (g : Gauge) (p : GroupedPusher) : GroupedPusher :=
  mkGroupedPusher (Collector g (base p)) (grouping p).

(** What a helper does that shows: a log line, or a push. *)
Inductive Ev : Type :=
| Logged (format : string) (args : list Arg)
| Pushed (req : GroupedRequest).

Section Program.
Context `{rt : GoRuntime}.

(** The HTTP exchange of [Pusher.Push] for a pusher with a grouping
    key: the error, if any, of the transport or of a status that is
    neither 200 nor 202. *)
Variable grouped_Do : GroupedRequest → Ext → option error * Ext.

(** A helper threads the outside world and writes its events down. *)
Definition P (A : Type) : Type := Ext → A * Ext * list Ev.

Definition ret {A} (a : A) : P A := λ w, (a, w, []).
Definition bind {A B} (m : P A) (k : A → P B) : P B := λ w,
  let '(a, w1, t1) := m w in
  let '(b, w2, t2) := k a w1 in
  (b, w2, t1 ++ t2).

#[local] Instance P_ret : MRet P := @ret.
#[local] Instance P_bind : MBind P := λ A B k m, bind m k.

Definition log_Printf (format : string) (args : list Arg) : P unit :=
  λ w, (tt, w, [Logged format args]).

(** The label of a pushed metric that the push refuses: job, or a label
    of the grouping key. *)
Definition conflict (p : GroupedPusher) : option string :=
  head (filter (λ name, bool_decide (name = "job" ∨ is_Some (grouping p !! name)))
          (flat_map (λ g, (constLabels (desc g)).*1) (p_collectors (base p)))).

Definition Push (p : GroupedPusher) : P (option error) :=
  match p_error (base p) with
  | Some e => mret (Some e)
  | None =>
      match conflict p with
      | Some name => mret (Some (Err ("pushed metric already contains label " +:+ name)))
      | None =>
          let req := mkGroupedRequest
                       (mkPushRequest (p_url (base p)) (p_job (base p))
                          (p_collectors (base p)))
                       (grouping p) in
          λ w, let '(err, w') := grouped_Do req w in (err, w', [Pushed req])
      end
  end.

(** [strconv.Itoa] *)
Definition Itoa (n : Z) : string := fmt_d n.

Definition logPushError (url : string) (err : option error) : P unit :=
  match err with
  | Some err => log_Printf "push prometheus %s failed:%s" [AStr url; AErr err]
  | None => mret tt
  end.

Definition SpeedPush (url addr : string) (duration : Z) (speed : string) : P unit :=
  let job := "aleo_prover_speed" in
  match parseFloat speed with
  | Fail err => log_Printf "parse speed %s failed:%s" [AStr speed; AErr err]
  | Ok speedFloat =>
      let gauge := Gauge_Set (NewGauge job "" []) speedFloat in
      err ← Push (Collector gauge
                    (Grouping "duration" (Itoa duration)
                       (Grouping "addr" addr
                          (Grouping "module" "cluster" (New url job)))));
      logPushError url err
  end.

Definition TotalSpeedPush (url : string) (duration : Z) (speed : string) : P unit :=
  let job := "aleo_prover_total_speed" in
  match parseFloat speed with
  | Fail err => log_Printf "parse speed %s failed:%s" [AStr speed; AErr err]
  | Ok speedFloat =>
      let gauge := Gauge_Set (NewGauge job "" []) speedFloat in
      err ← Push (Collector gauge (Grouping "duration" (Itoa duration) (New url job)));
      logPushError url err
  end.

Definition RewardPush (url addr reward : string) : P unit :=
  let job := "aleo_prover_reward" in
  match parseFloat reward with
  | Fail err => log_Printf "parse reward %s failed:%s" [AStr reward; AErr err]
  | Ok rewardFloat =>
      let gauge := Gauge_Set (NewGauge job "" []) rewardFloat in
      err ← Push (Collector gauge
                    (Grouping "addr" addr (Grouping "module" "cluster" (New url job))));
      logPushError url err
  end.

Definition TotalRewardPush (url reward : string) : P unit :=
  let job := "aleo_prover_total_reward" in
  match parseFloat reward with
  | Fail err => log_Printf "parse reward %s failed:%s" [AStr reward; AErr err]
  | Ok rewardFloat =>
      let gauge := Gauge_Set (NewGauge job "" []) rewardFloat in
      err ← Push (Collector gauge (New url job));
      logPushError url err
  end.

Definition HeightPush (url addr : string) (height : Z) : P unit :=
  let job := "aleo_prover_latest_height" in
  let gauge := Gauge_Set (NewGauge job "" []) (float64_of_int height) in
  err ← Push (Collector gauge
                (Grouping "addr" addr (Grouping "module" "cluster" (New url job))));
  logPushError url err.

Definition BlockPush (url : string) (height : Z) (proof reward : string) : P unit :=
  let job := "aleo_prover_latest_block" in
  let gauge := Gauge_Set (NewGauge job "" []) (float64_of_int height) in
  err ← Push (Collector gauge (Grouping "type" "height" (New url job)));
  logPushError url err;;
  match parseFloat proof with
  | Fail err => log_Printf "parse proof %s failed:%s" [AStr proof; AErr err]
  | Ok proofFloat =>
      let gauge := Gauge_Set gauge proofFloat in
      Push (Collector gauge (Grouping "type" "proof" (New url job)));;
      match parseFloat reward with
      | Fail err => log_Printf "parse reward %s failed:%s" [AStr reward; AErr err]
      | Ok rewardFloat =>
          let gauge := Gauge_Set gauge rewardFloat in
          Push (Collector gauge (Grouping "type" "reward" (New url job)));;
          mret tt
      end
  end.
End Program.
End Prometh.

(** ** What the push helpers do *)

(** The pushes and the log lines of a run, in order. *)
Definition grouped_pushes (t : list Prometh.Ev) : list Prometh.GroupedRequest :=
  omap (λ e, match e with Prometh.Pushed req => Some req | _ => None end) t.
Definition logged (t : list Prometh.Ev) : list (string * list Arg) :=
  omap (λ e, match e with Prometh.Logged f a => Some (f, a) | _ => None end) t.

(** The push of the gauge of the job [jobName] with the value [v],
    under the grouping key [key]. *)
Definition groupedPush (url jobName : string) (key : list (string * string))
    (v : float64) : Prometh.GroupedRequest :=
  Prometh.mkGroupedRequest
    (mkPushRequest url jobName [mkGauge (mkDesc jobName "" []) v])
    (list_to_map key).

(** The log line of a push that failed. *)
Definition pushFailure (url : string) (err : option error) : list (string * list Arg) :=
  match err with
  | Some e => [("push prometheus %s failed:%s", [AStr url; AErr e])]
  | None => []
  end.

Section PromethPushes.
Context `{rt : GoRuntime}.
Variable grouped_Do : Prometh.GroupedRequest → Ext → option error * Ext.

(** A pusher that has taken nothing but grouping labels. *)
Definition keyed (url jobName : string) (key : gmap string string)
    (p : Prometh.GroupedPusher) : Prop :=
  Prometh.base p = mkPusher url jobName NewRegistry [] None ∧ Prometh.grouping p = key.

Lemma New_keyed (url jobName : string) :
  jobName ≠ "" → keyed url jobName ∅ (Prometh.New url jobName).
Proof.
  intros Hj. unfold keyed, Prometh.New, push_New. simpl.
  by rewrite decide_False.
Qed.

Lemma Grouping_keyed (url jobName name value : string) (key : gmap string string)
    (p : Prometh.GroupedPusher) :
  Prometh.isValidLabelName name = true →
  keyed url jobName key p →
  keyed url jobName (<[ name := value ]> key) (Prometh.Grouping name value p).
Proof.
  intros Hname [Hbase Hkey]. unfold keyed, Prometh.Grouping.
  rewrite Hbase. simpl. rewrite Hname. simpl. by rewrite Hkey.
Qed.

(** The push of one gauge without labels by such a pusher. *)
Lemma Push_keyed (url jobName : string) (key : gmap string string)
    (p : Prometh.GroupedPusher) (g : Gauge) (w : Ext) :
  keyed url jobName key p →
  constLabels (desc g) = [] →
  let req := Prometh.mkGroupedRequest (mkPushRequest url jobName [g]) key in
  Prometh.Push grouped_Do (Prometh.Collector g p) w
  = ((grouped_Do req w).1, (grouped_Do req w).2, [Prometh.Pushed req]).
Proof.
  intros [Hbase Hkey] Hlabels req. unfold Prometh.Push, Prometh.Collector.
  rewrite Hbase. unfold Collector. simpl.
  rewrite Register_new_name; first last.
  { simpl. set_solver. }
  { done. }
  { unfold descValid. by rewrite Hlabels. }
  simpl. unfold Prometh.conflict. simpl. rewrite Hlabels. simpl.
  rewrite Hkey. fold req. by destruct (grouped_Do req w).
Qed.

(** What a helper that parses [text] and pushes the value shows: the
    pushes and the log lines. *)
Definition parseThenPush (what url text : string)
    (req : float64 → Prometh.GroupedRequest) (w : Ext)
    : list Prometh.GroupedRequest * list (string * list Arg) :=
  match parseFloat text with
  | Fail err => ([], [("parse " +:+ what +:+ " %s failed:%s", [AStr text; AErr err])])
  | Ok v => ([req v], pushFailure url (grouped_Do (req v) w).1)
  end.

Definition shown (r : unit * Ext * list Prometh.Ev)
    : list Prometh.GroupedRequest * list (string * list Arg) :=
  (grouped_pushes r.2, logged r.2).

Lemma shown_push (url jobName : string) (key : list (string * string))
    (p : Prometh.GroupedPusher) (v : float64) (w : Ext) :
  keyed url jobName (list_to_map key) p →
  shown (Prometh.bind
           (Prometh.Push grouped_Do
              (Prometh.Collector (Gauge_Set (NewGauge jobName "" []) v) p))
           (Prometh.logPushError url) w)
  = ([groupedPush url jobName key v],
     pushFailure url (grouped_Do (groupedPush url jobName key v) w).1).
Proof.
  intros Hp. unfold Prometh.bind.
  rewrite (Push_keyed url jobName _ p (Gauge_Set (NewGauge jobName "" []) v) w Hp eq_refl).
  cbv zeta.
  fold (groupedPush url jobName key v).
  by destruct (grouped_Do _ w).1.
Qed.

(** X11.  Each helper that takes its value as a string pushes it if
    and only if it parses: a string that does not parse leaves one log
    line and no push; one that parses is pushed once, as the value of a
    gauge named after the job, under the job and the grouping key of the
    helper, and the error of the push, if any, is logged.  [HeightPush]
    takes an int and always pushes. *)
Theorem helpers_push_what_parses (url addr : string) (duration height : Z)
    (text : string) (w : Ext) :
  shown (Prometh.SpeedPush grouped_Do url addr duration text w)
  = parseThenPush "speed" url text
      (groupedPush url "aleo_prover_speed"
         [("duration", fmt_d duration); ("addr", addr); ("module", "cluster")]) w
  ∧ shown (Prometh.TotalSpeedPush grouped_Do url duration text w)
    = parseThenPush "speed" url text
        (groupedPush url "aleo_prover_total_speed" [("duration", fmt_d duration)]) w
  ∧ shown (Prometh.RewardPush grouped_Do url addr text w)
    = parseThenPush "reward" url text
        (groupedPush url "aleo_prover_reward" [("addr", addr); ("module", "cluster")]) w
  ∧ shown (Prometh.TotalRewardPush grouped_Do url text w)
    = parseThenPush "reward" url text (groupedPush url "aleo_prover_total_reward" []) w
  ∧ shown (Prometh.HeightPush grouped_Do url addr height w)
    = ([groupedPush url "aleo_prover_latest_height"
          [("addr", addr); ("module", "cluster")] (float64_of_int height)],
       pushFailure url
         (grouped_Do (groupedPush url "aleo_prover_latest_height"
                        [("addr", addr); ("module", "cluster")]
                        (float64_of_int height)) w).1).
Proof.
  unfold Prometh.SpeedPush, Prometh.TotalSpeedPush, Prometh.RewardPush,
    Prometh.TotalRewardPush, Prometh.HeightPush, parseThenPush, Prometh.Itoa.
  cbv zeta.
  split_and!; try (destruct (parseFloat text) as [v|err]; [|reflexivity]);
    apply shown_push; simpl list_to_map;
    repeat (apply Grouping_keyed; first reflexivity); by apply New_keyed.
Qed.

(** X12.  [BlockPush] always pushes the height first.  It pushes the
    proof target if that string parses, and the reward if both strings
    parse; a string that does not parse is logged and ends the call.  Of
    the three pushes only a failure of the first is logged: the errors of
    the other two are dropped. *)
Theorem BlockPush_shows (url : string) (height : Z) (proof reward : string) (w : Ext) :
  let push kind v := groupedPush url "aleo_prover_latest_block" [("type", kind)] v in
  shown (Prometh.BlockPush grouped_Do url height proof reward w)
  = (push "height" (float64_of_int height)
     :: match parseFloat proof with
        | Fail _ => []
        | Ok p =>
            push "proof" p
            :: match parseFloat reward with
               | Fail _ => []
               | Ok r => [push "reward" r]
               end
        end,
     pushFailure url (grouped_Do (push "height" (float64_of_int height)) w).1
     ++ match parseFloat proof with
        | Fail err => [("parse proof %s failed:%s", [AStr proof; AErr err])]
        | Ok _ =>
            match parseFloat reward with
            | Fail err => [("parse reward %s failed:%s", [AStr reward; AErr err])]
            | Ok _ => []
            end
        end).
Proof.
  intros push.
  assert (∀ kind, keyed url "aleo_prover_latest_block" (list_to_map [("type", kind)])
                    (Prometh.Grouping "type" kind
                       (Prometh.New url "aleo_prover_latest_block"))) as Hkeyed.
  { intros kind. apply Grouping_keyed; first reflexivity. by apply New_keyed. }
  assert (∀ kind v w,
            Prometh.Push grouped_Do
              (Prometh.Collector
                 (mkGauge (mkDesc "aleo_prover_latest_block" "" []) v)
                 (Prometh.Grouping "type" kind
                    (Prometh.New url "aleo_prover_latest_block"))) w
            = ((grouped_Do (push kind v) w).1, (grouped_Do (push kind v) w).2,
               [Prometh.Pushed (push kind v)])) as Hpush.
  { intros kind v w'.
    exact (Push_keyed url _ _ _ (mkGauge (mkDesc "aleo_prover_latest_block" "" []) v)
             w' (Hkeyed kind) eq_refl). }
  unfold Prometh.BlockPush, shown, mbind, Prometh.P_bind, Prometh.bind. cbv zeta.
  change (Gauge_Set (NewGauge "aleo_prover_latest_block" "" []) (float64_of_int height))
    with (mkGauge (mkDesc "aleo_prover_latest_block" "" []) (float64_of_int height)).
  rewrite (Hpush "height" (float64_of_int height) w).
  destruct (grouped_Do (push "height" (float64_of_int height)) w) as [err w1].
  cbv beta iota delta [fst snd].
  destruct (parseFloat proof) as [p|e1].
  2: { by destruct err. }
  change (Gauge_Set (mkGauge (mkDesc "aleo_prover_latest_block" "" [])
                       (float64_of_int height)) p)
    with (mkGauge (mkDesc "aleo_prover_latest_block" "" []) p).
  assert (Prometh.logPushError url err w1
          = (tt, w1, match err with
                     | Some e => [Prometh.Logged "push prometheus %s failed:%s"
                                    [AStr url; AErr e]]
                     | None => []
                     end)) as -> by by destruct err.
  rewrite (Hpush "proof" p w1).
  destruct (grouped_Do (push "proof" p) w1) as [err2 w2].
  cbv beta iota delta [fst snd].
  destruct (parseFloat reward) as [r|e2].
  2: { by destruct err. }
  change (Gauge_Set (mkGauge (mkDesc "aleo_prover_latest_block" "" []) p) r)
    with (mkGauge (mkDesc "aleo_prover_latest_block" "" []) r).
  rewrite (Hpush "reward" r w2).
  by destruct err.
Qed.
End PromethPushes.
